(** * mjson: a shallow embedding of [mjson.h] and the properties of its
      tokenizer, path resolver, escape codec and printer.

    Conventions of the embedding.

    - A C [int] is a [Z].  Offsets and lengths never leave the range of
      [int] for buffers shorter than 2^31 bytes, so their arithmetic is
      written without wrap-around; the one place where the source negates
      an arbitrary [int] ([mjson_print_int]) checks the range explicitly.
    - A byte is a [Z] in [0, 255].  A buffer is the list of the bytes of a
      C string: the memory object is the list followed by its terminating
      NUL, which is what a read at or past the end of the list yields
      ([sget]).  The length argument [len] of the C functions stays a
      separate argument, as in the source.
    - Undefined behaviour is an explicit outcome ([Undef]) of the result
      type [res]; so is running out of the fuel that bounds a loop
      ([NoFuel]), which the totality lemmas show never happens. *)

From Stdlib Require Import ZArith String Ascii Lia Bool.
From stdpp Require Import base list.

Local Open Scope Z_scope.

(* ------------------------------------------------------------------ *)
(** ** Bytes and buffers *)

Definition byte_of_ascii (a : ascii) : Z := Z.of_N (N_of_ascii a).

(** The bytes of a string literal. *)
Definition bytes (x : string) : list Z :=
  List.map byte_of_ascii (list_ascii_of_string x).

(** JSON text written with apostrophes where the text has double quotes:
    in [json] of the literal [{'a':1}] the two apostrophes become the
    double quotes (byte 34) around the key. *)
Definition json (x : string) : list Z :=
  List.map (fun b => if b =? 39 then 34 else b) (bytes x).

(** [s[i]]: the byte at offset [i]; the terminating NUL at and after the
    end of the list. *)
Definition sget (s : list Z) (i : Z) : Z :=
  if i <? 0 then 0 else nth (Z.to_nat i) s 0.

(** [&s[i]]: the buffer seen from offset [i]. *)
Definition sfrom (s : list Z) (i : Z) : list Z := drop (Z.to_nat i) s.

(** [memcmp(&s[i], lit, strlen(lit)) == 0]. *)
Fixpoint memeq (s : list Z) (i : Z) (lit : list Z) : bool :=
  match lit with
  | [] => true
  | b :: lit' => (sget s i =? b) && memeq s (i + 1) lit'
  end.

(* ------------------------------------------------------------------ *)
(** ** Outcomes *)

Inductive ub : Type :=
| OobNesting (idx : Z)   (* nesting[idx] outside the depth stack *)
| OobPath (idx : Z)      (* path[idx] past the terminating NUL of the path *)
| BadSize (n : Z)        (* a negative int converted to size_t *)
| OobWrite (idx : Z)     (* a store outside the destination buffer *)
| Uninit                 (* a read of an uninitialised local *)
| FloatToInt             (* double to int conversion out of range *)
| IntOverflow.           (* signed overflow *)

Inductive res (A : Type) : Type :=
| Val (a : A)
| Undef (u : ub)
| NoFuel.
Arguments Val {A} a.
Arguments Undef {A} u.
Arguments NoFuel {A}.

(** [res] is a monad; stdpp's notation [x ← m; k] sequences outcomes. *)
#[global] Instance res_ret : MRet res := fun A a => Val a.
#[global] Instance res_bind : MBind res := fun A B k m =>
  match m with
  | Val a => k a
  | Undef u => Undef u
  | NoFuel => NoFuel
  end.

#[global] Instance res_fmap : FMap res := fun A B f m =>
  match m with
  | Val a => Val (f a)
  | Undef u => Undef u
  | NoFuel => NoFuel
  end.

(* ------------------------------------------------------------------ *)
(** ** Constants of the header *)

Definition MJSON_ERROR_INVALID_INPUT : Z := -1.
Definition MJSON_ERROR_TOO_DEEP : Z := -2.

Definition MJSON_TOK_INVALID : Z := 0.
Definition MJSON_TOK_KEY : Z := 1.
Definition MJSON_TOK_STRING : Z := 11.
Definition MJSON_TOK_NUMBER : Z := 12.
Definition MJSON_TOK_TRUE : Z := 13.
Definition MJSON_TOK_FALSE : Z := 14.
Definition MJSON_TOK_NULL : Z := 15.
Definition MJSON_TOK_ARRAY : Z := 91.
Definition MJSON_TOK_OBJECT : Z := 123.

Definition MJSON_TOK_IS_VALUE (t : Z) : bool := (10 <? t) && (t <? 20).

Definition MJSON_MAX_DEPTH : Z := 20.

(** Character constants, by their ASCII codes. *)
Abbreviation CH_BS := 8 (only parsing).
Abbreviation CH_TAB := 9 (only parsing).
Abbreviation CH_LF := 10 (only parsing).
Abbreviation CH_FF := 12 (only parsing).
Abbreviation CH_CR := 13 (only parsing).
Abbreviation CH_SPACE := 32 (only parsing).
Abbreviation CH_DQUOTE := 34 (only parsing).
Abbreviation CH_PLUS := 43 (only parsing).
Abbreviation CH_COMMA := 44 (only parsing).
Abbreviation CH_MINUS := 45 (only parsing).
Abbreviation CH_DOT := 46 (only parsing).
Abbreviation CH_SLASH := 47 (only parsing).
Abbreviation CH_COLON := 58 (only parsing).
Abbreviation CH_LBRACKET := 91 (only parsing).
Abbreviation CH_BACKSLASH := 92 (only parsing).
Abbreviation CH_RBRACKET := 93 (only parsing).
Abbreviation CH_LBRACE := 123 (only parsing).
Abbreviation CH_RBRACE := 125 (only parsing).
Abbreviation CH_DOLLAR := 36 (only parsing).

(* ------------------------------------------------------------------ *)
(** ** Escape codec: [mjson_esc] *)

(** The two tables of [mjson_esc], without their terminators: [esc1]
    holds the raw characters (backspace, form feed, newline, carriage
    return, tab, backslash, double quote, slash) and [esc2] the letters
    that stand for them after a backslash (b f n r t, then backslash,
    double quote and slash themselves). *)
Definition esc1 : list Z := [CH_BS; CH_FF; CH_LF; CH_CR; CH_TAB; CH_BACKSLASH; CH_DQUOTE; CH_SLASH].
Definition esc2 : list Z := [98; 102; 110; 114; 116; CH_BACKSLASH; CH_DQUOTE; CH_SLASH].

(** [strchr(str, c)]: the index of the first occurrence of [c] in the C
    string [str]; the terminator is part of the string, so [c = 0] is
    found at index [strlen(str)]. *)
Fixpoint strchr (str : list Z) (c : Z) : option nat :=
  match str with
  | [] => if c =? 0 then Some O else None
  | x :: str' => if x =? c then Some O else option_map S (strchr str' c)
  end.

(** [static int mjson_esc(int c, int esc)].  [strchr] converts [c] to
    [char], hence the reduction modulo 256. *)
Definition mjson_esc (c esc : Z) : Z :=
  match strchr (if esc =? 0 then esc2 else esc1) (c mod 256) with
  | None => 0
  | Some k => if esc =? 0 then nth k esc1 0 else nth k esc2 0
  end.

(* ------------------------------------------------------------------ *)
(** ** String scanning: [mjson_pass_string] *)

(** The [for] loop of [mjson_pass_string] from index [i]; every iteration
    advances [i], so [len - i] iterations are enough
    ([pass_string_loop_fuel]). *)
Fixpoint pass_string_loop (fuel : nat) (s : list Z) (len i : Z) : Z :=
  match fuel with
  | O => MJSON_ERROR_INVALID_INPUT
  | S fuel' =>
      if i <? len then
        if (sget s i =? CH_BACKSLASH) && (i + 1 <? len)
           && negb (mjson_esc (sget s (i + 1)) 1 =? 0)
        then pass_string_loop fuel' s len (i + 1 + 1)
        else if sget s i =? 0 then MJSON_ERROR_INVALID_INPUT
        else if sget s i =? CH_DQUOTE then i
        else pass_string_loop fuel' s len (i + 1)
      else MJSON_ERROR_INVALID_INPUT
  end.

Definition mjson_pass_string (s : list Z) (len : Z) : Z :=
  pass_string_loop (Z.to_nat len) s len 0.

(* ------------------------------------------------------------------ *)
(** ** The C library's [strtod], in the C locale

    [strtod] is not code of the header; the model follows the subject
    sequence of ISO C99 7.20.1.3: optional white space, an optional sign,
    then a decimal or hexadecimal floating constant, INF or INFINITY, or
    NAN with an optional parenthesised character sequence.  [strtod_lex]
    gives the number of bytes up to the end pointer and the shape of what
    was read. *)

Definition isspace (c : Z) : bool := (c =? CH_SPACE) || ((9 <=? c) && (c <=? 13)).
Definition isdigit (c : Z) : bool := (48 <=? c) && (c <=? 57).
Definition isxdigit (c : Z) : bool :=
  isdigit c || ((97 <=? c) && (c <=? 102)) || ((65 <=? c) && (c <=? 70)).
Definition isalpha (c : Z) : bool :=
  ((97 <=? c) && (c <=? 122)) || ((65 <=? c) && (c <=? 90)).
Definition tolower (c : Z) : Z := if (65 <=? c) && (c <=? 90) then c + 32 else c.

(** The longest prefix of [m] whose bytes satisfy [p], and the rest. *)
Fixpoint span (p : Z -> bool) (m : list Z) : list Z * list Z :=
  match m with
  | c :: m' => if p c then let (a, b) := span p m' in (c :: a, b) else ([], m)
  | [] => ([], [])
  end.

(** Does [m] start with the lower-case word [w], whatever the case? *)
Fixpoint prefix_ci (w m : list Z) : bool :=
  match w, m with
  | [], _ => true
  | x :: w', c :: m' => (tolower c =? x) && prefix_ci w' m'
  | _ :: _, [] => false
  end.

Definition xdigit_val (c : Z) : Z :=
  if isdigit c then c - 48 else tolower c - 97 + 10.

(** The value of a digit string in the given base. *)
Definition digits_val (base : Z) (ds : list Z) : Z :=
  fold_left (fun acc c => acc * base + xdigit_val c) ds 0.

Inductive numform : Type :=
| NoConv
| Dec (neg : bool) (ip fp : list Z) (ex : Z)
| Hex (neg : bool) (ip fp : list Z) (ex : Z)
| Inf (neg : bool)
| NaN.

(** An optional sign: is it a minus, and how many bytes it takes. *)
Definition lex_sign (m : list Z) : bool * nat * list Z :=
  match m with
  | c :: m' =>
      if c =? CH_MINUS then (true, 1%nat, m')
      else if c =? CH_PLUS then (false, 1%nat, m') else (false, O, m)
  | [] => (false, O, m)
  end.

(** Digits with an optional point, at least one digit in all: the integer
    digits, the fraction digits and the number of bytes. *)
Definition lex_mantissa (isd : Z -> bool) (m : list Z) : option (list Z * list Z * nat * list Z) :=
  let (ip, r1) := span isd m in
  match r1 with
  | c :: r2 =>
      if c =? CH_DOT then
        let (fp, r3) := span isd r2 in
        match ip, fp with
        | [], [] => None
        | _, _ => Some (ip, fp, (length ip + 1 + length fp)%nat, r3)
        end
      else match ip with [] => None | _ => Some (ip, [], length ip, r1) end
  | [] => match ip with [] => None | _ => Some (ip, [], length ip, r1) end
  end.

(** An optional exponent part introduced by [mark] (e or p): its number of
    bytes (0 when there is no well-formed exponent) and its value. *)
Definition lex_exponent (mark : Z) (m : list Z) : nat * Z :=
  match m with
  | c :: m1 =>
      if tolower c =? mark then
        let '(neg, ns, m2) := lex_sign m1 in
        let (ds, _) := span isdigit m2 in
        match ds with
        | [] => (O, 0)
        | _ => ((1 + ns + length ds)%nat,
                if neg then - digits_val 10 ds else digits_val 10 ds)
        end
      else (O, 0)
  | [] => (O, 0)
  end.

(** The optional [(n-char-sequence)] after NAN. *)
Definition lex_nan_seq (m : list Z) : nat :=
  match m with
  | c :: m1 =>
      if c =? 40 then
        let (ns, r) := span (fun x => isdigit x || isalpha x || (x =? 95)) m1 in
        match r with
        | d :: _ => if d =? 41 then (length ns + 2)%nat else O
        | [] => O
        end
      else O
  | [] => O
  end.

Definition lex_decimal (neg : bool) (pre : nat) (m : list Z) : nat * numform :=
  match lex_mantissa isdigit m with
  | Some (ip, fp, n, r) =>
      let (ne, ex) := lex_exponent 101 r in
      ((pre + n + ne)%nat, Dec neg ip fp ex)
  | None => (O, NoConv)
  end.

Definition lex_hex (neg : bool) (pre : nat) (m : list Z) : option (nat * numform) :=
  match m with
  | z :: x :: m' =>
      if (z =? 48) && (tolower x =? 120) then
        match lex_mantissa isxdigit m' with
        | Some (ip, fp, n, r) =>
            let (ne, ex) := lex_exponent 112 r in
            Some ((pre + 2 + n + ne)%nat, Hex neg ip fp ex)
        | None => None
        end
      else None
  | _ => None
  end.

Definition strtod_lex (m : list Z) : nat * numform :=
  let (ws, m1) := span isspace m in
  let '(neg, ns, m2) := lex_sign m1 in
  let pre := (length ws + ns)%nat in
  if prefix_ci (bytes "infinity") m2 then ((pre + 8)%nat, Inf neg)
  else if prefix_ci (bytes "inf") m2 then ((pre + 3)%nat, Inf neg)
  else if prefix_ci (bytes "nan") m2 then ((pre + 3 + lex_nan_seq (drop 3 m2))%nat, NaN)
  else match lex_hex neg pre m2 with
       | Some r => r
       | None => lex_decimal neg pre m2
       end.

(** [end - nptr] after [strtod(nptr, &end)]: 0 when no conversion is
    performed. *)
Definition strtod_end (m : list Z) : Z := Z.of_nat (fst (strtod_lex m)).

Definition INT_MAX : Z := 2147483647.
Definition INT_MIN : Z := -2147483648.

(** [mant * base ^ e], truncated toward zero, with its sign. *)
Definition trunc_scaled (neg : bool) (mant base e : Z) : Z :=
  let v := if 0 <=? e then mant * base ^ e else mant / base ^ (- e) in
  if neg then - v else v.

(** [(int) strtod(nptr, NULL)].  The value is computed exactly and then
    truncated, which is the C result whenever the number read is
    representable as a [double] (every integer selector below 2^53 is);
    the rounding of other inputs to [double] is not modelled.  Converting
    an infinity, a NaN or a value outside [int] is undefined. *)
Definition strtod_int (m : list Z) : res Z :=
  let to_int v := if (INT_MIN <=? v) && (v <=? INT_MAX) then Val v else Undef FloatToInt in
  match snd (strtod_lex m) with
  | NoConv => Val 0
  | Dec neg ip fp ex =>
      to_int (trunc_scaled neg (digits_val 10 (ip ++ fp)) 10 (ex - Z.of_nat (length fp)))
  | Hex neg ip fp ex =>
      to_int (trunc_scaled neg (digits_val 16 (ip ++ fp)) 2 (ex - 4 * Z.of_nat (length fp)))
  | Inf _ | NaN => Undef FloatToInt
  end.

(* ------------------------------------------------------------------ *)
(** ** The tokenizer: [mjson] *)

(** The callback type [mjson_cb_t], called with the event [ev], the
    buffer [s], an offset [off], a length [len] and the user data [ud] of
    type [U], which it updates. *)
Definition mjson_cb_t (U : Type) : Type := Z -> list Z -> Z -> Z -> U -> res U.

Inductive expect : Type := S_VALUE | S_KEY | S_COLON | S_COMMA_OR_EOO.

(** The local variables of [mjson] that live across loop iterations. *)
Record scan (U : Type) : Type := Scan {
  sc_i : Z;
  sc_depth : Z;
  sc_nesting : list Z;
  sc_expecting : expect;
  sc_ud : U
}.
Arguments Scan {U} _ _ _ _ _.
Arguments sc_i {U} _.
Arguments sc_depth {U} _.
Arguments sc_nesting {U} _.
Arguments sc_expecting {U} _.
Arguments sc_ud {U} _.

(** What one pass through the loop body does: reach the end of the body
    (the loop then increments [i]), or leave the function. *)
Inductive step (U : Type) : Type :=
| Continue (st : scan U)
| Stop (r : res (Z * U)).
Arguments Continue {U} st.
Arguments Stop {U} r.

(** [nesting[k]], a read of the depth stack, which has
    [MJSON_MAX_DEPTH] entries. *)
Definition nesting_get (nesting : list Z) (k : Z) : res Z :=
  if (0 <=? k) && (k <? MJSON_MAX_DEPTH) then
    match nesting !! Z.to_nat k with
    | Some b => Val b
    | None => Undef (OobNesting k)
    end
  else Undef (OobNesting k).

Section Tokenizer.
Context {U : Type}.
Variable s : list Z.
Variable len : Z.
Variable cb : option (mjson_cb_t U).

(** [MJSONCALL(ev)], with the values of [start] and [i] at the call. *)
Definition MJSONCALL (ev start i : Z) (ud : U) : res U :=
  match cb with
  | Some f => f ev s start (i - start + 1) ud
  | None => Val ud
  end.

(** Run [r], then [k] on its user data. *)
Definition and_then (r : res U) (k : U -> step U) : step U :=
  match r with
  | Val ud => k ud
  | Undef u => Stop (Undef u)
  | NoFuel => Stop NoFuel
  end.

(** [MJSONEOO()]; [k] is the code after the macro, run with the
    decremented depth. *)
Definition MJSONEOO (c tok start i depth : Z) (nesting : list Z) (ud : U)
    (k : Z -> step U) : step U :=
  match nesting_get nesting (depth - 1) with
  | Val top =>
      if negb (c =? top + 2) then Stop (Val (MJSON_ERROR_INVALID_INPUT, ud))
      else
        let depth := depth - 1 in
        if depth =? 0 then
          and_then (MJSONCALL tok start i ud) (fun ud' => Stop (Val (i + 1, ud')))
        else k depth
  | Undef u => Stop (Undef u)
  | NoFuel => Stop NoFuel
  end.

(** The body of the [for] loop of [mjson]. *)
Definition mjson_body (st : scan U) : step U :=
  let i := sc_i st in
  let depth := sc_depth st in
  let nesting := sc_nesting st in
  let ud := sc_ud st in
  let start := i in
  let c := sget s i in
  let tok := c in
  (* the [MJSONCALL(tok)] that ends the body *)
  let emit tok i depth nesting expecting :=
    and_then (MJSONCALL tok start i ud)
             (fun ud' => Continue (Scan i depth nesting expecting ud')) in
  if (c =? CH_SPACE) || (c =? CH_TAB) || (c =? CH_LF) || (c =? CH_CR) then Continue st
  else
    match sc_expecting st with
    | S_VALUE =>
        (* the code after the [if] chain of this case *)
        let value tok i depth :=
          if depth =? 0 then
            and_then (MJSONCALL tok start i ud) (fun ud' => Stop (Val (i + 1, ud')))
          else emit tok i depth nesting S_COMMA_OR_EOO in
        if c =? CH_LBRACE then
          if depth >=? MJSON_MAX_DEPTH then Stop (Val (MJSON_ERROR_TOO_DEEP, ud))
          else emit tok i (depth + 1) (<[Z.to_nat depth := c]> nesting) S_KEY
        else if c =? CH_LBRACKET then
          if depth >=? MJSON_MAX_DEPTH then Stop (Val (MJSON_ERROR_TOO_DEEP, ud))
          else emit tok i (depth + 1) (<[Z.to_nat depth := c]> nesting) S_VALUE
        else if c =? CH_RBRACKET then
          MJSONEOO c tok start i depth nesting ud (fun depth' => value tok i depth')
        else if (c =? 116) && (i + 3 <? len) && memeq s i (bytes "true") then
          value MJSON_TOK_TRUE (i + 3) depth
        else if (c =? 110) && (i + 3 <? len) && memeq s i (bytes "null") then
          value MJSON_TOK_NULL (i + 3) depth
        else if (c =? 102) && (i + 4 <? len) && memeq s i (bytes "false") then
          value MJSON_TOK_FALSE (i + 4) depth
        else if (c =? CH_MINUS) || ((48 <=? c) && (c <=? 57)) then
          value MJSON_TOK_NUMBER (i + (strtod_end (sfrom s i) - 1)) depth
        else if c =? CH_DQUOTE then
          let n := mjson_pass_string (sfrom s (i + 1)) (len - i - 1) in
          if n <? 0 then Stop (Val (n, ud))
          else value MJSON_TOK_STRING (i + (n + 1)) depth
        else Stop (Val (MJSON_ERROR_INVALID_INPUT, ud))
    | S_KEY =>
        if c =? CH_DQUOTE then
          let n := mjson_pass_string (sfrom s (i + 1)) (len - i - 1) in
          if n <? 0 then Stop (Val (n, ud))
          else emit MJSON_TOK_KEY (i + (n + 1)) depth nesting S_COLON
        else if c =? CH_RBRACE then
          MJSONEOO c tok start i depth nesting ud
                   (fun depth' => emit tok i depth' nesting S_COMMA_OR_EOO)
        else Stop (Val (MJSON_ERROR_INVALID_INPUT, ud))
    | S_COLON =>
        if c =? CH_COLON then emit tok i depth nesting S_VALUE
        else Stop (Val (MJSON_ERROR_INVALID_INPUT, ud))
    | S_COMMA_OR_EOO =>
        if depth <=? 0 then Stop (Val (MJSON_ERROR_INVALID_INPUT, ud))
        else if c =? CH_COMMA then
          match nesting_get nesting (depth - 1) with
          | Val top =>
              emit tok i depth nesting (if top =? CH_LBRACE then S_KEY else S_VALUE)
          | Undef u => Stop (Undef u)
          | NoFuel => Stop NoFuel
          end
        else if (c =? CH_RBRACKET) || (c =? CH_RBRACE) then
          MJSONEOO c tok start i depth nesting ud
                   (fun depth' => emit tok i depth' nesting S_COMMA_OR_EOO)
        else Stop (Val (MJSON_ERROR_INVALID_INPUT, ud))
    end.

(** The [for] loop of [mjson]: test [i < len], run the body, increment
    [i]. *)
Fixpoint mjson_loop (fuel : nat) (st : scan U) : res (Z * U) :=
  match fuel with
  | O => NoFuel
  | S fuel' =>
      if sc_i st <? len then
        match mjson_body st with
        | Continue st' =>
            mjson_loop fuel' (Scan (sc_i st' + 1) (sc_depth st') (sc_nesting st')
                                   (sc_expecting st') (sc_ud st'))
        | Stop r => r
        end
      else Val (MJSON_ERROR_INVALID_INPUT, sc_ud st)
  end.

(** The state on entry: [i = 0], [depth = 0], [expecting = S_VALUE]; the
    depth stack is not initialised by the source and never read before
    it is written. *)
Definition mjson_init (ud : U) : scan U :=
  Scan 0 0 (replicate (Z.to_nat MJSON_MAX_DEPTH) 0) S_VALUE ud.

(** An iteration either advances [i] or, once, leaves it in place (a
    number token of no bytes) and switches to [S_COMMA_OR_EOO], so
    [2 * len + 2] iterations bound every run ([mjson_loop_total]). *)
Definition mjson_fuel : nat := S (Z.to_nat (2 * len + 1)).

Definition mjson_run (ud : U) : res (Z * U) := mjson_loop mjson_fuel (mjson_init ud).
End Tokenizer.

(** [static int mjson(const char *s, int len, mjson_cb_t cb, void *ud)]:
    the returned [int] and the user data as the callbacks left it. *)
Definition mjson {U : Type} (s : list Z) (len : Z) (cb : option (mjson_cb_t U)) (ud : U)
  : res (Z * U) :=
  mjson_run s len cb ud.

(** A callback that records the events it is given. *)
Definition trace_cb : mjson_cb_t (list (Z * Z * Z)) :=
  fun ev _ off len ud => Val (ud ++ [(ev, off, len)]).

(* ------------------------------------------------------------------ *)
(** ** The path resolver: [mjson_find_cb] and [mjson_find] *)

(** A destination pointer of the caller ([tokptr], [toklen]): [None] is
    the NULL pointer; [Some v] points to a cell holding [v], which is
    [None] until something is stored.  A stored [tokptr] is the offset of
    the token in the buffer [s]. *)
Definition dest : Type := option (option Z).

(** [if (d) *d = v]. *)
Definition store (d : dest) (v : Z) : dest :=
  match d with
  | None => None
  | Some _ => Some (Some v)
  end.

(** [struct msjon_find_data]. *)
Record msjon_find_data : Type := FindData {
  path : list Z;   (* Lookup json path, without its terminating NUL *)
  pos : Z;         (* Current path index *)
  d1 : Z;          (* Current depth of traversal *)
  d2 : Z;          (* Expected depth of traversal *)
  i1 : Z;          (* Index in an array *)
  i2 : Z;          (* Expected index in an array *)
  obj : Z;         (* If the value is array/object, offset where it starts *)
  tokptr : dest;   (* Destination *)
  toklen : dest;   (* Destination length *)
  tok : Z          (* Returned token *)
}.

(** [path[k]]: a byte of the path, its terminating NUL right after the
    last one; further on lies memory that is not the path's. *)
Definition path_get (jp : list Z) (k : Z) : res Z :=
  if k <? 0 then Undef (OobPath k)
  else match jp !! Z.to_nat k with
       | Some b => Val b
       | None => if k =? Z.of_nat (length jp) then Val 0 else Undef (OobPath k)
       end.

(** [!memcmp(s + a, &path[b], n)], comparing byte after byte up to the
    first difference. *)
Fixpoint memcmp_path (s : list Z) (a : Z) (jp : list Z) (b : Z) (n : nat) : res bool :=
  match n with
  | O => Val true
  | S n' =>
      c ← path_get jp b;
      if sget s a =? c then memcmp_path s (a + 1) jp (b + 1) n' else Val false
  end.

(** [while (path[pos] != ']') pos++;] gives the index of the bracket; the
    loop leaves the path when there is none. *)
Fixpoint find_close (fuel : nat) (jp : list Z) (k : Z) : res Z :=
  match fuel with
  | O => NoFuel
  | S fuel' =>
      c ← path_get jp k;
      if c =? CH_RBRACKET then Val k else find_close fuel' jp (k + 1)
  end.

Definition set_pos (d : msjon_find_data) (v : Z) : msjon_find_data :=
  FindData (path d) v (d1 d) (d2 d) (i1 d) (i2 d) (obj d) (tokptr d) (toklen d) (tok d).
Definition set_d1 (d : msjon_find_data) (v : Z) : msjon_find_data :=
  FindData (path d) (pos d) v (d2 d) (i1 d) (i2 d) (obj d) (tokptr d) (toklen d) (tok d).
Definition set_d2 (d : msjon_find_data) (v : Z) : msjon_find_data :=
  FindData (path d) (pos d) (d1 d) v (i1 d) (i2 d) (obj d) (tokptr d) (toklen d) (tok d).
Definition set_i1 (d : msjon_find_data) (v : Z) : msjon_find_data :=
  FindData (path d) (pos d) (d1 d) (d2 d) v (i2 d) (obj d) (tokptr d) (toklen d) (tok d).
Definition set_i2 (d : msjon_find_data) (v : Z) : msjon_find_data :=
  FindData (path d) (pos d) (d1 d) (d2 d) (i1 d) v (obj d) (tokptr d) (toklen d) (tok d).
Definition set_obj (d : msjon_find_data) (v : Z) : msjon_find_data :=
  FindData (path d) (pos d) (d1 d) (d2 d) (i1 d) (i2 d) v (tokptr d) (toklen d) (tok d).

(** [data->tok = t; if (data->tokptr) *data->tokptr = s + p;
    if (data->toklen) *data->toklen = n;] *)
Definition set_found (d : msjon_find_data) (t p n : Z) : msjon_find_data :=
  FindData (path d) (pos d) (d1 d) (d2 d) (i1 d) (i2 d) (obj d)
           (store (tokptr d) p) (store (toklen d) n) t.

(** [static void mjson_find_cb(int tok, const char *s, int off, int len,
    void *ud)]. *)
Definition mjson_find_cb : mjson_cb_t msjon_find_data :=
  fun tk s off len data =>
  if negb (tok data =? MJSON_TOK_INVALID) then Val data  (* Found *)
  else if tk =? CH_LBRACE then
    c ← path_get (path data) (pos data);
    let data := if (c =? 0) && (d1 data =? d2 data) then set_obj data off else data in
    Val (set_d1 data (d1 data + 1))
  else if tk =? CH_LBRACKET then
    data ←
      (if d1 data =? d2 data then
         c ← path_get (path data) (pos data);
         if c =? CH_LBRACKET then
           let data := set_i1 data 0 in
           n ← strtod_int (sfrom (path data) (pos data + 1));
           let data := set_i2 data n in
           if i1 data =? i2 data
           then Val (set_pos (set_d2 data (d2 data + 1)) (pos data + 3))
           else Val data
         else Val data
       else Val data);
    c ← path_get (path data) (pos data);
    let data := if (c =? 0) && (d1 data =? d2 data) then set_obj data off else data in
    Val (set_d1 data (d1 data + 1))
  else if tk =? CH_COMMA then
    if d1 data =? d2 data + 1 then
      let data := set_i1 data (i1 data + 1) in
      if i1 data =? i2 data then
        k ← find_close (S (S (length (path data)))) (path data) (pos data);
        Val (set_d2 (set_pos data (k + 1)) (d2 data + 1))
      else Val data
    else Val data
  else
    is_key ←
      (if (tk =? MJSON_TOK_KEY) && (d1 data =? d2 data + 1) then
         c ← path_get (path data) (pos data);
         if c =? CH_DOT then
           if len - 2 <? 0 then Undef (BadSize (len - 2))
           else memcmp_path s (off + 1) (path data) (pos data + 1) (Z.to_nat (len - 2))
         else Val false
       else Val false);
    if is_key : bool then
      Val (set_pos (set_d2 data (d2 data + 1)) (pos data + (len - 1)))
    else if (tk =? CH_RBRACE) || (tk =? CH_RBRACKET) then
      let data := set_d1 data (d1 data - 1) in
      c ← path_get (path data) (pos data);
      if (c =? 0) && (d1 data =? d2 data) && negb (obj data =? -1)
      then Val (set_found data (tk - 2) (obj data) (off - obj data + 1))
      else Val data
    else if MJSON_TOK_IS_VALUE tk then
      if d1 data =? d2 data then
        c ← path_get (path data) (pos data);
        if c =? 0 then Val (set_found data tk off len) else Val data
      else Val data
    else Val data.

(** [enum mjson_tok mjson_find(const char *s, int len, const char *jp,
    const char **tokptr, int *toklen)]: the returned token and the two
    destinations as the call leaves them. *)
Definition mjson_find (s : list Z) (len : Z) (jp : list Z) (tokptr0 toklen0 : dest)
  : res (Z * dest * dest) :=
  let data := FindData jp 1 0 0 0 0 (-1) tokptr0 toklen0 MJSON_TOK_INVALID in
  c ← path_get jp 0;
  if negb (c =? CH_DOLLAR) then Val (MJSON_TOK_INVALID, tokptr0, toklen0)
  else
    '(r, data) ← mjson s len (Some mjson_find_cb) data;
    if r <? 0 then Val (MJSON_TOK_INVALID, tokptr data, toklen data)
    else Val (tok data, tokptr data, toklen data).


(* ------------------------------------------------------------------ *)
(** ** String decoding: [mjson_unescape] and [mjson_find_string] *)

(** [to[j] = v] in a destination buffer whose bytes are the list [to]. *)
Definition buf_set (to : list Z) (j v : Z) : res (list Z) :=
  if (0 <=? j) && (j <? Z.of_nat (length to))
  then Val (<[Z.to_nat j := v]> to)
  else Undef (OobWrite j).

(** The [for] loop of [mjson_unescape] from [(i, j)]: [inl j] when the
    loop ends with that [j], [inr r] when it returns [r] from inside. *)
Fixpoint unescape_loop (fuel : nat) (s : list Z) (len n i j : Z) (to : list Z)
  : res ((Z + Z) * list Z) :=
  match fuel with
  | O => NoFuel
  | S fuel' =>
      if (i <? len) && (j <? n) then
        if (sget s i =? CH_BACKSLASH) && (i + 1 <? len) then
          let c := mjson_esc (sget s (i + 1)) 0 in
          if c =? 0 then Val (inr (-1), to)
          else
            to ← buf_set to j c;
            unescape_loop fuel' s len n (i + 1 + 1) (j + 1) to
        else
          to ← buf_set to j (sget s i);
          unescape_loop fuel' s len n (i + 1) (j + 1) to
      else Val (inl j, to)
  end.

(** [static int mjson_unescape(const char *s, int len, char *to, int n)]:
    the returned [int] and the destination buffer. *)
Definition mjson_unescape (s : list Z) (len : Z) (to : list Z) (n : Z) : res (Z * list Z) :=
  '(e, to) ← unescape_loop (S (Z.to_nat len)) s len n 0 0 to;
  match e with
  | inr r => Val (r, to)
  | inl j =>
      if j >=? n then Val (-1, to)
      else
        to ← (if n >? 0 then buf_set to j 0 else Val to);
        Val (j, to)
  end.

(** [int mjson_find_string(const char *s, int len, const char *path,
    char *to, int n)]. *)
Definition mjson_find_string (s : list Z) (len : Z) (jp : list Z) (to : list Z) (n : Z)
  : res (Z * list Z) :=
  '(t, p, sz) ← mjson_find s len jp (Some None) (Some None);
  if negb (t =? MJSON_TOK_STRING) then Val (0, to)
  else
    match p, sz with
    | Some (Some p), Some (Some sz) => mjson_unescape (sfrom s (p + 1)) (sz - 2) to n
    | _, _ => Undef Uninit
    end.

(* ------------------------------------------------------------------ *)
(** ** The printer *)

(** The sink type [mjson_print_fn_t]: given bytes, a length and the user
    data, the number of bytes accepted and the updated user data. *)
Definition mjson_print_fn_t (U : Type) : Type := list Z -> Z -> U -> res (Z * U).

(** [struct mjson_fixed_buf]; [fb_ptr] is the memory behind [ptr]. *)
Record mjson_fixed_buf : Type := FixedBuf {
  fb_ptr : list Z;
  fb_size : Z;
  fb_len : Z
}.

(** [for (int i = 0; i < len; i++) dst[base + i] = src[i];] with [k]
    iterations left. *)
Fixpoint copy_loop (k : nat) (src dst : list Z) (base i : Z) : res (list Z) :=
  match k with
  | O => Val dst
  | S k' =>
      dst ← buf_set dst (base + i) (sget src i);
      copy_loop k' src dst base (i + 1)
  end.

(** [int mjson_fixed_buf_printer(const char *ptr, int len, void *ud)]. *)
Definition mjson_fixed_buf_printer : mjson_print_fn_t mjson_fixed_buf :=
  fun ptr len fb =>
  let len := if len >? fb_size fb - fb_len fb then fb_size fb - fb_len fb else len in
  mem ← copy_loop (Z.to_nat len) ptr (fb_ptr fb) (fb_len fb) 0;
  Val (len, FixedBuf mem (fb_size fb) (fb_len fb + len)).

(** [int mjson_print_buf(const char *buf, int len, mjson_print_fn_t fn,
    void *ud)]. *)
Definition mjson_print_buf {U : Type} (buf : list Z) (len : Z) (fn : mjson_print_fn_t U) (ud : U)
  : res (Z * U) :=
  fn buf len ud.

(** [int mjson_print_int(int n, mjson_print_fn_t fn, void *ud)], with
    [fuel] bounding the depth of the recursion.  Negating [INT_MIN]
    overflows. *)
Fixpoint print_int_rec {U : Type} (fuel : nat) (n : Z) (fn : mjson_print_fn_t U) (ud : U)
  : res (Z * U) :=
  match fuel with
  | O => NoFuel
  | S fuel' =>
      if n <? 0 then
        '(_, ud) ← fn (bytes "-") 1 ud;
        if n =? INT_MIN then Undef IntOverflow
        else
          '(r, ud) ← print_int_rec fuel' (- n) fn ud;
          Val (r + 1, ud)
      else
        '(len, ud) ← (if n >? 10 then print_int_rec fuel' (Z.quot n 10) fn ud else Val (0, ud));
        '(r, ud) ← fn (sfrom (bytes "0123456789") (Z.rem n 10)) 1 ud;
        Val (len + r, ud)
  end.

(** An [int] has at most ten digits and one sign. *)
Definition mjson_print_int {U : Type} (n : Z) (fn : mjson_print_fn_t U) (ud : U) : res (Z * U) :=
  print_int_rec 12 n fn ud.

(** A sink that accepts everything: the user data is the text so far. *)
Definition collect : mjson_print_fn_t (list Z) :=
  fun ptr len out => Val (len, out ++ take (Z.to_nat len) ptr).

(* ------------------------------------------------------------------ *)
(** ** Specification-level notions used by the statements *)

(** The bytes [s[i]] ... [s[len - 1]], as a list. *)
Definition bytes_between (s : list Z) (i len : Z) : list Z :=
  List.map (fun k => sget s (i + Z.of_nat k)) (seq 0 (Z.to_nat (len - i))).

(** The [len] bytes at [s], as a list. *)
Definition span_bytes (s : list Z) (len : Z) : list Z := bytes_between s 0 len.

(** The text a string body stands for: a backslash and the byte after it
    stand for the character the second table of [mjson_esc] gives, a
    backslash that ends the body stands for itself, every other byte for
    itself; there is no decoded text when a backslash is followed by a
    byte that is not an escape letter. *)
Fixpoint decoded (body : list Z) : option (list Z) :=
  match body with
  | [] => Some []
  | c :: rest =>
      match rest with
      | e :: rest' =>
          if c =? CH_BACKSLASH then
            if mjson_esc e 0 =? 0 then None
            else option_map (cons (mjson_esc e 0)) (decoded rest')
          else option_map (cons c) (decoded rest)
      | [] => Some [c]
      end
  end.

(** White space of the tokenizer. *)
Definition is_ws (c : Z) : Prop := c = CH_SPACE \/ c = CH_TAB \/ c = CH_LF \/ c = CH_CR.

(** The lowest [d] entries of the depth stack are open arrays. *)
Definition all_open (nest : list Z) (d : Z) : Prop :=
  forall j, 0 <= j < d -> nest !! Z.to_nat j = Some CH_LBRACKET.

(** Nested containers, to state the depth limit: an array opens with a
    square bracket, an object with a brace, the key [k] between double
    quotes and a colon; each closes with its own closing character. *)
Inductive container : Type := Arr | Obj.

Definition open_char (k : container) : Z :=
  match k with Arr => CH_LBRACKET | Obj => CH_LBRACE end.

Definition opener (k : container) : list Z :=
  match k with
  | Arr => [CH_LBRACKET]
  | Obj => [CH_LBRACE; CH_DQUOTE; 107; CH_DQUOTE; CH_COLON]
  end.

(** The number of loop iterations an opener takes. *)
Definition open_cost (k : container) : nat :=
  match k with Arr => 1%nat | Obj => 3%nat end.

Fixpoint openers (ks : list container) : list Z :=
  match ks with
  | [] => []
  | k :: ks' => opener k ++ openers ks'
  end.

Fixpoint opens_cost (ks : list container) : nat :=
  match ks with
  | [] => O
  | k :: ks' => (open_cost k + opens_cost ks')%nat
  end.

(** The closing characters, innermost container first. *)
Definition closers (ks : list container) : list Z :=
  List.map (fun k => open_char k + 2) (rev ks).

(** [nested ks v]: the value [v] inside the containers [ks], outermost
    first. *)
Definition nested (ks : list container) (v : list Z) : list Z :=
  openers ks ++ v ++ closers ks.

(** The bytes of [l] are in the buffer at offset [i]. *)
Definition has_at (s : list Z) (i : Z) (l : list Z) : Prop :=
  forall j, (j < length l)%nat -> sget s (i + Z.of_nat j) = nth j l 0.

(** The depth stack holds the opening characters of the containers
    [done], outermost first. *)
Definition stack_is (nest : list Z) (done : list container) : Prop :=
  forall j k, done !! j = Some k -> nest !! j = Some (open_char k).

(** What bounds the iterations left to the loop of [mjson]: twice the
    bytes left, plus one while the state is not [S_COMMA_OR_EOO]. *)
Definition scan_measure {U : Type} (len : Z) (st : scan U) : Z :=
  2 * (len - sc_i st)
  + match sc_expecting st with S_COMMA_OR_EOO => 0 | _ => 1 end.

(** An outcome that is not a shortage of fuel: a returned value or an
    undefined behaviour of the C code. *)
Definition settled {A : Type} (r : res A) : Prop :=
  match r with NoFuel => False | _ => True end.

(** A callback that never fails. *)
Definition cb_total {U : Type} (cb : option (mjson_cb_t U)) : Prop :=
  forall f, cb = Some f -> forall ev s off len ud, exists ud', f ev s off len ud = Val ud'.

(* ------------------------------------------------------------------ *)
(** ** The printer: [mjson_print_str] *)

(** The [for] loop of [mjson_print_str] with [k] iterations left, at
    index [i], [n] bytes accepted so far. *)
Fixpoint print_str_loop {U : Type} (k : nat) (s : list Z) (i n : Z)
    (fn : mjson_print_fn_t U) (ud : U) : res (Z * U) :=
  match k with
  | O => Val (n, ud)
  | S k' =>
      let c := mjson_esc (sget s i) 1 in
      if negb (c =? 0) then
        '(r1, ud) ← fn [CH_BACKSLASH] 1 ud;
        '(r2, ud) ← fn [c] 1 ud;
        print_str_loop k' s (i + 1) (n + r1 + r2) fn ud
      else
        '(r, ud) ← fn (sfrom s i) 1 ud;
        print_str_loop k' s (i + 1) (n + r) fn ud
  end.

(** [int mjson_print_str(const char *s, int len, mjson_print_fn_t fn,
    void *ud)]. *)
Definition mjson_print_str {U : Type} (s : list Z) (len : Z) (fn : mjson_print_fn_t U) (ud : U)
  : res (Z * U) :=
  '(n, ud) ← fn [CH_DQUOTE] 1 ud;
  '(n, ud) ← print_str_loop (Z.to_nat len) s 0 n fn ud;
  '(r, ud) ← fn [CH_DQUOTE] 1 ud;
  Val (n + r, ud).

(* ------------------------------------------------------------------ *)
(** ** Further notions used by the statements *)

(** A byte. *)
Definition is_byte (c : Z) : Prop := 0 <= c < 256.

(** The escaped form of a text: a backslash and its letter for each of
    the 8 special characters, every other byte as it is. *)
Definition escape_byte (c : Z) : list Z :=
  if mjson_esc c 1 =? 0 then [c] else [CH_BACKSLASH; mjson_esc c 1].

Definition escaped (text : list Z) : list Z := flat_map escape_byte text.

(** The string literal of a text: its escaped form between double
    quotes. *)
Definition literal (text : list Z) : list Z := CH_DQUOTE :: escaped text ++ [CH_DQUOTE].

(** The decimal digits of [n >= 0], most significant first; [fuel]
    bounds their number. *)
Fixpoint digits_of (fuel : nat) (n : Z) : list Z :=
  match fuel with
  | O => []
  | S fuel' => (if n <? 10 then [] else digits_of fuel' (n / 10)) ++ [48 + n mod 10]
  end.

(** The decimal representation of an [int]. *)
Definition decimal (n : Z) : list Z :=
  if n <? 0 then CH_MINUS :: digits_of 12 (- n) else digits_of 12 n.

(** Do the digits start with 1 and 0? *)
Definition starts_10 (ds : list Z) : bool :=
  match ds with
  | a :: b :: _ => (a =? 49) && (b =? 48)
  | _ => false
  end.

(** The state of a fixed buffer is consistent: [len] is between 0 and
    [size], and the memory behind [ptr] has [size] bytes. *)
Definition fb_inv (fb : mjson_fixed_buf) : Prop :=
  0 <= fb_len fb <= fb_size fb /\ Z.of_nat (length (fb_ptr fb)) = fb_size fb.

(** The bytes [s[lo]] ... [s[hi - 1]] are white space. *)
Definition all_ws (s : list Z) (lo hi : Z) : Prop :=
  forall j, lo <= j < hi -> is_ws (sget s j).


(** The change of depth an event stands for: an opening bracket or brace
    goes one level down, a closing one comes back. *)
Definition depth_change (ev : Z) : Z :=
  if (ev =? CH_LBRACE) || (ev =? CH_LBRACKET) then 1
  else if (ev =? CH_RBRACE) || (ev =? CH_RBRACKET) then -1
  else 0.

(** What an event [(ev, off, n)] says of the buffer: a structural
    character is its own event, of one byte; a literal is spelled out at
    [off]; a number is what [strtod] reads at [off]; a string or a key
    starts and ends with a double quote. *)
Definition event_shape (s : list Z) (ev off n : Z) : Prop :=
  (In ev [CH_LBRACE; CH_LBRACKET; CH_RBRACE; CH_RBRACKET; CH_COMMA; CH_COLON]
   /\ sget s off = ev /\ n = 1)
  \/ (ev = MJSON_TOK_TRUE /\ memeq s off (bytes "true") = true /\ n = 4)
  \/ (ev = MJSON_TOK_NULL /\ memeq s off (bytes "null") = true /\ n = 4)
  \/ (ev = MJSON_TOK_FALSE /\ memeq s off (bytes "false") = true /\ n = 5)
  \/ (ev = MJSON_TOK_NUMBER /\ (sget s off = CH_MINUS \/ 48 <= sget s off <= 57)
      /\ n = strtod_end (sfrom s off) /\ 0 <= n)
  \/ ((ev = MJSON_TOK_STRING \/ ev = MJSON_TOK_KEY)
      /\ sget s off = CH_DQUOTE /\ sget s (off + n - 1) = CH_DQUOTE /\ 2 <= n).



(** What [mjson_find] stores for a token [t] it found at [p], of [n]
    bytes: a scalar has the shape of its event; an object or an array
    starts with an opening brace or bracket and ends with the closing
    character of its kind. *)
Definition found_shape (s : list Z) (t p n : Z) : Prop :=
  (MJSON_TOK_IS_VALUE t = true /\ event_shape s t p n)
  \/ ((t = MJSON_TOK_OBJECT \/ t = MJSON_TOK_ARRAY)
      /\ (sget s p = CH_LBRACE \/ sget s p = CH_LBRACKET)
      /\ sget s (p + n - 1) = t + 2 /\ 2 <= n).


(** What [mjson_find_cb] keeps, with the scan at byte [i], for the
    destinations [tp] and [tl] of the caller: a recorded start of a
    container is an opening character before [i]; and either nothing is
    found yet and the destinations are as the caller left them, or the
    token is found and what is stored is a span before [i] of the shape
    of the token. *)
Definition find_inv (s : list Z) (tp tl : dest) (i : Z) (d : msjon_find_data) : Prop :=
  (obj d = -1
   \/ (0 <= obj d < i /\ (sget s (obj d) = CH_LBRACE \/ sget s (obj d) = CH_LBRACKET)))
  /\ ((tok d = MJSON_TOK_INVALID /\ tokptr d = tp /\ toklen d = tl)
      \/ (exists p n, tokptr d = store tp p /\ toklen d = store tl n
                      /\ 0 <= p /\ 0 <= n /\ p + n <= i /\ found_shape s (tok d) p n)).

(** What [mjson_find_cb] keeps for the path [$] while the scan runs, at
    byte [i] and depth [dp]: the path cursor stays at the end of the
    path, the depth of traversal is the depth of the scan, nothing is
    found yet; before the top-level value only white space was seen,
    and inside a top-level container its start is recorded. *)
Definition root_inv (s : list Z) (tp tl : dest) (i dp : Z) (d : msjon_find_data) : Prop :=
  path d = bytes "$" /\ pos d = 1 /\ d1 d = dp /\ d2 d = 0 /\ 0 <= i1 d /\ i2 d = 0
  /\ tokptr d = tp /\ toklen d = tl /\ tok d = MJSON_TOK_INVALID
  /\ ((dp = 0 /\ obj d = -1 /\ all_ws s 0 i)
      \/ (1 <= dp /\ 0 <= obj d < i /\ all_ws s 0 (obj d)
          /\ (sget s (obj d) = CH_LBRACE \/ sget s (obj d) = CH_LBRACKET))).

(** What is stored for the path [$] when the scan returns [r]: the
    top-level value, from the first byte that is not white space to the
    last byte consumed. *)
Definition root_found (s : list Z) (tp tl : dest) (r : Z) (d : msjon_find_data) : Prop :=
  exists p, 0 <= p /\ all_ws s 0 p /\ tokptr d = store tp p /\ toklen d = store tl (r - p)
            /\ found_shape s (tok d) p (r - p).

(** The room left in a fixed buffer. *)
Definition fb_room (fb : mjson_fixed_buf) : Z := fb_size fb - fb_len fb.

(** A fixed buffer after the text [text] is put in it: as much of the
    text as there is room for, at offset [len]; the rest is dropped. *)
Definition fb_put (fb : mjson_fixed_buf) (text : list Z) : mjson_fixed_buf :=
  let m := Z.min (Z.of_nat (length text)) (fb_room fb) in
  FixedBuf (take (Z.to_nat (fb_len fb)) (fb_ptr fb) ++ take (Z.to_nat m) text
            ++ drop (Z.to_nat (fb_len fb + m)) (fb_ptr fb))
           (fb_size fb) (fb_len fb + m).

(** The bytes of [text] a fixed buffer has room for. *)
Definition fb_cnt (fb : mjson_fixed_buf) (text : list Z) : Z :=
  Z.min (Z.of_nat (length text)) (fb_room fb).

(** The text [mjson_print_int] emits for [n]: a minus sign when [n < 0],
    then the digits of the absolute value, without the first one when
    they start with 1 and 0. *)
Definition int_body (n : Z) : list Z :=
  let ds := digits_of 12 (Z.abs n) in
  if starts_10 ds then tl ds else ds.
Definition int_text (n : Z) : list Z :=
  if n <? 0 then CH_MINUS :: int_body n else int_body n.

(** An object with one member, as the printer writes it: the key and
    the value are the literals [mjson_print_str] emits. *)
Definition member (key text : list Z) : list Z :=
  CH_LBRACE :: literal key ++ CH_COLON :: literal text ++ [CH_RBRACE].

(** The path of that member: [$], a dot and the key as it stands in the
    buffer. *)
Definition member_path (key : list Z) : list Z := CH_DOLLAR :: CH_DOT :: escaped key.

(* ================================================================== *)
(** * Properties *)

(* ------------------------------------------------------------------ *)
(** ** Escape codec *)

(** C7: for each of the 8 special characters [c] (the entries of [esc1]),
    escaping gives a non-zero code that is one of the 8 escape letters,
    and unescaping that code gives [c] back; for each of the 8 escape
    letters [e] (the entries of [esc2]), unescaping and then escaping
    gives [e] back. *)
Theorem mjson_esc_roundtrip (c e : Z) :
  In c esc1 -> In e esc2 ->
  mjson_esc c 1 <> 0 /\ In (mjson_esc c 1) esc2 /\
  mjson_esc (mjson_esc c 1) 0 = c /\
  mjson_esc (mjson_esc e 0) 1 = e.
Proof.
  unfold esc1, esc2. simpl In. intros Hc He.
  repeat match goal with H : _ \/ _ |- _ => destruct H as [H | H] end;
    try contradiction; subst c e; vm_compute; intuition congruence.
Qed.

Lemma mjson_esc_roundtrip_witness :
  In 10 esc1 /\ In 110 esc2 /\
  (mjson_esc 10 1 <> 0 /\ In (mjson_esc 10 1) esc2 /\
   mjson_esc (mjson_esc 10 1) 0 = 10 /\ mjson_esc (mjson_esc 110 0) 1 = 110).
Proof.
  assert (H1 : In 10 esc1) by (vm_compute; tauto).
  assert (H2 : In 110 esc2) by (vm_compute; tauto).
  exact (conj H1 (conj H2 (mjson_esc_roundtrip 10 110 H1 H2))).
Defined.

(** Bytes outside the tables are reported as not found. *)
Lemma mjson_esc_not_found (c esc : Z) :
  ~ In (c mod 256) (if esc =? 0 then esc2 else esc1) -> mjson_esc c esc = 0.
Proof.
  unfold mjson_esc. intros Hn.
  assert (Hs : forall str k, strchr str (c mod 256) = Some k ->
                 In (c mod 256) str \/ (c mod 256 = 0 /\ k = length str)).
  { induction str as [|x str IH]; simpl; intros k Hk.
    - destruct (Z.eqb_spec (c mod 256) 0); [|discriminate].
      injection Hk as <-. right; split; [assumption|reflexivity].
    - destruct (Z.eqb_spec x (c mod 256)); [left; left; assumption|].
      destruct (strchr str (c mod 256)) as [k'|] eqn:E; [|discriminate].
      injection Hk as <-. destruct (IH k' eq_refl) as [Hin | [H0 Hk']].
      + left; right; assumption.
      + right; split; [assumption | simpl; congruence]. }
  destruct (strchr _ (c mod 256)) as [k|] eqn:E; [|reflexivity].
  destruct (Hs _ _ E) as [Hin | [_ ->]]; [contradiction|].
  destruct (esc =? 0); reflexivity.
Qed.

(* ------------------------------------------------------------------ *)
(** ** Path resolver: a worked lookup *)

(** C5: on the 22-byte buffer [{'a':1,'b':[10,20,30]}] (apostrophes for
    double quotes) and the path [$.b[1]], [mjson_find] returns
    [MJSON_TOK_NUMBER] and stores the span at offset 15 of length 2, whose
    bytes are [20]. *)
Theorem mjson_find_b1 :
  let buf := json "{'a':1,'b':[10,20,30]}" in
  length buf = 22%nat /\
  mjson_find buf 22 (bytes "$.b[1]") (Some None) (Some None)
    = Val (MJSON_TOK_NUMBER, Some (Some 15), Some (Some 2)) /\
  span_bytes (sfrom buf 15) 2 = bytes "20".
Proof. vm_compute. repeat split. Qed.

(* ------------------------------------------------------------------ *)
(** ** Tokenizer: single steps of the loop *)

Lemma sget_app_r (pre rest : list Z) (k : Z) :
  0 <= k -> sget (pre ++ rest) (Z.of_nat (length pre) + k) = sget rest k.
Proof.
  intros Hk. unfold sget.
  destruct (Z.ltb_spec (Z.of_nat (length pre) + k) 0); [lia|].
  destruct (Z.ltb_spec k 0); [lia|].
  replace (Z.to_nat (Z.of_nat (length pre) + k)) with (length pre + Z.to_nat k)%nat by lia.
  apply app_nth2_plus.
Qed.

Lemma sget_app_l (pre rest : list Z) (k : Z) :
  0 <= k < Z.of_nat (length pre) -> sget (pre ++ rest) k = sget pre k.
Proof.
  intros Hk. unfold sget. destruct (Z.ltb_spec k 0); [lia|].
  apply app_nth1. lia.
Qed.

Lemma sget_replicate (n : nat) (c k : Z) :
  0 <= k < Z.of_nat n -> sget (replicate n c) k = c.
Proof.
  intros Hk. unfold sget. destruct (Z.ltb_spec k 0); [lia|].
  apply nth_lookup_Some with (d := 0). apply lookup_replicate_2. lia.
Qed.

Section TokenizerSteps.
Context {U : Type}.
Variable s : list Z.
Variable len : Z.
Variable cb : option (mjson_cb_t U).

Lemma MJSONCALL_total :
  cb_total cb -> forall ev start i ud, exists ud', MJSONCALL s cb ev start i ud = Val ud'.
Proof.
  intros Ht ev start i ud. unfold MJSONCALL. destruct cb as [f|] eqn:E.
  - apply (Ht f eq_refl).
  - exists ud. reflexivity.
Qed.

(** White space is skipped without an event. *)
Lemma ws_step fuel i d nest e ud :
  is_ws (sget s i) -> i < len ->
  mjson_loop s len cb (S fuel) (Scan i d nest e ud)
  = mjson_loop s len cb fuel (Scan (i + 1) d nest e ud).
Proof.
  intros Hws Hi. cbn [mjson_loop sc_i].
  destruct (Z.ltb_spec i len); [|lia].
  unfold mjson_body. cbn [sc_i sc_depth sc_nesting sc_expecting sc_ud].
  assert (Hb : (sget s i =? 32) || (sget s i =? 9) || (sget s i =? 10) || (sget s i =? 13) = true).
  { destruct Hws as [-> | [-> | [-> | ->]]]; reflexivity. }
  rewrite Hb. reflexivity.
Qed.

(** An opening bracket below the depth limit is pushed. *)
Lemma open_step fuel i d nest ud ud' :
  sget s i = CH_LBRACKET -> i < len -> 0 <= d < MJSON_MAX_DEPTH ->
  MJSONCALL s cb CH_LBRACKET i i ud = Val ud' ->
  mjson_loop s len cb (S fuel) (Scan i d nest S_VALUE ud)
  = mjson_loop s len cb fuel
      (Scan (i + 1) (d + 1) (<[Z.to_nat d := CH_LBRACKET]> nest) S_VALUE ud').
Proof.
  unfold MJSON_MAX_DEPTH. intros Hc Hi Hd Hcall. cbn [mjson_loop sc_i].
  destruct (Z.ltb_spec i len); [|lia].
  unfold mjson_body. cbn [sc_i sc_depth sc_nesting sc_expecting sc_ud].
  rewrite Hc. cbn [Z.eqb Pos.eqb orb].
  assert (Hge : (d >=? MJSON_MAX_DEPTH) = false) by (unfold MJSON_MAX_DEPTH; lia).
  rewrite Hge, Hcall. reflexivity.
Qed.

(** An opening bracket at the depth limit is refused. *)
Lemma open_too_deep fuel i d nest ud :
  sget s i = CH_LBRACKET -> i < len -> MJSON_MAX_DEPTH <= d ->
  mjson_loop s len cb (S fuel) (Scan i d nest S_VALUE ud)
  = Val (MJSON_ERROR_TOO_DEEP, ud).
Proof.
  intros Hc Hi Hd. cbn [mjson_loop sc_i].
  destruct (Z.ltb_spec i len); [|lia].
  unfold mjson_body. cbn [sc_i sc_depth sc_nesting sc_expecting sc_ud].
  rewrite Hc. cbn [Z.eqb Pos.eqb orb].
  assert (Hge : (d >=? MJSON_MAX_DEPTH) = true) by lia.
  rewrite Hge. reflexivity.
Qed.

(** A closing bracket at depth 0 in [S_VALUE] reads below the depth
    stack. *)
Lemma close_at_depth0 fuel i nest ud :
  sget s i = CH_RBRACKET -> i < len ->
  mjson_loop s len cb (S fuel) (Scan i 0 nest S_VALUE ud)
  = Undef (OobNesting (-1)).
Proof.
  intros Hc Hi. cbn [mjson_loop sc_i].
  destruct (Z.ltb_spec i len); [|lia].
  unfold mjson_body. cbn [sc_i sc_depth sc_nesting sc_expecting sc_ud].
  rewrite Hc. reflexivity.
Qed.

(** In [S_COMMA_OR_EOO] the same closing bracket at depth 0 is refused
    before the depth stack is read. *)
Lemma close_guarded fuel i d nest ud :
  sget s i = CH_RBRACKET -> i < len -> d <= 0 ->
  mjson_loop s len cb (S fuel) (Scan i d nest S_COMMA_OR_EOO ud)
  = Val (MJSON_ERROR_INVALID_INPUT, ud).
Proof.
  intros Hc Hi Hd. cbn [mjson_loop sc_i].
  destruct (Z.ltb_spec i len); [|lia].
  unfold mjson_body. cbn [sc_i sc_depth sc_nesting sc_expecting sc_ud].
  rewrite Hc. cbn [Z.eqb Pos.eqb orb].
  destruct (Z.leb_spec d 0); [reflexivity | lia].
Qed.

(** A closing bracket that matches an open array, with more arrays
    open. *)
Lemma close_step fuel i d nest e ud ud' :
  e = S_VALUE \/ e = S_COMMA_OR_EOO ->
  sget s i = CH_RBRACKET -> i < len -> 2 <= d <= MJSON_MAX_DEPTH ->
  nest !! Z.to_nat (d - 1) = Some CH_LBRACKET ->
  MJSONCALL s cb CH_RBRACKET i i ud = Val ud' ->
  mjson_loop s len cb (S fuel) (Scan i d nest e ud)
  = mjson_loop s len cb fuel (Scan (i + 1) (d - 1) nest S_COMMA_OR_EOO ud').
Proof.
  unfold MJSON_MAX_DEPTH. intros He Hc Hi Hd Hn Hcall. cbn [mjson_loop sc_i].
  destruct (Z.ltb_spec i len); [|lia].
  unfold mjson_body, MJSONEOO, nesting_get, MJSON_MAX_DEPTH.
  cbn [sc_i sc_depth sc_nesting sc_expecting sc_ud].
  rewrite Hc, Hn. cbn [Z.eqb Pos.eqb orb].
  assert (H1 : (0 <=? d - 1) && (d - 1 <? 20) = true) by lia.
  assert (H2 : (d - 1 =? 0) = false) by lia.
  assert (H3 : (d <=? 0) = false) by lia.
  destruct He as [-> | ->]; rewrite ?H3, H1; cbn; rewrite H2, Hcall; reflexivity.
Qed.

(** The closing bracket of the outermost array ends the scan. *)
Lemma close_last fuel i nest e ud ud' :
  e = S_VALUE \/ e = S_COMMA_OR_EOO ->
  sget s i = CH_RBRACKET -> i < len ->
  nest !! O = Some CH_LBRACKET ->
  MJSONCALL s cb CH_RBRACKET i i ud = Val ud' ->
  mjson_loop s len cb (S fuel) (Scan i 1 nest e ud) = Val (i + 1, ud').
Proof.
  intros He Hc Hi Hn Hcall. cbn [mjson_loop sc_i].
  destruct (Z.ltb_spec i len); [|lia].
  unfold mjson_body, MJSONEOO, nesting_get, MJSON_MAX_DEPTH.
  cbn [sc_i sc_depth sc_nesting sc_expecting sc_ud].
  change (1 - 1) with 0. change (Z.to_nat 0) with O.
  rewrite Hc, Hn.
  destruct He as [-> | ->]; cbn; rewrite Hcall; reflexivity.
Qed.
End TokenizerSteps.

(* ------------------------------------------------------------------ *)
(** ** Tokenizer: runs of brackets *)

Section TokenizerRuns.
Context {U : Type}.
Variable s : list Z.
Variable len : Z.
Variable cb : option (mjson_cb_t U).
Hypothesis cb_ok : cb_total cb.

(** [k] opening brackets from depth [d], within the limit, are all
    pushed. *)
Lemma opens_run (k : nat) : forall fuel i d nest ud,
  (forall j, 0 <= j < Z.of_nat k -> sget s (i + j) = CH_LBRACKET) ->
  i + Z.of_nat k <= len -> 0 <= d -> d + Z.of_nat k <= MJSON_MAX_DEPTH ->
  Z.of_nat (length nest) = MJSON_MAX_DEPTH -> all_open nest d ->
  exists ud' nest',
    mjson_loop s len cb (k + fuel) (Scan i d nest S_VALUE ud)
    = mjson_loop s len cb fuel (Scan (i + Z.of_nat k) (d + Z.of_nat k) nest' S_VALUE ud')
    /\ Z.of_nat (length nest') = MJSON_MAX_DEPTH /\ all_open nest' (d + Z.of_nat k).
Proof.
  induction k as [|k IH]; intros fuel i d nest ud Hs Hlen Hd Hmax Hn Hop.
  - exists ud, nest. rewrite !Z.add_0_r. auto.
  - destruct (MJSONCALL_total s cb cb_ok CH_LBRACKET i i ud) as [ud1 Hcall].
    assert (Hc : sget s i = CH_LBRACKET) by (rewrite <- (Z.add_0_r i); apply Hs; lia).
    destruct (IH fuel (i + 1) (d + 1) (<[Z.to_nat d := CH_LBRACKET]> nest) ud1)
      as (ud' & nest' & Hrun & Hn' & Hop').
    + intros j Hj. rewrite <- Z.add_assoc. apply Hs. lia.
    + lia.
    + lia.
    + lia.
    + rewrite length_insert. exact Hn.
    + intros j Hj. destruct (Z.eq_dec j d) as [-> | Hne].
      * apply list_lookup_insert_eq. unfold MJSON_MAX_DEPTH in *. lia.
      * rewrite list_lookup_insert_ne by lia. apply Hop. lia.
    + exists ud', nest'. split; [|split].
      * change (S k + fuel)%nat with (S (k + fuel)).
        rewrite (open_step s len cb (k + fuel) i d nest ud ud1 Hc); try lia; try assumption.
        rewrite Hrun. f_equal. f_equal; lia.
      * exact Hn'.
      * intros j Hj. apply Hop'. lia.
Qed.

(** [S k] closing brackets from depth [S k], all arrays, end the scan
    after the last one. *)
Lemma closes_run (k : nat) : forall fuel i e nest ud,
  e = S_VALUE \/ e = S_COMMA_OR_EOO ->
  (forall j, 0 <= j < Z.of_nat (S k) -> sget s (i + j) = CH_RBRACKET) ->
  i + Z.of_nat (S k) <= len -> Z.of_nat (S k) <= MJSON_MAX_DEPTH ->
  all_open nest (Z.of_nat (S k)) ->
  exists ud',
    mjson_loop s len cb (S k + fuel) (Scan i (Z.of_nat (S k)) nest e ud)
    = Val (i + Z.of_nat (S k), ud').
Proof.
  induction k as [|k IH]; intros fuel i e nest ud He Hs Hlen Hmax Hop.
  - destruct (MJSONCALL_total s cb cb_ok CH_RBRACKET i i ud) as [ud1 Hcall].
    exists ud1. apply close_last; try assumption.
    + rewrite <- (Z.add_0_r i). apply Hs. lia.
    + lia.
    + apply (Hop 0). lia.
  - destruct (MJSONCALL_total s cb cb_ok CH_RBRACKET i i ud) as [ud1 Hcall].
    destruct (IH fuel (i + 1) S_COMMA_OR_EOO nest ud1) as [ud' Hrun].
    + right; reflexivity.
    + intros j Hj. rewrite <- Z.add_assoc. apply Hs. lia.
    + lia.
    + lia.
    + intros j Hj. apply Hop. lia.
    + exists ud'.
      change (S (S k) + fuel)%nat with (S (S k + fuel)).
      rewrite (close_step s len cb (S k + fuel) i (Z.of_nat (S (S k))) nest e ud ud1 He);
        try assumption.
      * replace (Z.of_nat (S (S k)) - 1) with (Z.of_nat (S k)) by lia.
        rewrite Hrun. f_equal. f_equal. lia.
      * rewrite <- (Z.add_0_r i). apply Hs. lia.
      * lia.
      * lia.
      * apply Hop. lia.
Qed.

(** Leading white space is skipped. *)
Lemma ws_run (k : nat) : forall fuel i d nest e ud,
  (forall j, 0 <= j < Z.of_nat k -> is_ws (sget s (i + j))) ->
  i + Z.of_nat k <= len ->
  mjson_loop s len cb (k + fuel) (Scan i d nest e ud)
  = mjson_loop s len cb fuel (Scan (i + Z.of_nat k) d nest e ud).
Proof using Type.
  induction k as [|k IH]; intros fuel i d nest e ud Hs Hlen.
  - rewrite Z.add_0_r. reflexivity.
  - change (S k + fuel)%nat with (S (k + fuel)).
    rewrite ws_step.
    + rewrite IH.
      * f_equal. f_equal. lia.
      * intros j Hj. rewrite <- Z.add_assoc. apply Hs. lia.
      * lia.
    + rewrite <- (Z.add_0_r i). apply Hs. lia.
    + lia.
Qed.
End TokenizerRuns.

(* ------------------------------------------------------------------ *)
(** ** Tokenizer: the depth limit *)

(** Arrays only, the innermost one empty: an input that opens [n >= 21]
    nested arrays makes [mjson] return [MJSON_ERROR_TOO_DEEP], whatever follows
    the brackets; [n] nested arrays with [1 <= n <= 20] (in particular
    exactly 20) are scanned with success and [mjson] returns the [2 * n]
    bytes consumed, whatever follows the value.  The callback may be any
    that does not fail. *)
Theorem mjson_depth_limit_arrays {U : Type} (cb : option (mjson_cb_t U)) (ud : U)
    (n : nat) (rest : list Z) (len : Z) :
  cb_total cb ->
  ((21 <= n)%nat -> 21 <= len ->
   exists ud', mjson (replicate n CH_LBRACKET ++ rest) len cb ud
               = Val (MJSON_ERROR_TOO_DEEP, ud'))
  /\
  ((1 <= n <= 20)%nat -> 2 * Z.of_nat n <= len ->
   exists ud', mjson (replicate n CH_LBRACKET ++ replicate n CH_RBRACKET ++ rest) len cb ud
               = Val (2 * Z.of_nat n, ud')).
Proof.
  intros Hcb. unfold mjson, mjson_run, mjson_init, mjson_fuel.
  assert (Hn0 : Z.of_nat (length (replicate (Z.to_nat MJSON_MAX_DEPTH) 0)) = MJSON_MAX_DEPTH)
    by (rewrite length_replicate; reflexivity).
  assert (Hop0 : all_open (replicate (Z.to_nat MJSON_MAX_DEPTH) 0) 0)
    by (intros j Hj; lia).
  split.
  - intros Hn Hlen.
    set (s := replicate n CH_LBRACKET ++ rest).
    assert (Hs : forall j, 0 <= j < Z.of_nat n -> sget s j = CH_LBRACKET).
    { intros j Hj. unfold s. rewrite sget_app_l by (rewrite length_replicate; lia).
      apply sget_replicate. lia. }
    replace (S (Z.to_nat (2 * len + 1)))
      with (20 + S (Z.to_nat (2 * len + 1) - 20))%nat by lia.
    destruct (opens_run s len cb Hcb 20 (S (Z.to_nat (2 * len + 1) - 20)) 0 0
                (replicate (Z.to_nat MJSON_MAX_DEPTH) 0) ud)
      as (ud' & nest' & Hrun & _ & _); try assumption; try (unfold MJSON_MAX_DEPTH; lia).
    { intros j Hj. apply Hs. lia. }
    exists ud'. rewrite Hrun. apply open_too_deep.
    + apply Hs. lia.
    + lia.
    + unfold MJSON_MAX_DEPTH. lia.
  - intros Hn Hlen.
    set (s := replicate n CH_LBRACKET ++ replicate n CH_RBRACKET ++ rest).
    assert (Hs1 : forall j, 0 <= j < Z.of_nat n -> sget s j = CH_LBRACKET).
    { intros j Hj. unfold s. rewrite sget_app_l by (rewrite length_replicate; lia).
      apply sget_replicate. lia. }
    assert (Hs2 : forall j, 0 <= j < Z.of_nat n -> sget s (Z.of_nat n + j) = CH_RBRACKET).
    { intros j Hj. unfold s.
      replace (Z.of_nat n + j) with (Z.of_nat (length (replicate n CH_LBRACKET)) + j)
        by (rewrite length_replicate; reflexivity).
      rewrite sget_app_r by lia.
      rewrite sget_app_l by (rewrite length_replicate; lia).
      apply sget_replicate. lia. }
    destruct n as [|k]; [lia|].
    replace (S (Z.to_nat (2 * len + 1)))
      with (S k + (S k + (Z.to_nat (2 * len + 1) - 2 * k - 1)))%nat by lia.
    destruct (opens_run s len cb Hcb (S k) (S k + (Z.to_nat (2 * len + 1) - 2 * k - 1)) 0 0
                (replicate (Z.to_nat MJSON_MAX_DEPTH) 0) ud)
      as (ud1 & nest' & Hrun & Hn' & Hop'); try assumption; try (unfold MJSON_MAX_DEPTH; lia).
    rewrite !Z.add_0_l in Hrun, Hop'. rewrite Hrun.
    destruct (closes_run s len cb Hcb k (Z.to_nat (2 * len + 1) - 2 * k - 1)
                (Z.of_nat (S k)) S_VALUE nest' ud1 (or_introl eq_refl) Hs2)
      as [ud' Hclose]; try assumption; try (unfold MJSON_MAX_DEPTH; lia).
    exists ud'. rewrite Hclose. f_equal. f_equal. lia.
Qed.

Lemma mjson_depth_limit_arrays_witness :
  (exists ud', mjson (replicate 21 CH_LBRACKET ++ []) 21 None tt
               = Val (MJSON_ERROR_TOO_DEEP, ud'))
  /\
  (exists ud', mjson (replicate 20 CH_LBRACKET ++ replicate 20 CH_RBRACKET ++ []) 40 None tt
               = Val (2 * Z.of_nat 20, ud')).
Proof.
  assert (Hcb : cb_total (@None (mjson_cb_t unit))) by (intros f Hf; discriminate Hf).
  split.
  - apply (proj1 (mjson_depth_limit_arrays None tt 21 [] 21 Hcb)); lia.
  - apply (proj2 (mjson_depth_limit_arrays None tt 20 [] 40 Hcb)); lia.
Defined.

(** The two inputs of the witness, computed with a callback that records
    the events: 21 levels stop at the 21st bracket, 20 levels are consumed
    whole. *)
Example mjson_depth_21_20 :
  fst <$> mjson (replicate 21 CH_LBRACKET ++ replicate 21 CH_RBRACKET) 42 (Some trace_cb) []
    = Val MJSON_ERROR_TOO_DEEP
  /\ fst <$> mjson (replicate 20 CH_LBRACKET ++ replicate 20 CH_RBRACKET) 40 (Some trace_cb) []
    = Val 40.
Proof. vm_compute. split; reflexivity. Qed.

(* ------------------------------------------------------------------ *)
(** ** Tokenizer: a closing bracket with nothing open *)

(** C9: on every input whose first byte after optional white space is a
    closing square bracket, [mjson] evaluates [nesting[depth - 1]] with
    [depth = 0], a read at index -1 of the depth stack; the outcome is the
    undefined behaviour [OobNesting (-1)], not a returned
    [MJSON_ERROR_INVALID_INPUT]. *)
Theorem mjson_close_bracket_first {U : Type} (cb : option (mjson_cb_t U)) (ud : U)
    (ws rest : list Z) (len : Z) :
  Forall is_ws ws -> Z.of_nat (length ws) < len ->
  mjson (ws ++ CH_RBRACKET :: rest) len cb ud = Undef (OobNesting (-1)).
Proof.
  intros Hws Hlen. unfold mjson, mjson_run, mjson_init, mjson_fuel.
  set (s := ws ++ CH_RBRACKET :: rest).
  replace (S (Z.to_nat (2 * len + 1)))
    with (length ws + S (Z.to_nat (2 * len + 1) - length ws))%nat by lia.
  rewrite ws_run.
  - apply close_at_depth0; [|lia].
    unfold s. rewrite <- (Z.add_0_r (0 + _)), Z.add_0_l.
    rewrite sget_app_r by lia. reflexivity.
  - intros j Hj. rewrite Z.add_0_l. unfold s.
    rewrite sget_app_l by lia. unfold sget.
    destruct (Z.ltb_spec j 0); [lia|].
    rewrite Forall_forall in Hws. apply Hws, list_elem_of_In, nth_In. lia.
  - lia.
Qed.

Lemma mjson_close_bracket_first_witness :
  mjson ([] ++ CH_RBRACKET :: []) 1 None tt = Undef (OobNesting (-1)).
Proof.
  apply (mjson_close_bracket_first None tt [] [] 1); [constructor | simpl; lia].
Defined.

(* ------------------------------------------------------------------ *)
(** ** Tokenizer: what the callbacks preserve, the scan preserves *)

Section TokenizerInvariant.
Context {U : Type}.
Variable s : list Z.
Variable len : Z.
Variable cb : option (mjson_cb_t U).
Variable P : U -> Prop.
Hypothesis cb_keeps : forall f, cb = Some f ->
  forall ev b off n ud ud', P ud -> f ev b off n ud = Val ud' -> P ud'.

Lemma MJSONCALL_keeps ev start i ud ud' :
  P ud -> MJSONCALL s cb ev start i ud = Val ud' -> P ud'.
Proof.
  unfold MJSONCALL. intros HP Hc. destruct cb as [f|] eqn:E.
  - exact (cb_keeps f eq_refl _ _ _ _ _ _ HP Hc).
  - injection Hc as <-. exact HP.
Qed.

Lemma mjson_body_keeps st :
  P (sc_ud st) ->
  match mjson_body s len cb st with
  | Continue st' => P (sc_ud st')
  | Stop (Val (_, ud')) => P ud'
  | Stop _ => True
  end.
Proof.
  intros HP. unfold mjson_body, MJSONEOO, and_then.
  repeat case_match; subst; simplify_eq; cbn [sc_ud]; try exact I; try exact HP;
    try (eapply MJSONCALL_keeps; [exact HP | eassumption]).
Qed.

Lemma mjson_loop_keeps fuel : forall st r ud',
  P (sc_ud st) -> mjson_loop s len cb fuel st = Val (r, ud') -> P ud'.
Proof.
  induction fuel as [|fuel IH]; intros st r ud' HP Hrun; [discriminate|].
  cbn [mjson_loop] in Hrun.
  destruct (sc_i st <? len).
  - pose proof (mjson_body_keeps st HP) as Hb.
    destruct (mjson_body s len cb st) as [st' | [[r1 ud1] | u |]].
    + eapply IH; [|exact Hrun]. exact Hb.
    + injection Hrun as <- <-. exact Hb.
    + discriminate.
    + discriminate.
  - injection Hrun as <- <-. exact HP.
Qed.

Lemma mjson_keeps ud r ud' :
  P ud -> mjson s len cb ud = Val (r, ud') -> P ud'.
Proof. intros HP. apply mjson_loop_keeps. exact HP. Qed.
End TokenizerInvariant.

(* ------------------------------------------------------------------ *)
(** ** Path resolver: what [mjson_find] returns *)

(** The token kinds [mjson_find_cb] can record. *)
Lemma mjson_find_cb_tok ev b off n d d' :
  0 <= tok d -> mjson_find_cb ev b off n d = Val d' -> 0 <= tok d'.
Proof.
  intros Ht. unfold mjson_find_cb, MJSON_TOK_IS_VALUE, mbind, res_bind.
  repeat case_match; intros; simplify_eq; cbn; try assumption; try lia.
Qed.

Lemma path_get_0 (jp : list Z) : path_get jp 0 = Val (sget jp 0).
Proof. destruct jp; reflexivity. Qed.

(** C6: if the path does not start with [$], [mjson_find] returns
    [MJSON_TOK_INVALID] and leaves the destinations as they were, whatever
    the buffer and its length are (the result does not go through
    [mjson], whose outcome, even an undefined one, cannot show); if the
    scan returns a negative error code, [mjson_find] returns
    [MJSON_TOK_INVALID]; and no value [mjson_find] returns is negative. *)
Theorem mjson_find_invalid (s : list Z) (len : Z) (jp : list Z) (tp tl : dest) :
  (sget jp 0 <> CH_DOLLAR ->
   mjson_find s len jp tp tl = Val (MJSON_TOK_INVALID, tp, tl))
  /\
  (forall r d,
     mjson s len (Some mjson_find_cb) (FindData jp 1 0 0 0 0 (-1) tp tl MJSON_TOK_INVALID)
       = Val (r, d) ->
     r < 0 ->
     exists tp' tl', mjson_find s len jp tp tl = Val (MJSON_TOK_INVALID, tp', tl'))
  /\
  (forall t tp' tl', mjson_find s len jp tp tl = Val (t, tp', tl') -> 0 <= t).
Proof.
  unfold mjson_find. rewrite path_get_0. cbn [mbind res_bind].
  split; [|split].
  - intros Hc. destruct (Z.eqb_spec (sget jp 0) CH_DOLLAR); [contradiction|]. reflexivity.
  - intros r d Hrun Hr. destruct (sget jp 0 =? CH_DOLLAR); cbn [negb]; [|eauto].
    rewrite Hrun. cbn [mbind res_bind].
    destruct (Z.ltb_spec r 0); [eauto | lia].
  - intros t tp' tl'. destruct (sget jp 0 =? CH_DOLLAR); cbn [negb].
    + destruct (mjson s len (Some mjson_find_cb) _) as [[r d] | u |] eqn:Hrun;
        [|discriminate|discriminate].
      cbn [mbind res_bind].
      destruct (r <? 0); intros H; injection H as <- <- <-.
      * unfold MJSON_TOK_INVALID. lia.
      * eapply (mjson_keeps s len (Some mjson_find_cb) (fun d => 0 <= tok d));
          [| |exact Hrun].
        -- intros f Hf ev b off n ud ud'. injection Hf as <-. apply mjson_find_cb_tok.
        -- cbn. unfold MJSON_TOK_INVALID. lia.
    + intros H; injection H as <- <- <-. unfold MJSON_TOK_INVALID. lia.
Qed.

Lemma mjson_find_invalid_witness :
  mjson_find [CH_RBRACKET] 1 (bytes "x") (Some None) (Some None)
    = Val (MJSON_TOK_INVALID, Some None, Some None)
  /\ (exists tp' tl', mjson_find (bytes "[1,") 3 (bytes "$[0]") (Some None) (Some None)
                      = Val (MJSON_TOK_INVALID, tp', tl'))
  /\ 0 <= MJSON_TOK_NUMBER.
Proof.
  split; [|split].
  - apply (proj1 (mjson_find_invalid [CH_RBRACKET] 1 (bytes "x") (Some None) (Some None))).
    vm_compute. discriminate.
  - apply (proj1 (proj2 (mjson_find_invalid (bytes "[1,") 3 (bytes "$[0]") (Some None) (Some None)))
             (-1)
             (FindData (bytes "$[0]") 4 1 1 0 0 (-1) (Some (Some 1)) (Some (Some 1))
                       MJSON_TOK_NUMBER)).
    + vm_compute. reflexivity.
    + lia.
  - apply (proj2 (proj2 (mjson_find_invalid (bytes "[1]") 3 (bytes "$[0]") (Some None) (Some None)))
             MJSON_TOK_NUMBER (Some (Some 1)) (Some (Some 1))).
    vm_compute. reflexivity.
Defined.

(* ------------------------------------------------------------------ *)
(** ** Code-level evaluations of the tokenizer, the resolver and the
       printer *)

(** C1: the buffer holds the five digits 12345 and [len] is 2; the
    number is read to its end by [strtod], which knows nothing of [len],
    and [mjson] returns 5 consumed bytes, more than the 2 supplied. *)
Theorem mjson_number_past_len :
  mjson (bytes "12345") 2 (Some trace_cb) [] = Val (5, [(MJSON_TOK_NUMBER, 0, 5)]).
Proof. vm_compute. reflexivity. Qed.

(** C2: the four bytes double quote, backslash, x, double quote: the
    backslash is followed by a byte that is no escape letter, and [mjson]
    accepts the string token and returns 4; [mjson_unescape] rejects the
    body of that same token. *)
Theorem mjson_accepts_bad_escape :
  mjson_pass_string [CH_BACKSLASH; 120; CH_DQUOTE] 3 = 2
  /\ mjson [CH_DQUOTE; CH_BACKSLASH; 120; CH_DQUOTE] 4 (Some trace_cb) []
     = Val (4, [(MJSON_TOK_STRING, 0, 4)])
  /\ mjson_unescape [CH_BACKSLASH; 120] 2 [0; 0; 0; 0] 4 = Val (-1, [0; 0; 0; 0]).
Proof. vm_compute. repeat split; reflexivity. Qed.

(** C4: on the key [a] of the document [{'a':1,'ab':2}] (apostrophes for
    double quotes) and the path [$.ab], the callback compares one byte,
    the length of the key, and consumes the segment half way: the cursor
    moves from 1 to 3 and [d2] becomes 1; the member [ab] is then not
    found, while it is found in the document without the member [a]. *)
Theorem mjson_find_cb_key_prefix :
  let buf := json "{'a':1,'ab':2}" in
  length buf = 14%nat
  /\ mjson_find_cb MJSON_TOK_KEY buf 1 3
       (FindData (bytes "$.ab") 1 1 0 0 0 (-1) (Some None) (Some None) MJSON_TOK_INVALID)
     = Val (FindData (bytes "$.ab") 3 1 1 0 0 (-1) (Some None) (Some None) MJSON_TOK_INVALID)
  /\ mjson_find buf 14 (bytes "$.ab") (Some None) (Some None)
     = Val (MJSON_TOK_INVALID, Some None, Some None)
  /\ mjson_find (json "{'ab':2}") 8 (bytes "$.ab") (Some None) (Some None)
     = Val (MJSON_TOK_NUMBER, Some (Some 6), Some (Some 1)).
Proof. vm_compute. repeat split; reflexivity. Qed.

(** C8: [mjson_print_int] prints 10 as the single digit 0 and -1024 as
    -024: the recursion on [n / 10] is taken for [n > 10] only, so the
    leading digit of 10 is lost.  On [INT_MIN] the negation overflows
    after the sign is printed. *)
Theorem mjson_print_int_10 :
  mjson_print_int 10 collect [] = Val (1, bytes "0")
  /\ mjson_print_int (-1024) collect [] = Val (4, bytes "-024")
  /\ mjson_print_int (-1024) mjson_fixed_buf_printer (FixedBuf (replicate 8 0) 8 0)
     = Val (4, FixedBuf (bytes "-024" ++ [0; 0; 0; 0]) 8 4)
  /\ mjson_print_int INT_MIN collect [] = Undef IntOverflow.
Proof. vm_compute. repeat split; reflexivity. Qed.

(* ------------------------------------------------------------------ *)
(** ** String decoding *)

Lemma bytes_between_nil s i len : len <= i -> bytes_between s i len = [].
Proof.
  intros H. unfold bytes_between. replace (Z.to_nat (len - i)) with O by lia. reflexivity.
Qed.

Lemma bytes_between_cons s i len :
  i < len -> bytes_between s i len = sget s i :: bytes_between s (i + 1) len.
Proof.
  intros H. unfold bytes_between.
  replace (Z.to_nat (len - i)) with (S (Z.to_nat (len - (i + 1)))) by lia.
  cbn [seq List.map]. rewrite Z.add_0_r. f_equal.
  rewrite <- seq_shift, List.map_map. apply List.map_ext. intros k. f_equal. lia.
Qed.

Lemma decoded_plain c rest :
  c <> CH_BACKSLASH -> decoded (c :: rest) = option_map (cons c) (decoded rest).
Proof.
  intros Hc. cbn [decoded]. destruct rest as [|e rest']; [reflexivity|].
  destruct (Z.eqb_spec c CH_BACKSLASH); [contradiction | reflexivity].
Qed.

Lemma decoded_last c : decoded [c] = Some [c].
Proof. reflexivity. Qed.

Lemma decoded_escape e rest :
  decoded (CH_BACKSLASH :: e :: rest)
  = if mjson_esc e 0 =? 0 then None else option_map (cons (mjson_esc e 0)) (decoded rest).
Proof. reflexivity. Qed.

Lemma buf_set_app pre x suf v :
  buf_set (pre ++ x :: suf) (Z.of_nat (length pre)) v = Val (pre ++ v :: suf).
Proof.
  unfold buf_set. rewrite length_app. cbn [length].
  destruct (Z.leb_spec 0 (Z.of_nat (length pre))); [|lia].
  destruct (Z.ltb_spec (Z.of_nat (length pre)) (Z.of_nat (length pre + S (length suf)))); [|lia].
  cbn [andb]. rewrite Nat2Z.id. f_equal. clear.
  induction pre as [|p pre IH]; [reflexivity|]. cbn. f_equal. exact IH.
Qed.

Lemma buf_set_length to j v to' : buf_set to j v = Val to' -> length to' = length to.
Proof.
  unfold buf_set. destruct ((0 <=? j) && (j <? Z.of_nat (length to))); [|discriminate].
  intros H; injection H as <-. apply length_insert.
Qed.

Lemma buf_set_in to j v :
  0 <= j < Z.of_nat (length to) -> exists to', buf_set to j v = Val to'.
Proof.
  intros H. unfold buf_set.
  destruct (Z.leb_spec 0 j); [|lia]. destruct (Z.ltb_spec j (Z.of_nat (length to))); [|lia].
  eauto.
Qed.

Section Unescape.
Variable s : list Z.
Variable len n : Z.

(** The loop writes the decoded text when the destination has room for
    it and one byte more. *)
Lemma unescape_loop_ok (fuel : nat) : forall i pre suf d,
  (Z.to_nat (len - i) < fuel)%nat ->
  decoded (bytes_between s i len) = Some d ->
  Z.of_nat (length pre + length d) < n ->
  n <= Z.of_nat (length pre + length suf) ->
  unescape_loop fuel s len n i (Z.of_nat (length pre)) (pre ++ suf)
  = Val (inl (Z.of_nat (length pre + length d)), pre ++ d ++ drop (length d) suf).
Proof.
  induction fuel as [|fuel IH]; intros i pre suf d Hf Hd Hn Hcap; [lia|].
  cbn [unescape_loop].
  destruct (Z.ltb_spec i len) as [Hi | Hi].
  2:{ rewrite bytes_between_nil in Hd by lia. injection Hd as <-.
      cbn [andb length drop app]. rewrite Nat.add_0_r. reflexivity. }
  destruct (Z.ltb_spec (Z.of_nat (length pre)) n) as [_ | Hj]; [|lia].
  cbn [andb]. rewrite bytes_between_cons in Hd by lia.
  (* one more byte goes to the destination, whichever it is *)
  assert (Hstep : forall c i' d',
    d = c :: d' -> i < i' -> decoded (bytes_between s i' len) = Some d' ->
    (to ← buf_set (pre ++ suf) (Z.of_nat (length pre)) c;
     unescape_loop fuel s len n i' (Z.of_nat (length pre) + 1) to)
    = Val (inl (Z.of_nat (length pre + length d)), pre ++ d ++ drop (length d) suf)).
  { intros c i' d' -> Hi' Hd'. cbn [length] in Hn.
    destruct suf as [|x suf']; [cbn [length] in Hcap; lia|].
    rewrite buf_set_app. cbn [mbind res_bind].
    replace (Z.of_nat (length pre) + 1) with (Z.of_nat (length (pre ++ [c])))
      by (rewrite length_app; cbn [length]; lia).
    replace (pre ++ c :: suf') with ((pre ++ [c]) ++ suf') by (rewrite <- app_assoc; reflexivity).
    rewrite (IH i' (pre ++ [c]) suf' d'); try assumption.
    - rewrite length_app. cbn [length drop]. rewrite <- !app_assoc. cbn [app].
      do 3 f_equal. lia.
    - lia.
    - rewrite length_app. cbn [length]. lia.
    - rewrite length_app. cbn [length] in *. lia. }
  destruct (Z.eqb_spec (sget s i) CH_BACKSLASH) as [Hc | Hc].
  - destruct (Z.ltb_spec (i + 1) len) as [Hi1 | Hi1]; cbn [andb].
    + rewrite bytes_between_cons in Hd by lia. rewrite Hc, decoded_escape in Hd.
      destruct (mjson_esc (sget s (i + 1)) 0 =? 0); [discriminate|].
      destruct (decoded (bytes_between s (i + 1 + 1) len)) as [d'|] eqn:Hd'; [|discriminate].
      injection Hd as <-. apply (Hstep _ (i + 1 + 1) d'); [reflexivity | lia | exact Hd'].
    + rewrite bytes_between_nil in Hd by lia. rewrite decoded_last in Hd. injection Hd as <-.
      apply (Hstep _ (i + 1) []); [reflexivity | lia |].
      rewrite bytes_between_nil by lia. reflexivity.
  - cbn [andb]. rewrite decoded_plain in Hd by assumption.
    destruct (decoded (bytes_between s (i + 1) len)) as [d'|] eqn:Hd'; [|discriminate].
    injection Hd as <-. apply (Hstep _ (i + 1) d'); [reflexivity | lia | exact Hd'].
Qed.

(** The loop ends with [j = n] or returns -1 when there is no decoded
    text or not enough room for it. *)
Lemma unescape_loop_fail (fuel : nat) : forall i j to,
  (Z.to_nat (len - i) < fuel)%nat ->
  0 <= j <= n -> n <= Z.of_nat (length to) ->
  (forall d, decoded (bytes_between s i len) = Some d -> n <= j + Z.of_nat (length d)) ->
  exists to',
    unescape_loop fuel s len n i j to = Val (inr (-1), to')
    \/ unescape_loop fuel s len n i j to = Val (inl n, to').
Proof.
  induction fuel as [|fuel IH]; intros i j to Hf Hj Hcap Hd; [lia|].
  cbn [unescape_loop].
  destruct (Z.ltb_spec j n) as [Hjn | Hjn].
  2:{ rewrite andb_false_r. exists to. right. do 2 f_equal. f_equal. lia. }
  destruct (Z.ltb_spec i len) as [Hi | Hi].
  2:{ specialize (Hd [] ltac:(rewrite bytes_between_nil by lia; reflexivity)).
      cbn [length] in Hd. lia. }
  cbn [andb]. rewrite bytes_between_cons in Hd by lia.
  assert (Hstep : forall c i',
    i < i' ->
    (forall d', decoded (bytes_between s i' len) = Some d' -> n <= j + 1 + Z.of_nat (length d')) ->
    exists to',
      (to1 ← buf_set to j c; unescape_loop fuel s len n i' (j + 1) to1) = Val (inr (-1), to')
      \/ (to1 ← buf_set to j c; unescape_loop fuel s len n i' (j + 1) to1) = Val (inl n, to')).
  { intros c i' Hi' Hd'. destruct (buf_set_in to j c ltac:(lia)) as [to1 Hset].
    rewrite Hset. cbn [mbind res_bind].
    apply IH; try lia; try assumption.
    rewrite (buf_set_length _ _ _ _ Hset). exact Hcap. }
  destruct (Z.eqb_spec (sget s i) CH_BACKSLASH) as [Hc | Hc].
  - destruct (Z.ltb_spec (i + 1) len) as [Hi1 | Hi1]; cbn [andb].
    + rewrite bytes_between_cons in Hd by lia. rewrite Hc in Hd.
      setoid_rewrite decoded_escape in Hd.
      destruct (mjson_esc (sget s (i + 1)) 0 =? 0); [exists to; left; reflexivity|].
      apply Hstep; [lia|]. intros d' Hd'. rewrite Hd' in Hd.
      specialize (Hd _ eq_refl). cbn [length] in Hd. lia.
    + apply Hstep; [lia|]. intros d' Hd'.
      rewrite bytes_between_nil in Hd, Hd' by lia. injection Hd' as <-.
      specialize (Hd _ (decoded_last _)). cbn [length] in *. lia.
  - cbn [andb]. apply Hstep; [lia|]. intros d' Hd'.
    setoid_rewrite decoded_plain in Hd; [|assumption]. rewrite Hd' in Hd.
    specialize (Hd _ eq_refl). cbn [length] in Hd. lia.
Qed.
End Unescape.

Lemma mjson_unescape_ok (s : list Z) (len : Z) (to : list Z) (n : Z) (d : list Z) :
  decoded (span_bytes s len) = Some d ->
  Z.of_nat (length d) < n -> n <= Z.of_nat (length to) ->
  mjson_unescape s len to n
  = Val (Z.of_nat (length d), d ++ 0 :: drop (S (length d)) to).
Proof.
  intros Hd Hn Hcap. unfold mjson_unescape.
  pose proof (unescape_loop_ok s len n (S (Z.to_nat len)) 0 [] to d) as Hloop.
  cbn [length app Nat.add] in Hloop. change (Z.of_nat 0) with 0 in Hloop.
  rewrite Hloop; [|lia|exact Hd|exact Hn|exact Hcap].
  cbn [mbind res_bind].
  destruct (Z.geb_spec (Z.of_nat (length d)) n); [lia|].
  destruct (Z.gtb_spec n 0); [|lia].
  destruct (lookup_lt_is_Some_2 to (length d) ltac:(lia)) as [x Hx].
  rewrite (drop_S _ _ _ Hx), buf_set_app. reflexivity.
Qed.

Lemma mjson_unescape_fail (s : list Z) (len : Z) (to : list Z) (n : Z) :
  (forall d, decoded (span_bytes s len) = Some d -> n <= Z.of_nat (length d)) ->
  n <= Z.of_nat (length to) ->
  exists to', mjson_unescape s len to n = Val (-1, to').
Proof.
  intros Hd Hcap. unfold mjson_unescape.
  destruct (Z.lt_ge_cases n 0) as [Hneg | Hpos].
  - cbn [unescape_loop]. destruct (Z.ltb_spec 0 n); [lia|]. rewrite andb_false_r.
    cbn [mbind res_bind]. destruct (Z.geb_spec 0 n); [|lia]. eauto.
  - destruct (unescape_loop_fail s len n (S (Z.to_nat len)) 0 0 to) as [to' [H | H]];
      try lia; try assumption; rewrite H; cbn [mbind res_bind]; [eauto|].
    destruct (Z.geb_spec n n); [|lia]. eauto.
Qed.

(** C10: with a destination of at least [n] bytes, a call of
    [mjson_unescape] that succeeds (returns [r >= 0]) returns the length of
    the decoded text [d], has written [d] followed by a NUL byte at the
    start of the destination, and had [n >= length d + 1]; whenever the
    decoded length is greater than or equal to [n] the call returns -1.
    Hence, when the path resolves to a string token whose body decodes to
    [d], [mjson_find_string] returns -1 for every [n <= length d], the
    capacity [n = length d] that holds just the text included, and returns
    [length d], which does not count the NUL it wrote, for larger [n]. *)
Theorem mjson_unescape_needs_terminator (s : list Z) (len : Z) (to : list Z) (n : Z) :
  n <= Z.of_nat (length to) ->
  (forall r to', mjson_unescape s len to n = Val (r, to') -> 0 <= r ->
     exists d, decoded (span_bytes s len) = Some d /\ r = Z.of_nat (length d)
               /\ Z.of_nat (length d) + 1 <= n
               /\ to' = d ++ 0 :: drop (S (length d)) to)
  /\
  (forall d, decoded (span_bytes s len) = Some d -> n <= Z.of_nat (length d) ->
     exists to', mjson_unescape s len to n = Val (-1, to'))
  /\
  (forall jp p sz d,
     mjson_find s len jp (Some None) (Some None)
       = Val (MJSON_TOK_STRING, Some (Some p), Some (Some sz)) ->
     decoded (span_bytes (sfrom s (p + 1)) (sz - 2)) = Some d ->
     (n <= Z.of_nat (length d) ->
        exists to', mjson_find_string s len jp to n = Val (-1, to'))
     /\
     (Z.of_nat (length d) < n ->
        mjson_find_string s len jp to n
        = Val (Z.of_nat (length d), d ++ 0 :: drop (S (length d)) to))).
Proof.
  intros Hcap. split; [|split].
  - intros r to' Hrun Hr.
    destruct (decoded (span_bytes s len)) as [d|] eqn:Hd.
    + destruct (Z.lt_ge_cases (Z.of_nat (length d)) n) as [Hlt | Hge].
      * rewrite (mjson_unescape_ok s len to n d Hd Hlt Hcap) in Hrun.
        injection Hrun as <- <-. exists d. repeat split; [lia].
      * destruct (mjson_unescape_fail s len to n) as [to1 H1]; [|exact Hcap|].
        -- intros d' Hd'. rewrite Hd in Hd'. injection Hd' as <-. exact Hge.
        -- rewrite H1 in Hrun. injection Hrun as <- <-. lia.
    + destruct (mjson_unescape_fail s len to n) as [to1 H1]; [|exact Hcap|].
      * intros d' Hd'. rewrite Hd in Hd'. discriminate.
      * rewrite H1 in Hrun. injection Hrun as <- <-. lia.
  - intros d Hd Hge. apply mjson_unescape_fail; [|exact Hcap].
    intros d' Hd'. rewrite Hd in Hd'. injection Hd' as <-. exact Hge.
  - intros jp p sz d Hfind Hd. unfold mjson_find_string. rewrite Hfind.
    cbn [mbind res_bind]. change (negb (MJSON_TOK_STRING =? MJSON_TOK_STRING)) with false.
    cbv iota. split.
    + intros Hge. apply mjson_unescape_fail; [|exact Hcap].
      intros d' Hd'. rewrite Hd in Hd'. injection Hd' as <-. exact Hge.
    + intros Hlt. apply mjson_unescape_ok; assumption.
Qed.

Lemma mjson_unescape_needs_terminator_witness :
  let s := json "{'x':{'y':'hi'}}" in
  (exists d, decoded (span_bytes (bytes "hi") 2) = Some d /\ 2 = Z.of_nat (length d)
             /\ Z.of_nat (length d) + 1 <= 3
             /\ bytes "hi" ++ [0] = d ++ 0 :: drop (S (length d)) [7; 7; 7])
  /\ (exists to', mjson_unescape (bytes "hi") 2 [7; 7] 2 = Val (-1, to'))
  /\ (exists to', mjson_find_string s 16 (bytes "$.x.y") [7; 7] 2 = Val (-1, to'))
  /\ mjson_find_string s 16 (bytes "$.x.y") [7; 7; 7] 3
     = Val (Z.of_nat (length (bytes "hi")), bytes "hi" ++ 0 :: drop (S (length (bytes "hi"))) [7; 7; 7]).
Proof.
  assert (H2 : 2 <= Z.of_nat (length [7; 7])) by (simpl; lia).
  assert (H3 : 3 <= Z.of_nat (length [7; 7; 7])) by (simpl; lia).
  split; [|split; [|split]].
  - apply (proj1 (mjson_unescape_needs_terminator (bytes "hi") 2 [7; 7; 7] 3 H3)
             2 (bytes "hi" ++ [0])); [vm_compute; reflexivity | lia].
  - apply (proj1 (proj2 (mjson_unescape_needs_terminator (bytes "hi") 2 [7; 7] 2 H2))
             (bytes "hi")); [vm_compute; reflexivity | simpl; lia].
  - apply (proj1 (proj2 (proj2 (mjson_unescape_needs_terminator
               (json "{'x':{'y':'hi'}}") 16 [7; 7] 2 H2))
             (bytes "$.x.y") 10 4 (bytes "hi") ltac:(vm_compute; reflexivity)
             ltac:(vm_compute; reflexivity))).
    simpl; lia.
  - apply (proj2 (proj2 (proj2 (mjson_unescape_needs_terminator
               (json "{'x':{'y':'hi'}}") 16 [7; 7; 7] 3 H3))
             (bytes "$.x.y") 10 4 (bytes "hi") ltac:(vm_compute; reflexivity)
             ltac:(vm_compute; reflexivity))).
    simpl; lia.
Defined.

(* ------------------------------------------------------------------ *)
(** ** The loops never run out of fuel *)

(** [mjson_pass_string]: more fuel than [len - i] changes nothing, so the
    result at fuel 0 is never what decides. *)
Lemma pass_string_loop_fuel (s : list Z) (len : Z) (fuel : nat) : forall k i,
  (Z.to_nat (len - i) <= fuel)%nat ->
  pass_string_loop (fuel + k) s len i = pass_string_loop fuel s len i.
Proof.
  induction fuel as [|fuel IH]; intros k i Hf.
  - assert (Hi : len <= i) by lia. cbn [Nat.add pass_string_loop].
    destruct k; cbn [pass_string_loop]; [reflexivity|].
    destruct (Z.ltb_spec i len); [lia | reflexivity].
  - cbn [Nat.add pass_string_loop].
    destruct (Z.ltb_spec i len); [|reflexivity].
    rewrite !IH by lia. reflexivity.
Qed.

(** A string is closed inside the [len] bytes, or scanning fails. *)
Lemma pass_string_loop_range (s : list Z) (len : Z) (fuel : nat) : forall i,
  pass_string_loop fuel s len i = MJSON_ERROR_INVALID_INPUT
  \/ i <= pass_string_loop fuel s len i < len.
Proof.
  induction fuel as [|fuel IH]; intros i; cbn [pass_string_loop]; [left; reflexivity|].
  destruct (Z.ltb_spec i len); [|left; reflexivity].
  repeat case_match; try (left; reflexivity); try (right; lia).
  - destruct (IH (i + 1 + 1)) as [-> | ?]; [left; reflexivity | right; lia].
  - destruct (IH (i + 1)) as [-> | ?]; [left; reflexivity | right; lia].
Qed.

Lemma mjson_pass_string_range (s : list Z) (len : Z) :
  mjson_pass_string s len = MJSON_ERROR_INVALID_INPUT
  \/ 0 <= mjson_pass_string s len < len.
Proof. apply pass_string_loop_range. Qed.

Lemma path_get_fuel (jp : list Z) (k : Z) : path_get jp k <> NoFuel.
Proof. unfold path_get. repeat case_match; discriminate. Qed.

Lemma path_get_Val (jp : list Z) (k c : Z) :
  path_get jp k = Val c -> 0 <= k <= Z.of_nat (length jp).
Proof.
  unfold path_get. destruct (Z.ltb_spec k 0); [discriminate|].
  destruct (jp !! Z.to_nat k) eqn:E.
  - apply lookup_lt_Some in E. lia.
  - destruct (Z.eqb_spec k (Z.of_nat (length jp))); [lia | discriminate].
Qed.

Lemma memcmp_path_fuel (s : list Z) (jp : list Z) (n : nat) : forall a b,
  memcmp_path s a jp b n <> NoFuel.
Proof.
  induction n as [|n IH]; intros a b; cbn [memcmp_path]; [discriminate|].
  destruct (path_get jp b) eqn:E; cbn [mbind res_bind]; try discriminate.
  - destruct (sget s a =? a0); [apply IH | discriminate].
  - exfalso. exact (path_get_fuel _ _ E).
Qed.

Lemma find_close_fuel (jp : list Z) (fuel : nat) : forall k,
  Z.of_nat (length jp) + 1 - k < Z.of_nat fuel -> (1 <= fuel)%nat ->
  find_close fuel jp k <> NoFuel.
Proof.
  induction fuel as [|fuel IH]; intros k Hf H1; [lia|].
  cbn [find_close]. destruct (path_get jp k) as [c | u |] eqn:E; cbn [mbind res_bind].
  - apply path_get_Val in E.
    destruct (c =? CH_RBRACKET); [discriminate|]. apply IH; lia.
  - discriminate.
  - exfalso. exact (path_get_fuel _ _ E).
Qed.

Lemma find_close_path_fuel (jp : list Z) (k : Z) :
  find_close (S (S (length jp))) jp k <> NoFuel.
Proof.
  destruct (Z.lt_ge_cases k 0) as [Hk | Hk].
  - cbn [find_close]. unfold path_get. destruct (Z.ltb_spec k 0); [discriminate | lia].
  - apply find_close_fuel; lia.
Qed.

Lemma strtod_int_fuel (m : list Z) : strtod_int m <> NoFuel.
Proof. unfold strtod_int. repeat case_match; discriminate. Qed.

Lemma mjson_find_cb_fuel ev b off n d : mjson_find_cb ev b off n d <> NoFuel.
Proof.
  unfold mjson_find_cb, mbind, res_bind.
  repeat case_match; try discriminate;
    repeat match goal with
    | H : path_get _ _ = NoFuel |- _ => exfalso; exact (path_get_fuel _ _ H)
    | H : strtod_int _ = NoFuel |- _ => exfalso; exact (strtod_int_fuel _ H)
    | H : memcmp_path _ _ _ _ _ = NoFuel |- _ => exfalso; exact (memcmp_path_fuel _ _ _ _ _ H)
    | H : find_close _ _ _ = NoFuel |- _ => exfalso; exact (find_close_path_fuel _ _ H)
    end.
Qed.

Section TokenizerTotal.
Context {U : Type}.
Variable s : list Z.
Variable len : Z.
Variable cb : option (mjson_cb_t U).
Hypothesis cb_fuel : forall f, cb = Some f -> forall ev b off n ud, f ev b off n ud <> NoFuel.

Lemma MJSONCALL_fuel ev start i ud : MJSONCALL s cb ev start i ud <> NoFuel.
Proof.
  unfold MJSONCALL. destruct cb as [f|] eqn:E; [apply (cb_fuel f eq_refl) | discriminate].
Qed.

Lemma mjson_body_fuel st : mjson_body s len cb st <> Stop NoFuel.
Proof.
  unfold mjson_body, MJSONEOO, and_then, nesting_get.
  repeat case_match; try discriminate;
    match goal with
    | H : MJSONCALL _ _ _ _ _ _ = NoFuel |- _ => exfalso; exact (MJSONCALL_fuel _ _ _ _ H)
    end.
Qed.

(** An iteration that goes on leaves [i] where it was or further, or one
    byte back, once, when a number token has no byte. *)
Lemma mjson_body_progress st st' :
  mjson_body s len cb st = Continue st' ->
  sc_i st <= sc_i st'
  \/ (sc_i st' = sc_i st - 1 /\ sc_expecting st = S_VALUE
      /\ sc_expecting st' = S_COMMA_OR_EOO).
Proof.
  unfold mjson_body, MJSONEOO, and_then, strtod_end.
  repeat case_match; intros; simplify_eq; cbn [sc_i sc_expecting]; try lia.
  destruct (fst (strtod_lex (sfrom s (sc_i st)))); [right; repeat split; lia | left; lia].
Qed.

Lemma mjson_loop_total (fuel : nat) : forall st,
  scan_measure len st < Z.of_nat fuel -> (1 <= fuel)%nat ->
  mjson_loop s len cb fuel st <> NoFuel.
Proof.
  induction fuel as [|fuel IH]; intros st Hm H1; [lia|].
  cbn [mjson_loop]. destruct (Z.ltb_spec (sc_i st) len) as [Hi | Hi]; [|discriminate].
  destruct (mjson_body s len cb st) as [st' | r] eqn:Hb.
  - apply mjson_body_progress in Hb.
    unfold scan_measure in *. cbn [sc_i sc_expecting] in *.
    apply IH; cbn [sc_i sc_expecting]; [|destruct (sc_expecting st); lia].
    destruct Hb as [Hb | (Hb & He & He')].
    + destruct (sc_expecting st), (sc_expecting st'); lia.
    + rewrite He in Hm. rewrite He'. lia.
  - intros ->. exact (mjson_body_fuel st Hb).
Qed.

(** [mjson] always comes to an outcome. *)
Lemma mjson_total ud : mjson s len cb ud <> NoFuel.
Proof.
  unfold mjson, mjson_run, mjson_fuel. apply mjson_loop_total; [|lia].
  unfold scan_measure, mjson_init. cbn [sc_i sc_expecting]. lia.
Qed.
End TokenizerTotal.

(** [mjson_find] always comes to an outcome. *)
Lemma mjson_find_total (s : list Z) (len : Z) (jp : list Z) (tp tl : dest) :
  mjson_find s len jp tp tl <> NoFuel.
Proof.
  unfold mjson_find. rewrite path_get_0. cbn [mbind res_bind].
  destruct (negb (sget jp 0 =? CH_DOLLAR)); [discriminate|].
  destruct (mjson s len (Some mjson_find_cb) _) as [[r d] | u |] eqn:E; cbn [mbind res_bind].
  - destruct (r <? 0); discriminate.
  - discriminate.
  - exfalso. revert E. apply mjson_total.
    intros f Hf. injection Hf as <-. apply mjson_find_cb_fuel.
Qed.

Lemma unescape_loop_fuel (s : list Z) (len n : Z) (fuel : nat) : forall i j to,
  (Z.to_nat (len - i) < fuel)%nat -> unescape_loop fuel s len n i j to <> NoFuel.
Proof.
  induction fuel as [|fuel IH]; intros i j to Hf; [lia|].
  cbn [unescape_loop]. unfold buf_set, mbind, res_bind.
  repeat case_match; try discriminate; simplify_eq; apply IH; lia.
Qed.

(** [mjson_find_string] always comes to an outcome. *)
Lemma mjson_find_string_total (s : list Z) (len : Z) (jp to : list Z) (n : Z) :
  mjson_find_string s len jp to n <> NoFuel.
Proof.
  unfold mjson_find_string.
  destruct (mjson_find s len jp (Some None) (Some None)) as [[[t p] sz] | u |] eqn:E;
    cbn [mbind res_bind]; [|discriminate|exact (fun _ => mjson_find_total _ _ _ _ _ E)].
  destruct (negb (t =? MJSON_TOK_STRING)); [discriminate|].
  destruct p as [[p|]|], sz as [[sz|]|]; try discriminate.
  unfold mjson_unescape.
  destruct (unescape_loop _ _ _ _ _ _ _) as [[e to'] | u |] eqn:El; cbn [mbind res_bind].
  - unfold buf_set. repeat case_match; discriminate.
  - discriminate.
  - exfalso. revert El. apply unescape_loop_fuel. lia.
Qed.

Lemma print_int_rec_S {U : Type} (fuel : nat) (n : Z) (fn : mjson_print_fn_t U) (ud : U) :
  print_int_rec (S fuel) n fn ud
  = if n <? 0 then
      '(_, ud) ← fn (bytes "-") 1 ud;
      if n =? INT_MIN then Undef IntOverflow
      else '(r, ud) ← print_int_rec fuel (- n) fn ud; Val (r + 1, ud)
    else
      '(len, ud) ← (if n >? 10 then print_int_rec fuel (Z.quot n 10) fn ud else Val (0, ud));
      '(r, ud) ← fn (sfrom (bytes "0123456789") (Z.rem n 10)) 1 ud;
      Val (len + r, ud).
Proof. reflexivity. Qed.

(** [mjson_print_int] always comes to an outcome on an [int]. *)
Lemma print_int_rec_fuel {U : Type} (fn : mjson_print_fn_t U) :
  (forall p n ud, fn p n ud <> NoFuel) ->
  forall (k : nat) (n : Z) (ud : U),
    0 <= n <= 10 * 10 ^ Z.of_nat k -> print_int_rec (S k) n fn ud <> NoFuel.
Proof.
  intros Hfn.
  assert (Hlast : forall l p (ud : U),
            ('(r, ud) ← fn p 1 ud; Val (l + r, ud)) <> (NoFuel : res (Z * U))).
  { intros l p ud. destruct (fn p 1 ud) as [[r ud'] | u |] eqn:E; cbn; try discriminate.
    exfalso. exact (Hfn _ _ _ E). }
  induction k as [|k IH]; intros n ud Hn; rewrite print_int_rec_S.
  - destruct (Z.ltb_spec n 0); [lia|]. destruct (Z.gtb_spec n 10); [cbn in Hn; lia|].
    cbn [mbind res_bind]. apply Hlast.
  - destruct (Z.ltb_spec n 0); [lia|].
    assert (Hrec : print_int_rec (S k) (n ÷ 10) fn ud <> NoFuel).
    { apply IH. split; [apply Z.quot_pos; lia|].
      rewrite Z.quot_div_nonneg by lia.
      replace (Z.of_nat (S k)) with (Z.of_nat k + 1) in Hn by lia.
      rewrite Z.pow_add_r, Z.pow_1_r in Hn by lia.
      apply Z.div_le_upper_bound; lia. }
    destruct (n >? 10).
    + destruct (print_int_rec (S k) (n ÷ 10) fn ud) as [[l ud1] | u |]; cbn [mbind res_bind];
        [|discriminate|contradiction].
      apply Hlast.
    + cbn [mbind res_bind]. apply Hlast.
Qed.

Lemma mjson_print_int_total {U : Type} (fn : mjson_print_fn_t U) (n : Z) (ud : U) :
  (forall p n ud, fn p n ud <> NoFuel) ->
  INT_MIN <= n <= INT_MAX -> mjson_print_int n fn ud <> NoFuel.
Proof.
  unfold INT_MIN, INT_MAX, mjson_print_int. intros Hfn Hn.
  destruct (Z.lt_ge_cases n 0) as [Hneg | Hpos].
  - rewrite print_int_rec_S. destruct (Z.ltb_spec n 0); [|lia].
    destruct (fn (bytes "-") 1 ud) as [[r ud1] | u |] eqn:E; cbn [mbind res_bind];
      [|discriminate|exact (fun _ => Hfn _ _ _ E)].
    destruct (n =? INT_MIN); [discriminate|].
    pose proof (print_int_rec_fuel fn Hfn 10 (- n) ud1) as Hrec.
    destruct (print_int_rec 11 (- n) fn ud1) as [[l ud2] | u |]; cbn [mbind res_bind];
      try discriminate.
    apply Hrec. change (10 * 10 ^ Z.of_nat 10) with 100000000000. lia.
  - apply (print_int_rec_fuel fn Hfn 11).
    change (10 * 10 ^ Z.of_nat 11) with 1000000000000. lia.
Qed.

(* ------------------------------------------------------------------ *)
(** ** [strtod] stays inside the string it is given *)

Lemma span_app (p : Z -> bool) (m : list Z) : forall a b, span p m = (a, b) -> m = a ++ b.
Proof.
  induction m as [|c m IH]; intros a b H; cbn [span] in H.
  - injection H as <- <-. reflexivity.
  - destruct (p c).
    + destruct (span p m) as [a' b'] eqn:E. injection H as <- <-.
      cbn [app]. f_equal. apply IH. reflexivity.
    + injection H as <- <-. reflexivity.
Qed.

Lemma span_length (p : Z -> bool) (m a b : list Z) :
  span p m = (a, b) -> (length a + length b = length m)%nat.
Proof. intros H. apply span_app in H. subst m. rewrite length_app. reflexivity. Qed.

Lemma lex_sign_length (m m2 : list Z) (neg : bool) (ns : nat) :
  lex_sign m = (neg, ns, m2) -> (ns + length m2 = length m)%nat.
Proof.
  unfold lex_sign. destruct m as [|c m']; [intros H; injection H as <- <- <-; reflexivity|].
  repeat case_match; intros Heq; injection Heq as <- <- <-; reflexivity.
Qed.

Lemma prefix_ci_length (w : list Z) : forall m, prefix_ci w m = true -> (length w <= length m)%nat.
Proof.
  induction w as [|x w IH]; intros m H; cbn [length]; [lia|].
  destruct m as [|c m]; cbn [prefix_ci] in H; [discriminate|].
  apply andb_true_iff in H. destruct H as [_ H']. apply IH in H'. cbn [length]. lia.
Qed.

Lemma lex_nan_seq_length (m : list Z) : (lex_nan_seq m <= length m)%nat.
Proof.
  unfold lex_nan_seq. destruct m as [|c m1]; [reflexivity|].
  destruct (c =? 40); [|lia].
  destruct (span _ m1) as [ns r] eqn:E. apply span_length in E.
  destruct r as [|d r]; [lia|]. destruct (d =? 41); cbn [length] in *; lia.
Qed.

Lemma lex_mantissa_length (isd : Z -> bool) (m ip fp r : list Z) (n : nat) :
  lex_mantissa isd m = Some (ip, fp, n, r) -> (n + length r = length m)%nat.
Proof.
  unfold lex_mantissa. destruct (span isd m) as [ip' r1] eqn:E1.
  apply span_length in E1. destruct r1 as [|c r2].
  - destruct ip'; [discriminate|]. intros Heq; simplify_eq. cbn [length] in *. lia.
  - destruct (c =? CH_DOT).
    + destruct (span isd r2) as [fp' r3] eqn:E2. apply span_length in E2.
      destruct ip', fp'; try discriminate; intros Heq; simplify_eq;
        cbn [length] in *; lia.
    + destruct ip'; [discriminate|]. intros Heq; simplify_eq. cbn [length] in *. lia.
Qed.

Lemma lex_exponent_length (mark : Z) (m : list Z) : (fst (lex_exponent mark m) <= length m)%nat.
Proof.
  unfold lex_exponent. destruct m as [|c m1]; [reflexivity|].
  destruct (tolower c =? mark); [|cbn; lia].
  destruct (lex_sign m1) as [[neg ns] m2] eqn:Es. apply lex_sign_length in Es.
  destruct (span isdigit m2) as [ds r] eqn:Ed. apply span_length in Ed.
  destruct ds; cbn [fst length] in *; lia.
Qed.

Lemma lex_decimal_length (neg : bool) (pre : nat) (m : list Z) :
  (fst (lex_decimal neg pre m) <= pre + length m)%nat.
Proof.
  unfold lex_decimal. destruct (lex_mantissa isdigit m) as [[[[ip fp] n] r]|] eqn:E.
  - apply lex_mantissa_length in E. pose proof (lex_exponent_length 101 r) as He.
    destruct (lex_exponent 101 r) as [ne ex]. cbn [fst] in *. lia.
  - cbn. lia.
Qed.

Lemma lex_hex_length (neg : bool) (pre : nat) (m : list Z) (k : nat) (f : numform) :
  lex_hex neg pre m = Some (k, f) -> (k <= pre + length m)%nat.
Proof.
  unfold lex_hex. destruct m as [|z [|x m']]; try discriminate.
  destruct ((z =? 48) && (tolower x =? 120)); [|discriminate].
  destruct (lex_mantissa isxdigit m') as [[[[ip fp] n] r]|] eqn:E; [|discriminate].
  apply lex_mantissa_length in E. pose proof (lex_exponent_length 112 r) as He.
  destruct (lex_exponent 112 r) as [ne ex]. intros H; injection H as <- <-.
  cbn [fst length] in *. lia.
Qed.

(** The end pointer of [strtod] is not past the terminating NUL. *)
Lemma strtod_end_le (m : list Z) : 0 <= strtod_end m <= Z.of_nat (length m).
Proof.
  unfold strtod_end, strtod_lex. split; [lia|]. apply inj_le.
  destruct (span isspace m) as [ws m1] eqn:Ew. apply span_length in Ew.
  destruct (lex_sign m1) as [[neg ns] m2] eqn:Es. apply lex_sign_length in Es.
  destruct (prefix_ci (bytes "infinity") m2) eqn:P1.
  { apply prefix_ci_length in P1. cbn [fst] in *. change (length (bytes "infinity")) with 8%nat in P1. lia. }
  destruct (prefix_ci (bytes "inf") m2) eqn:P2.
  { apply prefix_ci_length in P2. cbn [fst] in *. change (length (bytes "inf")) with 3%nat in P2. lia. }
  destruct (prefix_ci (bytes "nan") m2) eqn:P3.
  { apply prefix_ci_length in P3. change (length (bytes "nan")) with 3%nat in P3.
    pose proof (lex_nan_seq_length (drop 3 m2)) as Hn. rewrite length_drop in Hn.
    cbn [fst]. lia. }
  destruct (lex_hex neg (length ws + ns) m2) as [[k f]|] eqn:Eh.
  - apply lex_hex_length in Eh. cbn [fst]. lia.
  - pose proof (lex_decimal_length neg (length ws + ns) m2). lia.
Qed.

(* ------------------------------------------------------------------ *)
(** ** Tokenizer: the bytes consumed *)

Lemma length_sfrom (s : list Z) (i : Z) :
  0 <= i -> Z.of_nat (length (sfrom s i)) = Z.max 0 (Z.of_nat (length s) - i).
Proof. intros Hi. unfold sfrom. rewrite length_drop. lia. Qed.

Section TokenizerBound.
Context {U : Type}.
Variable s : list Z.
Variable len : Z.
Variable cb : option (mjson_cb_t U).
(** The buffer ends where [len] says, or before. *)
Hypothesis s_ends : Z.of_nat (length s) <= len.

Lemma mjson_body_bound st r ud' :
  0 <= sc_i st < len ->
  mjson_body s len cb st = Stop (Val (r, ud')) -> r <= len.
Proof using s_ends.
  intros Hi.
  pose proof (strtod_end_le (sfrom s (sc_i st))) as Hnum.
  rewrite length_sfrom in Hnum by lia.
  pose proof (mjson_pass_string_range (sfrom s (sc_i st + 1)) (len - sc_i st - 1)) as Hstr.
  unfold mjson_body, MJSONEOO, and_then,
    MJSON_ERROR_INVALID_INPUT, MJSON_ERROR_TOO_DEEP in *.
  repeat case_match; intros; simplify_eq; try lia.
Qed.

Lemma mjson_body_index st st' :
  0 <= sc_i st -> mjson_body s len cb st = Continue st' -> 0 <= sc_i st' + 1.
Proof using Type.
  intros Hi Hb. apply mjson_body_progress in Hb. lia.
Qed.

Lemma mjson_loop_bound (fuel : nat) : forall st r ud',
  0 <= sc_i st ->
  mjson_loop s len cb fuel st = Val (r, ud') -> r <= len.
Proof using s_ends.
  induction fuel as [|fuel IH]; intros st r ud' Hi Hrun; [discriminate|].
  cbn [mjson_loop] in Hrun.
  destruct (Z.ltb_spec (sc_i st) len) as [Hlt | Hge].
  - destruct (mjson_body s len cb st) as [st' | [[r1 ud1] | u |]] eqn:Hb; try discriminate.
    + eapply IH; [|exact Hrun]. cbn [sc_i]. eapply mjson_body_index; eassumption.
    + injection Hrun as <- <-. eapply mjson_body_bound; [|exact Hb]. lia.
  - injection Hrun as <- <-. unfold MJSON_ERROR_INVALID_INPUT. lia.
Qed.
End TokenizerBound.

(** When the buffer ends at [len] (its terminating NUL is [s[len]], or
    comes earlier), [mjson] never reports more than [len] bytes consumed.
    The hypothesis is what the number branch needs: [strtod] stops at the
    NUL, not at [len]. *)
Theorem mjson_consumed_le_len {U : Type} (s : list Z) (len : Z)
    (cb : option (mjson_cb_t U)) (ud ud' : U) (r : Z) :
  Z.of_nat (length s) <= len ->
  mjson s len cb ud = Val (r, ud') -> r <= len.
Proof.
  intros Hs Hrun. unfold mjson, mjson_run in Hrun.
  apply (mjson_loop_bound s len cb Hs _ _ _ _) in Hrun; [exact Hrun|].
  cbn [mjson_init sc_i]. lia.
Qed.

Lemma mjson_consumed_le_len_witness :
  let buf := json "{'a':1,'b':[10,20,30]}" in
  mjson buf 22 None tt = Val (22, tt) /\ 22 <= 22.
Proof.
  split; [vm_compute; reflexivity|].
  apply (mjson_consumed_le_len (json "{'a':1,'b':[10,20,30]}") 22
           (@None (mjson_cb_t unit)) tt tt 22).
  - vm_compute. discriminate.
  - vm_compute. reflexivity.
Defined.

(* ------------------------------------------------------------------ *)
(** ** Tokenizer: nested containers of both kinds *)

Lemma sget_sfrom (s : list Z) (i j : Z) :
  0 <= i -> 0 <= j -> sget (sfrom s i) j = sget s (i + j).
Proof.
  intros Hi Hj. unfold sget, sfrom.
  destruct (Z.ltb_spec j 0); [lia|]. destruct (Z.ltb_spec (i + j) 0); [lia|].
  rewrite !nth_lookup, lookup_drop. do 2 f_equal. lia.
Qed.

Lemma sfrom_cons (s : list Z) (i c : Z) :
  0 <= i -> sget s i = c -> c <> 0 -> sfrom s i = c :: sfrom s (i + 1).
Proof.
  intros Hi Hc Hnz. unfold sget in Hc. destruct (Z.ltb_spec i 0); [lia|].
  unfold sfrom. rewrite nth_lookup in Hc.
  destruct (s !! Z.to_nat i) as [x|] eqn:E; cbn in Hc; [|congruence].
  subst x. rewrite (drop_S _ _ _ E). do 2 f_equal. lia.
Qed.

Lemma has_at_cons (s : list Z) (i c : Z) (l : list Z) :
  has_at s i (c :: l) -> sget s i = c /\ has_at s (i + 1) l.
Proof.
  intros H. split.
  - specialize (H O ltac:(cbn; lia)). rewrite Z.add_0_r in H. exact H.
  - intros j Hj. specialize (H (S j) ltac:(cbn; lia)). cbn [nth] in H.
    rewrite <- H. f_equal. lia.
Qed.

Lemma has_at_app (s : list Z) (i : Z) (a b : list Z) :
  has_at s i (a ++ b) -> has_at s i a /\ has_at s (i + Z.of_nat (length a)) b.
Proof.
  intros H. split.
  - intros j Hj. rewrite (H j ltac:(rewrite length_app; lia)). apply app_nth1. exact Hj.
  - intros j Hj. specialize (H (length a + j)%nat ltac:(rewrite length_app; lia)).
    rewrite app_nth2_plus in H. rewrite <- H. f_equal. lia.
Qed.

Lemma has_at_here (pre l post : list Z) :
  has_at (pre ++ l ++ post) (Z.of_nat (length pre)) l.
Proof.
  intros j Hj. rewrite sget_app_r by lia. rewrite sget_app_l by lia.
  unfold sget. destruct (Z.ltb_spec (Z.of_nat j) 0); [lia|]. rewrite Nat2Z.id. reflexivity.
Qed.

Lemma length_openers_cost (ks : list container) :
  (length ks <= opens_cost ks)%nat /\ (opens_cost ks <= length (openers ks))%nat.
Proof.
  induction ks as [|k ks IH]; cbn [openers opens_cost length]; [lia|].
  rewrite length_app. destruct k; cbn; lia.
Qed.

(** The key [k] between its quotes is passed in one call. *)
Lemma pass_string_key (t : list Z) (n : Z) :
  sget t 0 = 107 -> sget t 1 = CH_DQUOTE -> 2 <= n -> mjson_pass_string t n = 1.
Proof.
  intros H0 H1 Hn. unfold mjson_pass_string.
  replace (Z.to_nat n) with (S (S (Z.to_nat (n - 2)))) by lia.
  cbn [pass_string_loop]. rewrite H0.
  destruct (Z.ltb_spec 0 n); [|lia]. cbn [Z.eqb Pos.eqb andb].
  change (0 + 1) with 1. rewrite H1.
  destruct (Z.ltb_spec 1 n); [|lia]. reflexivity.
Qed.

(** The number 1 before a closing character is one byte long. *)
Lemma strtod_end_one (c : Z) (rest : list Z) :
  c = CH_RBRACKET \/ c = CH_RBRACE -> strtod_end (49 :: c :: rest) = 1.
Proof. intros [-> | ->]; reflexivity. Qed.

Section MixedSteps.
Context {U : Type}.
Variable s : list Z.
Variable len : Z.
Variable cb : option (mjson_cb_t U).
Hypothesis cb_ok : cb_total cb.

(** An object opens: brace, key and colon take three iterations. *)
Lemma open_obj_step fuel i d nest ud :
  has_at s i (opener Obj) -> 0 <= i -> i + 5 <= len -> 0 <= d < MJSON_MAX_DEPTH ->
  exists ud',
    mjson_loop s len cb (3 + fuel) (Scan i d nest S_VALUE ud)
    = mjson_loop s len cb fuel
        (Scan (i + 5) (d + 1) (<[Z.to_nat d := CH_LBRACE]> nest) S_VALUE ud').
Proof.
  intros Hs Hi Hlen Hd.
  apply has_at_cons in Hs as [H0 Hs]. apply has_at_cons in Hs as [H1 Hs].
  apply has_at_cons in Hs as [H2 Hs]. apply has_at_cons in Hs as [H3 Hs].
  apply has_at_cons in Hs as [H4 _].
  destruct (MJSONCALL_total s cb cb_ok CH_LBRACE i i ud) as [ud1 Hc1].
  destruct (MJSONCALL_total s cb cb_ok MJSON_TOK_KEY (i + 1) (i + 1 + (1 + 1)) ud1) as [ud2 Hc2].
  destruct (MJSONCALL_total s cb cb_ok CH_COLON (i + 1 + (1 + 1) + 1) (i + 1 + (1 + 1) + 1) ud2)
    as [ud3 Hc3].
  exists ud3. change (3 + fuel)%nat with (S (S (S fuel))).
  (* the brace *)
  cbn [mjson_loop sc_i]. destruct (Z.ltb_spec i len); [|lia].
  unfold mjson_body at 1. cbn [sc_i sc_depth sc_nesting sc_expecting sc_ud].
  rewrite H0. cbn [Z.eqb Pos.eqb orb].
  assert (Hge : (d >=? MJSON_MAX_DEPTH) = false) by (unfold MJSON_MAX_DEPTH in *; lia).
  rewrite Hge, Hc1. cbn [and_then sc_i sc_depth sc_nesting sc_expecting sc_ud].
  (* the key *)
  destruct (Z.ltb_spec (i + 1) len); [|lia].
  unfold mjson_body at 1. cbn [sc_i sc_depth sc_nesting sc_expecting sc_ud].
  rewrite H1. cbn [Z.eqb Pos.eqb orb].
  rewrite pass_string_key; [| | |lia].
  2:{ rewrite sget_sfrom by lia. rewrite <- H2. f_equal; lia. }
  2:{ rewrite sget_sfrom by lia. rewrite <- H3. f_equal; lia. }
  cbn [Z.ltb Z.compare]. rewrite Hc2.
  cbn [and_then sc_i sc_depth sc_nesting sc_expecting sc_ud].
  (* the colon *)
  destruct (Z.ltb_spec (i + 1 + (1 + 1) + 1) len); [|lia].
  unfold mjson_body at 1. cbn [sc_i sc_depth sc_nesting sc_expecting sc_ud].
  replace (sget s (i + 1 + (1 + 1) + 1)) with CH_COLON by (rewrite <- H4; f_equal; lia).
  cbn [Z.eqb Pos.eqb orb]. rewrite Hc3.
  cbn [and_then sc_i sc_depth sc_nesting sc_expecting sc_ud].
  do 2 f_equal. lia.
Qed.

(** A container of either kind opens. *)
Lemma open_kind_step k fuel i d nest ud :
  has_at s i (opener k) -> 0 <= i -> i + Z.of_nat (length (opener k)) <= len ->
  0 <= d < MJSON_MAX_DEPTH ->
  exists ud',
    mjson_loop s len cb (open_cost k + fuel) (Scan i d nest S_VALUE ud)
    = mjson_loop s len cb fuel
        (Scan (i + Z.of_nat (length (opener k))) (d + 1)
              (<[Z.to_nat d := open_char k]> nest) S_VALUE ud').
Proof.
  intros Hs Hi Hlen Hd. destruct k.
  - destruct (MJSONCALL_total s cb cb_ok CH_LBRACKET i i ud) as [ud1 Hc1].
    exists ud1. apply has_at_cons in Hs as [H0 _]. cbn [length opener] in Hlen.
    apply open_step; try assumption. lia.
  - apply open_obj_step; assumption.
Qed.

(** A container of either kind is refused at the depth limit. *)
Lemma open_kind_too_deep k fuel i d nest ud :
  has_at s i (opener k) -> i < len -> MJSON_MAX_DEPTH <= d ->
  mjson_loop s len cb (S fuel) (Scan i d nest S_VALUE ud)
  = Val (MJSON_ERROR_TOO_DEEP, ud).
Proof using Type.
  intros Hs Hi Hd. cbn [mjson_loop sc_i].
  destruct (Z.ltb_spec i len); [|lia].
  unfold mjson_body. cbn [sc_i sc_depth sc_nesting sc_expecting sc_ud].
  assert (Hge : (d >=? MJSON_MAX_DEPTH) = true) by lia.
  destruct k; apply has_at_cons in Hs as [-> _]; cbn [Z.eqb Pos.eqb orb];
    rewrite Hge; reflexivity.
Qed.

(** The number 1, inside a container and before a closing character. *)
Lemma number_step fuel i d nest ud c :
  sget s i = 49 -> sget s (i + 1) = c -> c = CH_RBRACKET \/ c = CH_RBRACE ->
  0 <= i < len -> d <> 0 ->
  exists ud',
    mjson_loop s len cb (S fuel) (Scan i d nest S_VALUE ud)
    = mjson_loop s len cb fuel (Scan (i + 1) d nest S_COMMA_OR_EOO ud').
Proof.
  intros H0 H1 Hc Hi Hd.
  destruct (MJSONCALL_total s cb cb_ok MJSON_TOK_NUMBER i (i + (1 - 1)) ud) as [ud1 Hc1].
  exists ud1. cbn [mjson_loop sc_i]. destruct (Z.ltb_spec i len); [|lia].
  unfold mjson_body. cbn [sc_i sc_depth sc_nesting sc_expecting sc_ud].
  rewrite H0. cbn [Z.eqb Pos.eqb orb andb Z.leb Z.compare Pos.compare Pos.compare_cont].
  rewrite (sfrom_cons s i 49) by (try assumption; lia).
  rewrite (sfrom_cons s (i + 1) c) by (try assumption; destruct Hc; lia).
  rewrite strtod_end_one by assumption.
  destruct (Z.eqb_spec d 0); [contradiction|]. rewrite Hc1.
  cbn [and_then sc_i sc_depth sc_nesting sc_expecting sc_ud]. do 2 f_equal. lia.
Qed.

(** A closing character that matches the innermost container, with more
    containers open. *)
Lemma close_kind_step k fuel i d nest ud :
  sget s i = open_char k + 2 -> i < len -> 2 <= d <= MJSON_MAX_DEPTH ->
  nest !! Z.to_nat (d - 1) = Some (open_char k) ->
  exists ud',
    mjson_loop s len cb (S fuel) (Scan i d nest S_COMMA_OR_EOO ud)
    = mjson_loop s len cb fuel (Scan (i + 1) (d - 1) nest S_COMMA_OR_EOO ud').
Proof.
  unfold MJSON_MAX_DEPTH. intros Hc Hi Hd Hn.
  destruct (MJSONCALL_total s cb cb_ok (open_char k + 2) i i ud) as [ud1 Hc1].
  exists ud1. cbn [mjson_loop sc_i]. destruct (Z.ltb_spec i len); [|lia].
  unfold mjson_body, MJSONEOO, nesting_get, MJSON_MAX_DEPTH.
  cbn [sc_i sc_depth sc_nesting sc_expecting sc_ud].
  rewrite Hc, Hn.
  assert (H1 : (0 <=? d - 1) && (d - 1 <? 20) = true) by lia.
  assert (H2 : (d - 1 =? 0) = false) by lia.
  assert (H3 : (d <=? 0) = false) by lia.
  rewrite H3, H1. destruct k; cbn; rewrite H2; cbn in Hc1; rewrite Hc1; reflexivity.
Qed.

(** The closing character of the outermost container ends the scan. *)
Lemma close_kind_last k fuel i nest ud :
  sget s i = open_char k + 2 -> i < len ->
  nest !! O = Some (open_char k) ->
  exists ud', mjson_loop s len cb (S fuel) (Scan i 1 nest S_COMMA_OR_EOO ud) = Val (i + 1, ud').
Proof.
  intros Hc Hi Hn.
  destruct (MJSONCALL_total s cb cb_ok (open_char k + 2) i i ud) as [ud1 Hc1].
  exists ud1. cbn [mjson_loop sc_i]. destruct (Z.ltb_spec i len); [|lia].
  unfold mjson_body, MJSONEOO, nesting_get, MJSON_MAX_DEPTH.
  cbn [sc_i sc_depth sc_nesting sc_expecting sc_ud].
  change (1 - 1) with 0. change (Z.to_nat 0) with O.
  rewrite Hc, Hn. destruct k; cbn; cbn in Hc1; rewrite Hc1; reflexivity.
Qed.
End MixedSteps.

Lemma openers_app (a b : list container) : openers (a ++ b) = openers a ++ openers b.
Proof.
  induction a as [|k a IH]; cbn [openers app]; [reflexivity|].
  rewrite IH, app_assoc. reflexivity.
Qed.

Lemma length_closers (ks : list container) : length (closers ks) = length ks.
Proof. unfold closers. rewrite length_map, length_rev. reflexivity. Qed.

Section MixedRuns.
Context {U : Type}.
Variable s : list Z.
Variable len : Z.
Variable cb : option (mjson_cb_t U).
Hypothesis cb_ok : cb_total cb.

(** The containers [ks] open on top of the containers [done]. *)
Lemma opens_mixed (ks : list container) : forall fuel done i nest ud,
  has_at s i (openers ks) -> 0 <= i -> i + Z.of_nat (length (openers ks)) <= len ->
  Z.of_nat (length done + length ks) <= MJSON_MAX_DEPTH ->
  Z.of_nat (length nest) = MJSON_MAX_DEPTH -> stack_is nest done ->
  exists ud' nest',
    mjson_loop s len cb (opens_cost ks + fuel) (Scan i (Z.of_nat (length done)) nest S_VALUE ud)
    = mjson_loop s len cb fuel
        (Scan (i + Z.of_nat (length (openers ks))) (Z.of_nat (length done + length ks))
              nest' S_VALUE ud')
    /\ Z.of_nat (length nest') = MJSON_MAX_DEPTH /\ stack_is nest' (done ++ ks).
Proof.
  induction ks as [|k ks IH]; intros fuel done i nest ud Hs Hi Hlen Hmax Hn Hst.
  - exists ud, nest. cbn [openers opens_cost length Nat.add].
    rewrite Z.add_0_r, Nat.add_0_r, app_nil_r. auto.
  - cbn [openers opens_cost length] in *. rewrite length_app in Hlen.
    apply has_at_app in Hs as [Hk Hks].
    destruct (open_kind_step s len cb cb_ok k (opens_cost ks + fuel) i
                (Z.of_nat (length done)) nest ud) as [ud1 Hstep];
      try assumption; try lia.
    destruct (IH fuel (done ++ [k]) (i + Z.of_nat (length (opener k)))
                (<[Z.to_nat (Z.of_nat (length done)) := open_char k]> nest) ud1)
      as (ud' & nest' & Hrun & Hn' & Hst'); try assumption; try lia.
    + rewrite length_app. cbn [length]. lia.
    + rewrite length_insert. exact Hn.
    + intros j k' Hj. rewrite Nat2Z.id.
      destruct (Nat.eq_dec j (length done)) as [-> | Hne].
      * rewrite lookup_app_r, Nat.sub_diag in Hj by lia. injection Hj as <-.
        apply list_lookup_insert_eq. unfold MJSON_MAX_DEPTH in *. lia.
      * rewrite list_lookup_insert_ne by lia. apply Hst.
        destruct (Nat.lt_ge_cases j (length done)) as [Hlt | Hge].
        -- rewrite lookup_app_l in Hj by lia. exact Hj.
        -- rewrite lookup_app_r in Hj by lia.
           destruct (j - length done)%nat as [|m] eqn:E; [lia|]. discriminate Hj.
    + exists ud', nest'. split; [|split].
      * rewrite <- Nat.add_assoc, Hstep.
        replace (Z.of_nat (length done) + 1) with (Z.of_nat (length (done ++ [k])))
          by (rewrite length_app; cbn [length]; lia).
        rewrite Hrun. do 2 f_equal; rewrite ?length_app; cbn [length]; lia.
      * exact Hn'.
      * rewrite <- app_assoc in Hst'. exact Hst'.
Qed.

(** The containers [stk], innermost first, close one after the other
    and the last closing character ends the scan. *)
Lemma closes_mixed (stk : list container) : forall fuel i nest ud,
  stk <> [] ->
  has_at s i (List.map (fun k => open_char k + 2) stk) ->
  i + Z.of_nat (length stk) <= len -> Z.of_nat (length stk) <= MJSON_MAX_DEPTH ->
  stack_is nest (rev stk) ->
  exists ud',
    mjson_loop s len cb (length stk + fuel) (Scan i (Z.of_nat (length stk)) nest S_COMMA_OR_EOO ud)
    = Val (i + Z.of_nat (length stk), ud').
Proof.
  induction stk as [|k stk IH]; intros fuel i nest ud Hne Hs Hlen Hmax Hst; [contradiction|].
  cbn [List.map length rev] in *. apply has_at_cons in Hs as [Hc Hs].
  assert (Htop : nest !! length stk = Some (open_char k)).
  { apply Hst. rewrite lookup_app_r by (rewrite length_rev; lia).
    rewrite length_rev, Nat.sub_diag. reflexivity. }
  destruct stk as [|k2 stk].
  - destruct (close_kind_last s len cb cb_ok k fuel i nest ud) as [ud' Hlast];
      try assumption; try lia.
    exists ud'. exact Hlast.
  - destruct (close_kind_step s len cb cb_ok k (length (k2 :: stk) + fuel) i
                (Z.of_nat (S (length (k2 :: stk)))) nest ud) as [ud1 Hstep];
      try assumption; try (cbn [length] in *; lia).
    { replace (Z.to_nat (Z.of_nat (S (length (k2 :: stk))) - 1)) with (length (k2 :: stk)) by lia.
      exact Htop. }
    destruct (IH fuel (i + 1) nest ud1) as [ud' Hrun]; try assumption; try lia.
    + discriminate.
    + intros j k' Hj. apply Hst. rewrite lookup_app_l; [exact Hj|].
      apply lookup_lt_Some in Hj. exact Hj.
    + exists ud'. change (S (length (k2 :: stk)) + fuel)%nat with (S (length (k2 :: stk) + fuel)).
      rewrite Hstep.
      replace (Z.of_nat (S (length (k2 :: stk))) - 1) with (Z.of_nat (length (k2 :: stk))) by lia.
      rewrite Hrun. do 2 f_equal. lia.
Qed.
End MixedRuns.

Lemma closers_head (ks : list container) :
  ks <> [] -> exists c tl, closers ks = c :: tl /\ (c = CH_RBRACKET \/ c = CH_RBRACE).
Proof.
  intros Hne. unfold closers.
  destruct (rev ks) as [|k r] eqn:E.
  - apply (f_equal (@length _)) in E. rewrite length_rev in E.
    destruct ks; [contradiction | discriminate].
  - exists (open_char k + 2), (List.map (fun k => open_char k + 2) r).
    split; [reflexivity|]. destruct k; [left | right]; reflexivity.
Qed.

(** C3: with [MJSON_MAX_DEPTH] = 20, on an input that opens 21 or more
    nested containers (arrays or objects, in any mix) [mjson] returns
    [MJSON_ERROR_TOO_DEEP], whatever follows; a value nested in [1] to
    [20] containers (exactly 20 included) is scanned with success and
    [mjson] returns its length, the number of bytes consumed, whatever
    follows the value.  The callback may be any that does not fail. *)
Theorem mjson_depth_limit {U : Type} (cb : option (mjson_cb_t U)) (ud : U)
    (ks : list container) (rest : list Z) (len : Z) :
  cb_total cb ->
  ((21 <= length ks)%nat -> Z.of_nat (length (openers ks)) <= len ->
   exists ud', mjson (openers ks ++ rest) len cb ud = Val (MJSON_ERROR_TOO_DEEP, ud'))
  /\
  ((1 <= length ks <= 20)%nat -> Z.of_nat (length (nested ks [49])) <= len ->
   exists ud', mjson (nested ks [49] ++ rest) len cb ud
               = Val (Z.of_nat (length (nested ks [49])), ud')).
Proof.
  intros Hcb. unfold mjson, mjson_run, mjson_init, mjson_fuel.
  assert (Hn0 : Z.of_nat (length (replicate (Z.to_nat MJSON_MAX_DEPTH) 0)) = MJSON_MAX_DEPTH)
    by (rewrite length_replicate; reflexivity).
  assert (Hst0 : stack_is (replicate (Z.to_nat MJSON_MAX_DEPTH) 0) [])
    by (intros j k Hj; discriminate Hj).
  split.
  - intros Hks Hlen.
    rewrite <- (take_drop 20 ks) in Hlen |- *.
    assert (Hl1 : length (take 20 ks) = 20%nat) by (rewrite length_take; lia).
    destruct (drop 20 ks) as [|k ks2] eqn:Ed.
    { apply (f_equal (@length _)) in Ed. rewrite length_drop in Ed. cbn in Ed. lia. }
    set (ks1 := take 20 ks) in *.
    rewrite openers_app in Hlen |- *. cbn [openers] in Hlen |- *.
    rewrite !length_app in Hlen.
    assert (Hk1 : (1 <= length (opener k))%nat) by (destruct k; cbn; lia).
    pose proof (length_openers_cost ks1) as [_ Hcost].
    set (s := (openers ks1 ++ opener k ++ openers ks2) ++ rest).
    assert (Hs1 : has_at s 0 (openers ks1)).
    { unfold s. rewrite <- app_assoc. exact (has_at_here [] (openers ks1) _). }
    assert (Hs2 : has_at s (Z.of_nat (length (openers ks1))) (opener k)).
    { unfold s. rewrite <- !app_assoc. apply has_at_here. }
    replace (S (Z.to_nat (2 * len + 1)))
      with (opens_cost ks1 + S (Z.to_nat (2 * len + 1) - opens_cost ks1))%nat by lia.
    destruct (opens_mixed s len cb Hcb ks1 (S (Z.to_nat (2 * len + 1) - opens_cost ks1))
                [] 0 (replicate (Z.to_nat MJSON_MAX_DEPTH) 0) ud)
      as (ud' & nest' & Hrun & _ & _); try assumption;
      try (unfold MJSON_MAX_DEPTH; cbn [length]; lia).
    exists ud'. cbn [length Nat.add] in Hrun. change (Z.of_nat 0) with 0 in Hrun.
    rewrite Hrun. apply (open_kind_too_deep s len cb k).
    + rewrite Z.add_0_l. exact Hs2.
    + lia.
    + unfold MJSON_MAX_DEPTH. lia.
  - intros Hks Hlen. unfold nested in *. rewrite !length_app, length_closers in Hlen |- *.
    cbn [length] in Hlen |- *.
    assert (Hne : ks <> []) by (destruct ks; [cbn in Hks; lia | discriminate]).
    destruct (closers_head ks Hne) as (c & tl & Hcl & Hc).
    pose proof (length_openers_cost ks) as [_ Hcost].
    set (s := (openers ks ++ [49] ++ closers ks) ++ rest).
    assert (Hs1 : has_at s 0 (openers ks)).
    { unfold s. rewrite <- app_assoc. exact (has_at_here [] (openers ks) _). }
    assert (Hs2 : has_at s (Z.of_nat (length (openers ks))) [49]).
    { unfold s. rewrite <- !app_assoc. apply has_at_here. }
    assert (Hs3 : has_at s (Z.of_nat (length (openers ks)) + 1) (closers ks)).
    { unfold s. replace ((openers ks ++ [49] ++ closers ks) ++ rest)
        with ((openers ks ++ [49]) ++ closers ks ++ rest) by (rewrite <- !app_assoc; reflexivity).
      replace (Z.of_nat (length (openers ks)) + 1) with (Z.of_nat (length (openers ks ++ [49])))
        by (rewrite length_app; cbn [length]; lia).
      apply has_at_here. }
    apply has_at_cons in Hs2 as [H49 _].
    assert (Hc1 : sget s (Z.of_nat (length (openers ks)) + 1) = c).
    { rewrite Hcl in Hs3. apply has_at_cons in Hs3 as [H _]. exact H. }
    replace (S (Z.to_nat (2 * len + 1)))
      with (opens_cost ks + S (length (rev ks)
              + (Z.to_nat (2 * len + 1) - opens_cost ks - length ks)))%nat
      by (rewrite length_rev; lia).
    destruct (opens_mixed s len cb Hcb ks
                (S (length (rev ks) + (Z.to_nat (2 * len + 1) - opens_cost ks - length ks)))
                [] 0 (replicate (Z.to_nat MJSON_MAX_DEPTH) 0) ud)
      as (ud1 & nest' & Hrun & _ & Hst'); try assumption;
      try (unfold MJSON_MAX_DEPTH; cbn [length]; lia).
    cbn [length Nat.add app] in Hrun, Hst'. change (Z.of_nat 0) with 0 in Hrun.
    rewrite Z.add_0_l in Hrun. rewrite Hrun.
    destruct (number_step s len cb Hcb
                (length (rev ks) + (Z.to_nat (2 * len + 1) - opens_cost ks - length ks))
                (Z.of_nat (length (openers ks))) (Z.of_nat (length ks)) nest' ud1 c)
      as [ud2 Hnum]; try assumption; try lia.
    rewrite Hnum.
    destruct (closes_mixed s len cb Hcb (rev ks)
                (Z.to_nat (2 * len + 1) - opens_cost ks - length ks)
                (Z.of_nat (length (openers ks)) + 1) nest' ud2)
      as [ud' Hclose]; try (rewrite ?length_rev; unfold MJSON_MAX_DEPTH; lia).
    + intros E. apply (f_equal (@length _)) in E. rewrite length_rev in E. cbn in E. lia.
    + exact Hs3.
    + rewrite rev_involutive. exact Hst'.
    + exists ud'. rewrite length_rev in Hclose |- *. rewrite Hclose. do 2 f_equal. lia.
Qed.

Lemma mjson_depth_limit_witness :
  (exists ud', mjson (openers (replicate 10 Obj ++ replicate 11 Arr) ++ []) 61 None tt
               = Val (MJSON_ERROR_TOO_DEEP, ud'))
  /\
  (exists ud', mjson (nested (replicate 10 Obj ++ replicate 10 Arr) [49] ++ []) 81 None tt
               = Val (Z.of_nat (length (nested (replicate 10 Obj ++ replicate 10 Arr) [49])), ud')).
Proof.
  assert (Hcb : cb_total (@None (mjson_cb_t unit))) by (intros f Hf; discriminate Hf).
  split.
  - apply (proj1 (mjson_depth_limit None tt (replicate 10 Obj ++ replicate 11 Arr) [] 61 Hcb));
      [vm_compute; lia | vm_compute; discriminate].
  - apply (proj2 (mjson_depth_limit None tt (replicate 10 Obj ++ replicate 10 Arr) [] 81 Hcb));
      [vm_compute; lia | vm_compute; discriminate].
Defined.

(** The inputs of the witness, computed with a callback that records the
    events. *)
Example mjson_depth_mixed :
  fst <$> mjson (openers (replicate 10 Obj ++ replicate 11 Arr)) 61 (Some trace_cb) []
    = Val MJSON_ERROR_TOO_DEEP
  /\ fst <$> mjson (nested (replicate 10 Obj ++ replicate 10 Arr) [49]) 81 (Some trace_cb) []
    = Val 81.
Proof. vm_compute. split; reflexivity. Qed.

(* ------------------------------------------------------------------ *)
(** ** The resolver always comes to an outcome *)

(** The fuel given to the loops is never what stops [mjson_find] or
    [mjson_find_string]: on every buffer, length, path and destination
    they return a value or run into an undefined behaviour of the C
    code. *)
Theorem mjson_find_settles (s : list Z) (len : Z) (jp to : list Z) (n : Z) (tp tl : dest) :
  settled (mjson_find s len jp tp tl) /\ settled (mjson_find_string s len jp to n).
Proof.
  split.
  - pose proof (mjson_find_total s len jp tp tl) as H.
    destruct (mjson_find s len jp tp tl); cbn; [exact I | exact I | congruence].
  - pose proof (mjson_find_string_total s len jp to n) as H.
    destruct (mjson_find_string s len jp to n); cbn; [exact I | exact I | congruence].
Qed.

(* ================================================================== *)
(** * Further properties of the code *)

(* ------------------------------------------------------------------ *)
(** ** Escape codec: which bytes have an escape *)

(** [mjson_esc c 1] is non-zero exactly for the 8 special characters and
    [mjson_esc c 0] exactly for the 8 escape letters, [c] taken as a
    [char]; in particular NUL, which [strchr] finds at the terminator of
    either table, has no escape. *)
Theorem mjson_esc_found (c : Z) :
  (mjson_esc c 1 <> 0 <-> In (c mod 256) esc1)
  /\ (mjson_esc c 0 <> 0 <-> In (c mod 256) esc2).
Proof.
  unfold mjson_esc, esc1, esc2. generalize (c mod 256). intros x.
  change (1 =? 0) with false. change (0 =? 0) with true. cbn [strchr In].
  split;
    repeat match goal with
           | |- context [?a =? ?b] => destruct (Z.eqb_spec a b)
           end; cbn; split; intros H; try lia; try tauto;
      try (exfalso; apply H; reflexivity); try discriminate.
Qed.

(* ------------------------------------------------------------------ *)
(** ** String scanning: what a returned index means *)

Lemma mjson_esc_nul : mjson_esc 0 1 = 0.
Proof. reflexivity. Qed.

Lemma pass_string_loop_sound (s : list Z) (len : Z) (fuel : nat) : forall i,
  0 <= pass_string_loop fuel s len i ->
  i <= pass_string_loop fuel s len i < len
  /\ sget s (pass_string_loop fuel s len i) = CH_DQUOTE
  /\ (forall j, i <= j < pass_string_loop fuel s len i -> sget s j <> 0)
  /\ (forall j, i <= j < pass_string_loop fuel s len i -> sget s j = CH_DQUOTE ->
        i < j /\ sget s (j - 1) = CH_BACKSLASH).
Proof.
  induction fuel as [|fuel IH]; intros i; cbn [pass_string_loop].
  { unfold MJSON_ERROR_INVALID_INPUT. lia. }
  destruct (Z.ltb_spec i len) as [Hi | Hi]; [|unfold MJSON_ERROR_INVALID_INPUT; lia].
  destruct ((sget s i =? CH_BACKSLASH) && (i + 1 <? len)
            && negb (mjson_esc (sget s (i + 1)) 1 =? 0)) eqn:Hskip.
  - apply andb_true_iff in Hskip as [Hskip Hesc].
    apply andb_true_iff in Hskip as [Hbs Hi1].
    apply Z.eqb_eq in Hbs. apply negb_true_iff, Z.eqb_neq in Hesc.
    intros Hr. destruct (IH (i + 1 + 1) Hr) as (Hrange & Hq & Hnul & Hquo).
    split; [lia|]. split; [exact Hq|]. split.
    + intros j Hj. destruct (Z.eq_dec j i) as [-> | Hji]; [rewrite Hbs; lia|].
      destruct (Z.eq_dec j (i + 1)) as [-> | Hji1].
      * intros H0. apply Hesc. rewrite H0. exact mjson_esc_nul.
      * apply Hnul. lia.
    + intros j Hj Hjq. destruct (Z.eq_dec j i) as [-> | Hji]; [rewrite Hbs in Hjq; lia|].
      destruct (Z.eq_dec j (i + 1)) as [-> | Hji1].
      * split; [lia|]. replace (i + 1 - 1) with i by lia. exact Hbs.
      * destruct (Hquo j ltac:(lia) Hjq) as [? ?]. split; [lia | assumption].
  - destruct (Z.eqb_spec (sget s i) 0) as [H0 | H0]; [unfold MJSON_ERROR_INVALID_INPUT; lia|].
    destruct (Z.eqb_spec (sget s i) CH_DQUOTE) as [Hq | Hq].
    + intros _. split; [lia|]. split; [exact Hq|]. split; intros j Hj; lia.
    + intros Hr. destruct (IH (i + 1) Hr) as (Hrange & Hq' & Hnul & Hquo).
      split; [lia|]. split; [exact Hq'|]. split.
      * intros j Hj. destruct (Z.eq_dec j i) as [-> | Hji]; [exact H0 | apply Hnul; lia].
      * intros j Hj Hjq. destruct (Z.eq_dec j i) as [-> | Hji]; [contradiction|].
        destruct (Hquo j ltac:(lia) Hjq) as [? ?]. split; [lia | assumption].
Qed.

(** When [mjson_pass_string] returns an index [r >= 0]: [r] is inside
    the [len] bytes, the byte at [r] is a double quote, no byte before
    [r] is NUL, and every double quote before [r] comes right after a
    backslash. *)
Theorem mjson_pass_string_sound (s : list Z) (len : Z) :
  0 <= mjson_pass_string s len ->
  0 <= mjson_pass_string s len < len
  /\ sget s (mjson_pass_string s len) = CH_DQUOTE
  /\ (forall j, 0 <= j < mjson_pass_string s len -> sget s j <> 0)
  /\ (forall j, 0 <= j < mjson_pass_string s len -> sget s j = CH_DQUOTE ->
        0 < j /\ sget s (j - 1) = CH_BACKSLASH).
Proof. apply pass_string_loop_sound. Qed.

Lemma mjson_pass_string_sound_witness :
  let s := json "a\'b' tail" in
  0 <= mjson_pass_string s 10 < 10
  /\ sget s (mjson_pass_string s 10) = CH_DQUOTE
  /\ (forall j, 0 <= j < mjson_pass_string s 10 -> sget s j <> 0)
  /\ (forall j, 0 <= j < mjson_pass_string s 10 -> sget s j = CH_DQUOTE ->
        0 < j /\ sget s (j - 1) = CH_BACKSLASH).
Proof.
  apply (mjson_pass_string_sound (json "a\'b' tail") 10). vm_compute. discriminate.
Defined.

(* ------------------------------------------------------------------ *)
(** ** Tokenizer: input with no value *)

(** On an input of white space only, the empty input and a length that
    is zero or negative included, [mjson] returns
    [MJSON_ERROR_INVALID_INPUT] and the callback is not called. *)
Theorem mjson_blank {U : Type} (s : list Z) (len : Z) (cb : option (mjson_cb_t U)) (ud : U) :
  all_ws s 0 len -> mjson s len cb ud = Val (MJSON_ERROR_INVALID_INPUT, ud).
Proof.
  intros Hws. unfold mjson, mjson_run, mjson_init, mjson_fuel.
  replace (S (Z.to_nat (2 * len + 1)))
    with (Z.to_nat len + S (Z.to_nat (2 * len + 1) - Z.to_nat len))%nat by lia.
  destruct (Z.le_gt_cases len 0) as [Hle | Hgt].
  - replace (Z.to_nat len) with O by lia. cbn [Nat.add mjson_loop sc_i sc_ud].
    destruct (Z.ltb_spec 0 len); [lia | reflexivity].
  - rewrite ws_run.
    + cbn [mjson_loop sc_i sc_ud].
      destruct (Z.ltb_spec (0 + Z.of_nat (Z.to_nat len)) len); [lia | reflexivity].
    + intros j Hj. apply Hws. lia.
    + lia.
Qed.

Lemma mjson_blank_witness :
  mjson [CH_SPACE; CH_LF; CH_TAB] 3 (Some trace_cb) [] = Val (MJSON_ERROR_INVALID_INPUT, []).
Proof.
  apply (mjson_blank [CH_SPACE; CH_LF; CH_TAB] 3 (Some trace_cb) []).
  intros j Hj. assert (j = 0 \/ j = 1 \/ j = 2) as [-> | [-> | ->]] by lia;
    unfold is_ws; cbn; tauto.
Defined.

(* ------------------------------------------------------------------ *)
(** ** The fixed-capacity sink *)

Lemma length_bytes_between (s : list Z) (i len : Z) :
  length (bytes_between s i len) = Z.to_nat (len - i).
Proof. unfold bytes_between. rewrite length_map, length_seq. reflexivity. Qed.

Lemma length_span_bytes (s : list Z) (n : Z) : length (span_bytes s n) = Z.to_nat n.
Proof. unfold span_bytes. rewrite length_bytes_between. f_equal. lia. Qed.

Lemma span_bytes_nil (s : list Z) (n : Z) : n <= 0 -> span_bytes s n = [].
Proof. intros H. unfold span_bytes. apply bytes_between_nil. exact H. Qed.

Lemma lookup_span_bytes (s : list Z) (n : Z) (k : nat) :
  (k < Z.to_nat n)%nat -> span_bytes s n !! k = Some (sget s (Z.of_nat k)).
Proof.
  intros Hk. unfold span_bytes, bytes_between.
  change (List.map ?f ?l) with (f <$> l).
  rewrite list_lookup_fmap, lookup_seq_lt by lia. reflexivity.
Qed.

(** The bytes of a list, read back through [sget]. *)
Lemma span_bytes_take (l : list Z) (k : Z) :
  0 <= k <= Z.of_nat (length l) -> span_bytes l k = take (Z.to_nat k) l.
Proof.
  intros Hk. apply list_eq. intros j.
  destruct (Nat.lt_ge_cases j (Z.to_nat k)) as [Hj | Hj].
  - rewrite lookup_span_bytes, lookup_take_lt by lia.
    unfold sget. destruct (Z.ltb_spec (Z.of_nat j) 0); [lia|].
    rewrite Nat2Z.id, nth_lookup.
    destruct (lookup_lt_is_Some_2 l j ltac:(lia)) as [x Hx]. rewrite Hx. reflexivity.
  - rewrite !lookup_ge_None_2; [reflexivity | rewrite length_take; lia |
      rewrite length_span_bytes; lia].
Qed.

Lemma span_bytes_all (l : list Z) : span_bytes l (Z.of_nat (length l)) = l.
Proof. rewrite span_bytes_take by lia. rewrite Nat2Z.id. apply firstn_all. Qed.

Lemma take_span_bytes (s : list Z) (k n : Z) :
  0 <= k <= n -> take (Z.to_nat k) (span_bytes s n) = span_bytes s k.
Proof.
  intros Hk. rewrite <- (span_bytes_take (span_bytes s n)) by (rewrite length_span_bytes; lia).
  apply list_eq. intros j.
  destruct (Nat.lt_ge_cases j (Z.to_nat k)) as [Hj | Hj].
  - rewrite !lookup_span_bytes by lia. f_equal.
    unfold sget at 1. destruct (Z.ltb_spec (Z.of_nat j) 0); [lia|].
    rewrite Nat2Z.id, nth_lookup, lookup_span_bytes by lia. reflexivity.
  - rewrite !lookup_ge_None_2; [reflexivity | | ]; rewrite length_span_bytes; lia.
Qed.

Lemma copy_loop_spec (src : list Z) (base : Z) (k : nat) : forall pre mid suf i,
  length mid = k -> base + i = Z.of_nat (length pre) -> 0 <= i ->
  copy_loop k src (pre ++ mid ++ suf) base i
  = Val (pre ++ bytes_between src i (i + Z.of_nat k) ++ suf).
Proof.
  induction k as [|k IH]; intros pre mid suf i Hm Hb Hi.
  - destruct mid; [|discriminate]. rewrite bytes_between_nil by lia. reflexivity.
  - destruct mid as [|x mid]; [discriminate|]. injection Hm as Hm.
    cbn [copy_loop app]. rewrite Hb, buf_set_app. cbn [mbind res_bind].
    replace (pre ++ sget src i :: mid ++ suf) with ((pre ++ [sget src i]) ++ mid ++ suf)
      by (rewrite <- app_assoc; reflexivity).
    rewrite IH; [|exact Hm|rewrite length_app; cbn [length]; lia|lia].
    rewrite (bytes_between_cons src i) by lia.
    rewrite <- app_assoc. cbn [app].
    replace (i + Z.of_nat (S k)) with (i + 1 + Z.of_nat k) by lia. reflexivity.
Qed.

Lemma fixed_buf_write (ptr : list Z) (len : Z) (fb : mjson_fixed_buf) :
  fb_inv fb -> 0 <= len ->
  let m := Z.min len (fb_size fb - fb_len fb) in
  let fb' := FixedBuf (take (Z.to_nat (fb_len fb)) (fb_ptr fb) ++ span_bytes ptr m
                       ++ drop (Z.to_nat (fb_len fb + m)) (fb_ptr fb))
                      (fb_size fb) (fb_len fb + m) in
  mjson_fixed_buf_printer ptr len fb = Val (m, fb') /\ fb_inv fb'.
Proof.
  intros [Hlen Hmem] Hn. cbv zeta. unfold mjson_fixed_buf_printer.
  set (m := Z.min len (fb_size fb - fb_len fb)).
  assert (Hm : (if len >? fb_size fb - fb_len fb then fb_size fb - fb_len fb else len) = m).
  { unfold m. destruct (Z.gtb_spec len (fb_size fb - fb_len fb)); lia. }
  rewrite Hm. assert (Hm0 : 0 <= m) by (unfold m; lia).
  assert (Hm1 : fb_len fb + m <= fb_size fb) by (unfold m; lia).
  split.
  - rewrite <- (take_drop (Z.to_nat (fb_len fb)) (fb_ptr fb)) at 1.
    rewrite <- (take_drop (Z.to_nat m) (drop (Z.to_nat (fb_len fb)) (fb_ptr fb))).
    rewrite copy_loop_spec.
    + cbn [mbind res_bind]. rewrite drop_drop. unfold span_bytes.
      replace (0 + Z.of_nat (Z.to_nat m)) with m by lia.
      replace (Z.to_nat (fb_len fb) + Z.to_nat m)%nat with (Z.to_nat (fb_len fb + m)) by lia.
      reflexivity.
    + rewrite length_take, length_drop. lia.
    + rewrite length_take. lia.
    + lia.
  - unfold fb_inv. cbn [fb_len fb_size fb_ptr]. split; [lia|].
    rewrite !length_app, length_take, length_drop, length_span_bytes. lia.
Qed.

(** One write into a consistent fixed buffer: the sink accepts the
    bytes that fit, [min len (size - len0)] of them, reports that
    number, appends exactly those bytes after the ones it holds, leaves
    everything else as it was and stays consistent; nothing is stored
    outside the buffer. *)
Theorem mjson_fixed_buf_printer_spec (ptr : list Z) (len : Z) (fb : mjson_fixed_buf) :
  fb_inv fb -> 0 <= len ->
  let m := Z.min len (fb_size fb - fb_len fb) in
  let fb' := FixedBuf (take (Z.to_nat (fb_len fb)) (fb_ptr fb) ++ span_bytes ptr m
                       ++ drop (Z.to_nat (fb_len fb + m)) (fb_ptr fb))
                      (fb_size fb) (fb_len fb + m) in
  mjson_fixed_buf_printer ptr len fb = Val (m, fb') /\ fb_inv fb'.
Proof. exact (fixed_buf_write ptr len fb). Qed.

Lemma mjson_fixed_buf_printer_spec_witness :
  mjson_fixed_buf_printer (bytes "hello") 5 (FixedBuf [0; 0; 0] 3 0)
    = Val (3, FixedBuf (bytes "hel") 3 3)
  /\ fb_inv (FixedBuf (bytes "hel") 3 3).
Proof.
  assert (Hinv : fb_inv (FixedBuf [0; 0; 0] 3 0)) by (unfold fb_inv; cbn; lia).
  exact (mjson_fixed_buf_printer_spec (bytes "hello") 5 (FixedBuf [0; 0; 0] 3 0) Hinv
           ltac:(lia)).
Defined.

Lemma span_bytes_app (p q : list Z) (n m k1 k2 : Z) :
  0 <= k1 <= n -> 0 <= k2 <= m -> (k1 < n -> k2 = 0) ->
  span_bytes (span_bytes p n ++ span_bytes q m) (k1 + k2) = span_bytes p k1 ++ span_bytes q k2.
Proof.
  intros H1 H2 H12.
  rewrite span_bytes_take by (rewrite length_app, !length_span_bytes; lia).
  destruct (Z.eq_dec k1 n) as [-> | Hne].
  - rewrite take_app_ge by (rewrite length_span_bytes; lia).
    rewrite length_span_bytes.
    replace (Z.to_nat (n + k2) - Z.to_nat n)%nat with (Z.to_nat k2) by lia.
    rewrite take_span_bytes by lia. reflexivity.
  - rewrite (H12 ltac:(lia)), Z.add_0_r.
    rewrite take_app_le by (rewrite length_span_bytes; lia).
    rewrite take_span_bytes by lia. rewrite (span_bytes_nil q 0) by lia.
    rewrite app_nil_r. reflexivity.
Qed.

Lemma fixed_buf_write_app (p q : list Z) (n m : Z) (fb : mjson_fixed_buf) :
  fb_inv fb -> 0 <= n -> 0 <= m ->
  ('(r1, fb1) ← mjson_fixed_buf_printer p n fb;
   '(r2, fb2) ← mjson_fixed_buf_printer q m fb1;
   Val (r1 + r2, fb2))
  = mjson_fixed_buf_printer (span_bytes p n ++ span_bytes q m) (n + m) fb.
Proof.
  intros Hinv Hn Hm.
  destruct (fixed_buf_write p n fb Hinv Hn) as [E1 Hinv1].
  rewrite E1. cbn [mbind res_bind].
  destruct (fixed_buf_write q m _ Hinv1 Hm) as [E2 _].
  rewrite E2. cbn [mbind res_bind fb_len fb_size fb_ptr].
  destruct (fixed_buf_write (span_bytes p n ++ span_bytes q m) (n + m) fb Hinv
              ltac:(lia)) as [E3 _].
  rewrite E3. clear E1 E2 E3 Hinv1.
  destruct Hinv as [Hlen Hmem].
  set (L := fb_len fb) in *. set (S := fb_size fb) in *. set (old := fb_ptr fb) in *.
  set (m1 := Z.min n (S - L)). set (m2 := Z.min m (S - (L + m1))).
  assert (H3 : Z.min (n + m) (S - L) = m1 + m2) by (unfold m1, m2; lia).
  rewrite H3.
  assert (Ha : length (take (Z.to_nat L) old) = Z.to_nat L) by (rewrite length_take; lia).
  assert (Hb : length (span_bytes p m1) = Z.to_nat m1) by apply length_span_bytes.
  assert (Ht : take (Z.to_nat (L + m1))
                 (take (Z.to_nat L) old ++ span_bytes p m1 ++ drop (Z.to_nat (L + m1)) old)
               = take (Z.to_nat L) old ++ span_bytes p m1).
  { rewrite app_assoc.
    rewrite take_app_le by (rewrite length_app, Ha, Hb; unfold m1; lia).
    apply firstn_all2. rewrite length_app, Ha, Hb. unfold m1. lia. }
  assert (Hd : drop (Z.to_nat (L + m1 + m2))
                 (take (Z.to_nat L) old ++ span_bytes p m1 ++ drop (Z.to_nat (L + m1)) old)
               = drop (Z.to_nat (L + (m1 + m2))) old).
  { rewrite app_assoc, drop_app_ge by (rewrite length_app, Ha, Hb; unfold m1, m2; lia).
    rewrite length_app, Ha, Hb, drop_drop. f_equal. unfold m1, m2. lia. }
  assert (Hs : span_bytes (span_bytes p n ++ span_bytes q m) (m1 + m2)
               = span_bytes p m1 ++ span_bytes q m2).
  { apply span_bytes_app; unfold m1, m2; lia. }
  rewrite Ht, Hd, Hs, <- !app_assoc.
  replace (L + m1 + m2) with (L + (m1 + m2)) by lia. reflexivity.
Qed.

(** Two writes into a consistent fixed buffer are one write of the two
    texts joined: the same bytes are stored, the same state is reached
    and the two reported counts add up to the count of the single
    write. *)
Theorem mjson_fixed_buf_printer_compose (p q : list Z) (n m : Z) (fb : mjson_fixed_buf) :
  fb_inv fb -> 0 <= n -> 0 <= m ->
  ('(r1, fb1) ← mjson_fixed_buf_printer p n fb;
   '(r2, fb2) ← mjson_fixed_buf_printer q m fb1;
   Val (r1 + r2, fb2))
  = mjson_fixed_buf_printer (span_bytes p n ++ span_bytes q m) (n + m) fb.
Proof. exact (fixed_buf_write_app p q n m fb). Qed.

Lemma mjson_fixed_buf_printer_compose_witness :
  ('(r1, fb1) ← mjson_fixed_buf_printer (bytes "ab") 2 (FixedBuf [0; 0; 0] 3 0);
   '(r2, fb2) ← mjson_fixed_buf_printer (bytes "cd") 2 fb1;
   Val (r1 + r2, fb2))
  = mjson_fixed_buf_printer (span_bytes (bytes "ab") 2 ++ span_bytes (bytes "cd") 2) (2 + 2)
      (FixedBuf [0; 0; 0] 3 0).
Proof.
  apply (mjson_fixed_buf_printer_compose (bytes "ab") (bytes "cd") 2 2 (FixedBuf [0; 0; 0] 3 0));
    [unfold fb_inv; cbn; lia | lia | lia].
Defined.

(* ------------------------------------------------------------------ *)
(** ** Printing a string, and reading it back *)

Lemma esc_special_cases (c : Z) :
  is_byte c -> mjson_esc c 1 <> 0 -> In c esc1.
Proof.
  unfold is_byte, mjson_esc, esc1, esc2. intros Hc.
  rewrite Z.mod_small by lia.
  change (1 =? 0) with false. cbn [strchr In].
  repeat match goal with
         | |- context [?a =? ?b] => destruct (Z.eqb_spec a b)
         end; cbn; intros H; try lia; try tauto; exfalso; apply H; reflexivity.
Qed.

Lemma esc_plain_cases (c : Z) :
  mjson_esc c 1 = 0 -> c <> CH_BACKSLASH /\ c <> CH_DQUOTE.
Proof. intros H. split; intros ->; discriminate H. Qed.

Lemma esc_unesc (c : Z) :
  is_byte c -> mjson_esc c 1 <> 0 -> mjson_esc (mjson_esc c 1) 0 = c.
Proof.
  intros Hc Hn. pose proof (esc_special_cases c Hc Hn) as Hin.
  unfold esc1 in Hin. cbn [In] in Hin.
  repeat match goal with H : _ \/ _ |- _ => destruct H as [H | H] end;
    try contradiction; subst c; reflexivity.
Qed.

Lemma take_1_sfrom (s : list Z) (i : Z) :
  0 <= i < Z.of_nat (length s) -> take 1 (sfrom s i) = [sget s i].
Proof.
  intros Hi. unfold sfrom, sget. destruct (Z.ltb_spec i 0); [lia|].
  destruct (lookup_lt_is_Some_2 s (Z.to_nat i) ltac:(lia)) as [x Hx].
  rewrite (drop_S _ _ _ Hx), nth_lookup, Hx. reflexivity.
Qed.

Lemma escaped_cons (c : Z) (t : list Z) : escaped (c :: t) = escape_byte c ++ escaped t.
Proof. reflexivity. Qed.

Lemma collect_eq (p : list Z) (n : Z) (out : list Z) :
  collect p n out = Val (n, out ++ take (Z.to_nat n) p).
Proof. reflexivity. Qed.

Lemma print_str_loop_collect (s : list Z) (k : nat) : forall i n out,
  0 <= i -> i + Z.of_nat k <= Z.of_nat (length s) ->
  print_str_loop k s i n collect out
  = Val (n + Z.of_nat (length (escaped (bytes_between s i (i + Z.of_nat k)))),
         out ++ escaped (bytes_between s i (i + Z.of_nat k))).
Proof.
  induction k as [|k IH]; intros i n out Hi Hk.
  - rewrite bytes_between_nil by lia. cbn. rewrite Z.add_0_r, app_nil_r. reflexivity.
  - cbn [print_str_loop]. rewrite (bytes_between_cons s i) by lia.
    replace (i + Z.of_nat (S k)) with (i + 1 + Z.of_nat k) by lia.
    rewrite escaped_cons. unfold escape_byte at 1 2.
    destruct (mjson_esc (sget s i) 1 =? 0) eqn:E; cbn [negb].
    + rewrite collect_eq. cbn [mbind res_bind].
      change (Z.to_nat 1) with 1%nat. rewrite take_1_sfrom by lia.
      rewrite IH by lia. rewrite length_app. cbn [length app].
      rewrite <- app_assoc. cbn [app]. do 2 f_equal. lia.
    + rewrite collect_eq. cbn [mbind res_bind]. rewrite collect_eq. cbn [mbind res_bind].
      change (Z.to_nat 1) with 1%nat. cbn [take firstn].
      rewrite IH by lia. rewrite length_app. cbn [length app].
      rewrite <- !app_assoc. cbn [app]. do 2 f_equal. lia.
Qed.

Lemma print_str_literal (text out : list Z) :
  mjson_print_str text (Z.of_nat (length text)) collect out
  = Val (Z.of_nat (length (literal text)), out ++ literal text).
Proof.
  unfold mjson_print_str. rewrite collect_eq. cbn [mbind res_bind].
  rewrite Nat2Z.id, print_str_loop_collect by lia.
  cbn [mbind res_bind]. rewrite collect_eq. cbn [mbind res_bind].
  rewrite Z.add_0_l. fold (span_bytes text (Z.of_nat (length text))).
  rewrite span_bytes_all. unfold literal.
  change (Z.to_nat 1) with 1%nat. cbn [take firstn length app].
  rewrite length_app. cbn [length]. rewrite <- !app_assoc. cbn [app].
  do 2 f_equal. lia.
Qed.

(** With a sink that accepts everything, [mjson_print_str] emits the
    string literal of the text, that is the opening quote, each byte
    with its escape where it has one, the closing quote, and returns
    the number of bytes of the literal. *)
Theorem mjson_print_str_collect (text out : list Z) :
  mjson_print_str text (Z.of_nat (length text)) collect out
  = Val (Z.of_nat (length (literal text)), out ++ literal text).
Proof. apply print_str_literal. Qed.

Lemma escaped_decoded (text : list Z) :
  Forall is_byte text -> decoded (escaped text) = Some text.
Proof.
  induction 1 as [|c t Hc Ht IH]; [reflexivity|].
  rewrite escaped_cons. unfold escape_byte.
  destruct (Z.eqb_spec (mjson_esc c 1) 0) as [E | E]; cbn [app].
  - destruct (esc_plain_cases c E) as [Hb _].
    rewrite decoded_plain by exact Hb. rewrite IH. reflexivity.
  - rewrite decoded_escape, (esc_unesc c Hc E).
    destruct (Z.eqb_spec c 0) as [-> | H0]; [exfalso; apply E; reflexivity|].
    rewrite IH. reflexivity.
Qed.

(** Escaping and then unescaping is the identity: [mjson_unescape],
    run on the body of the literal [mjson_print_str] emits for a text of
    bytes, gives the text back, followed by a NUL, when the destination
    has room for both. *)
Theorem mjson_print_str_unescape (text to : list Z) (n : Z) :
  Forall is_byte text ->
  Z.of_nat (length text) < n -> n <= Z.of_nat (length to) ->
  exists lit,
    mjson_print_str text (Z.of_nat (length text)) collect [] = Val (Z.of_nat (length lit), lit)
    /\ mjson_unescape (sfrom lit 1) (Z.of_nat (length lit) - 2) to n
       = Val (Z.of_nat (length text), text ++ 0 :: drop (S (length text)) to).
Proof.
  intros Hb Hn Hcap. exists (literal text). split.
  - apply (print_str_literal text []).
  - unfold literal. change (sfrom (CH_DQUOTE :: escaped text ++ [CH_DQUOTE]) 1)
      with (escaped text ++ [CH_DQUOTE]).
    cbn [length]. rewrite length_app. cbn [length].
    apply mjson_unescape_ok; [|exact Hn|exact Hcap].
    replace (Z.of_nat (S (length (escaped text) + 1)) - 2)
      with (Z.of_nat (length (escaped text))) by lia.
    rewrite span_bytes_take by (rewrite length_app; lia).
    rewrite Nat2Z.id, take_app_length. apply escaped_decoded. exact Hb.
Qed.

Lemma mjson_print_str_unescape_witness :
  exists lit,
    mjson_print_str [97; CH_LF; CH_DQUOTE; CH_BACKSLASH] 4 collect []
      = Val (Z.of_nat (length lit), lit)
    /\ mjson_unescape (sfrom lit 1) (Z.of_nat (length lit) - 2) [7; 7; 7; 7; 7; 7] 5
       = Val (4, [97; CH_LF; CH_DQUOTE; CH_BACKSLASH; 0; 7]).
Proof.
  apply (mjson_print_str_unescape [97; CH_LF; CH_DQUOTE; CH_BACKSLASH] [7; 7; 7; 7; 7; 7] 5).
  - repeat constructor; unfold is_byte; lia.
  - cbn. lia.
  - cbn. lia.
Defined.

(* ------------------------------------------------------------------ *)
(** ** The tokenizer reads what the printer writes *)

Lemma sget_app_here (pre rest : list Z) (k : Z) :
  0 <= k -> sget (pre ++ rest) (Z.of_nat (length pre) + k) = sget rest k.
Proof. apply sget_app_r. Qed.

Lemma length_escape_byte (c : Z) : (1 <= length (escape_byte c) <= 2)%nat.
Proof. unfold escape_byte. destruct (mjson_esc c 1 =? 0); cbn; lia. Qed.

(** The body of a literal is passed up to its closing quote. *)
Lemma pass_string_escaped (text : list Z) :
  Forall is_byte text -> Forall (fun c => c <> 0) text ->
  forall pre rest len fuel,
    Z.of_nat (length pre + length (escaped text)) < len ->
    (Z.to_nat (len - Z.of_nat (length pre)) <= fuel)%nat ->
    pass_string_loop fuel (pre ++ escaped text ++ CH_DQUOTE :: rest) len (Z.of_nat (length pre))
    = Z.of_nat (length pre + length (escaped text)).
Proof.
  intros Hb Hnz. induction text as [|c t IH]; intros pre rest len fuel Hlen Hf.
  - cbn [escaped flat_map app length] in *. rewrite Nat.add_0_r in *.
    destruct fuel as [|fuel]; [lia|]. cbn [pass_string_loop].
    destruct (Z.ltb_spec (Z.of_nat (length pre)) len); [|lia].
    rewrite <- (Z.add_0_r (Z.of_nat (length pre))), sget_app_here by lia.
    change (sget (CH_DQUOTE :: rest) 0) with CH_DQUOTE. cbn [Z.eqb Pos.eqb andb].
    lia.
  - inversion Hb as [|? ? Hc Hbt]; subst. inversion Hnz as [|? ? Hc0 Hnzt]; subst.
    specialize (IH Hbt Hnzt).
    rewrite escaped_cons in *. rewrite length_app in Hlen.
    pose proof (length_escape_byte c) as Hle.
    unfold escape_byte in *.
    destruct (Z.eqb_spec (mjson_esc c 1) 0) as [E | E].
    + (* a byte that stands for itself *)
      destruct (esc_plain_cases c E) as [Hbs Hq].
      cbn [app length] in *.
      assert (H0 : sget (pre ++ c :: escaped t ++ CH_DQUOTE :: rest)
                     (Z.of_nat (length pre)) = c).
      { rewrite <- (Z.add_0_r (Z.of_nat (length pre))), sget_app_here by lia. reflexivity. }
      destruct fuel as [|fuel]; [lia|]. cbn [pass_string_loop].
      destruct (Z.ltb_spec (Z.of_nat (length pre)) len); [|lia].
      rewrite H0.
      destruct (Z.eqb_spec c CH_BACKSLASH); [contradiction|].
      destruct (Z.eqb_spec c 0); [contradiction|].
      destruct (Z.eqb_spec c CH_DQUOTE); [contradiction|]. cbn [andb].
      replace (pre ++ c :: escaped t ++ CH_DQUOTE :: rest)
        with ((pre ++ [c]) ++ escaped t ++ CH_DQUOTE :: rest)
        by (rewrite <- app_assoc; reflexivity).
      replace (Z.of_nat (length pre) + 1) with (Z.of_nat (length (pre ++ [c])))
        by (rewrite length_app; cbn [length]; lia).
      rewrite IH; rewrite ?length_app; cbn [length]; lia.
    + (* a byte with an escape: a backslash and a letter *)
      pose proof (esc_special_cases c Hc E) as Hin.
      set (e := mjson_esc c 1) in *.
      cbn [app length] in *.
      assert (Hgoal : forall fuel',
        (Z.to_nat (len - (Z.of_nat (length pre) + 1 + 1)) <= fuel')%nat ->
        pass_string_loop fuel' (pre ++ CH_BACKSLASH :: e :: escaped t ++ CH_DQUOTE :: rest)
          len (Z.of_nat (length pre) + 1 + 1)
        = Z.of_nat (length pre + S (S (length (escaped t))))).
      { intros fuel' Hf'.
        replace (pre ++ CH_BACKSLASH :: e :: escaped t ++ CH_DQUOTE :: rest)
          with ((pre ++ [CH_BACKSLASH; e]) ++ escaped t ++ CH_DQUOTE :: rest)
          by (rewrite <- app_assoc; reflexivity).
        replace (Z.of_nat (length pre) + 1 + 1)
          with (Z.of_nat (length (pre ++ [CH_BACKSLASH; e])))
          by (rewrite length_app; cbn [length]; lia).
        rewrite IH; rewrite ?length_app; cbn [length]; lia. }
      assert (H0 : sget (pre ++ CH_BACKSLASH :: e :: escaped t ++ CH_DQUOTE :: rest)
                     (Z.of_nat (length pre)) = CH_BACKSLASH).
      { rewrite <- (Z.add_0_r (Z.of_nat (length pre))), sget_app_here by lia. reflexivity. }
      assert (H1 : sget (pre ++ CH_BACKSLASH :: e :: escaped t ++ CH_DQUOTE :: rest)
                     (Z.of_nat (length pre) + 1) = e).
      { rewrite sget_app_here by lia. reflexivity. }
      destruct fuel as [|fuel]; [lia|]. cbn [pass_string_loop].
      destruct (Z.ltb_spec (Z.of_nat (length pre)) len); [|lia].
      destruct (Z.ltb_spec (Z.of_nat (length pre) + 1) len); [|lia].
      rewrite H0, H1. cbn [Z.eqb Pos.eqb andb].
      destruct (Z.eqb_spec (mjson_esc e 1) 0) as [Ee | Ee]; cbn [negb].
      * (* the letter has no escape of its own: two iterations *)
        destruct fuel as [|fuel]; [lia|]. cbn [pass_string_loop].
        destruct (Z.ltb_spec (Z.of_nat (length pre) + 1) len); [|lia].
        rewrite H1.
        destruct (esc_plain_cases e Ee) as [Hebs Heq].
        destruct (Z.eqb_spec e CH_BACKSLASH); [contradiction|].
        destruct (Z.eqb_spec e 0); [contradiction|].
        destruct (Z.eqb_spec e CH_DQUOTE); [contradiction|]. cbn [andb].
        apply Hgoal. lia.
      * apply Hgoal. lia.
Qed.

Lemma literal_scan {U : Type} (text rest : list Z) (len : Z)
    (cb : option (mjson_cb_t U)) (ud : U) :
  Forall is_byte text -> Forall (fun c => c <> 0) text ->
  Z.of_nat (length (literal text)) <= len ->
  mjson (literal text ++ rest) len cb ud
  = (ud' ← MJSONCALL (literal text ++ rest) cb MJSON_TOK_STRING 0
             (Z.of_nat (length (literal text)) - 1) ud;
     Val (Z.of_nat (length (literal text)), ud')).
Proof.
  intros Hb Hnz Hlen. unfold literal in *. cbn [length app] in *.
  rewrite length_app in *. cbn [length] in *.
  unfold mjson, mjson_run, mjson_init, mjson_fuel. cbn [mjson_loop sc_i].
  destruct (Z.ltb_spec 0 len); [|lia].
  unfold mjson_body. cbn [sc_i sc_depth sc_nesting sc_expecting sc_ud].
  change (sget (CH_DQUOTE :: ?l) 0) with CH_DQUOTE.
  cbn [Z.eqb Pos.eqb orb andb Z.leb Z.compare Pos.compare Pos.compare_cont].
  change (sfrom (CH_DQUOTE :: ?l) (0 + 1)) with l.
  rewrite <- app_assoc. cbn [app].
  unfold mjson_pass_string.
  pose proof (pass_string_escaped text Hb Hnz [] rest (len - 0 - 1)
                (Z.to_nat (len - 0 - 1))) as Hp.
  cbn [length app Nat.add] in Hp. change (Z.of_nat 0) with 0 in Hp.
  rewrite Hp by lia.
  destruct (Z.ltb_spec (Z.of_nat (length (escaped text))) 0); [lia|].
  replace (0 + (Z.of_nat (length (escaped text)) + 1))
    with (Z.of_nat (S (length (escaped text) + 1)) - 1) by lia.
  unfold and_then, mbind, res_bind.
  destruct (MJSONCALL _ cb MJSON_TOK_STRING 0 _ ud); try reflexivity.
  do 2 f_equal. lia.
Qed.

(** A literal that [mjson_print_str] writes for a text without NUL
    bytes is one string token for the tokenizer: [mjson] consumes
    exactly the literal, whatever follows it, and emits one
    [MJSON_TOK_STRING] event that spans it. *)
Theorem mjson_scans_printed (text rest : list Z) (len : Z) :
  Forall is_byte text -> Forall (fun c => c <> 0) text ->
  Z.of_nat (length (literal text)) <= len ->
  mjson_print_str text (Z.of_nat (length text)) collect [] =
    Val (Z.of_nat (length (literal text)), literal text)
  /\ mjson (literal text ++ rest) len (Some trace_cb) []
     = Val (Z.of_nat (length (literal text)),
            [(MJSON_TOK_STRING, 0, Z.of_nat (length (literal text)))]).
Proof.
  intros Hb Hnz Hlen. split; [apply (print_str_literal text [])|].
  rewrite literal_scan by assumption. unfold MJSONCALL, trace_cb. cbn [mbind res_bind app].
  do 4 f_equal. lia.
Qed.

Lemma mjson_scans_printed_witness :
  let text := [97; CH_LF; CH_DQUOTE; CH_BACKSLASH; 98] in
  mjson_print_str text (Z.of_nat (length text)) collect [] =
    Val (Z.of_nat (length (literal text)), literal text)
  /\ mjson (literal text ++ [CH_COMMA; 49]) 12 (Some trace_cb) []
     = Val (Z.of_nat (length (literal text)),
            [(MJSON_TOK_STRING, 0, Z.of_nat (length (literal text)))]).
Proof.
  apply (mjson_scans_printed [97; CH_LF; CH_DQUOTE; CH_BACKSLASH; 98] [CH_COMMA; 49] 12).
  - repeat constructor; unfold is_byte; lia.
  - repeat constructor; lia.
  - vm_compute. discriminate.
Defined.

(** Round trip through the API: the literal [mjson_print_str] writes for
    a text of non-NUL bytes, looked up with the path [$] by
    [mjson_find_string], decodes to the text, followed by a NUL, and the
    length of the text is returned, when the destination has room for
    the text and the NUL. *)
Theorem mjson_find_string_printed (text rest to : list Z) (len n : Z) :
  Forall is_byte text -> Forall (fun c => c <> 0) text ->
  Z.of_nat (length (literal text)) <= len ->
  Z.of_nat (length text) < n -> n <= Z.of_nat (length to) ->
  mjson_find_string (literal text ++ rest) len (bytes "$") to n
  = Val (Z.of_nat (length text), text ++ 0 :: drop (S (length text)) to).
Proof.
  intros Hb Hnz Hlen Hn Hcap. unfold mjson_find_string, mjson_find.
  change (path_get (bytes "$") 0) with (Val CH_DOLLAR : res Z).
  cbn [mbind res_bind Z.eqb Pos.eqb negb].
  rewrite literal_scan by assumption.
  unfold MJSONCALL, mjson_find_cb.
  cbn [tok path pos d1 d2 i1 i2 obj tokptr toklen mbind res_bind].
  change (negb (MJSON_TOK_INVALID =? MJSON_TOK_INVALID)) with false.
  change (path_get (bytes "$") 1) with (Val 0 : res Z).
  cbn [mbind res_bind MJSON_TOK_STRING MJSON_TOK_KEY MJSON_TOK_IS_VALUE
       Z.eqb Pos.eqb Z.ltb Z.compare Pos.compare Pos.compare_cont andb orb negb
       set_found store tok tokptr toklen path pos d1 d2 i1 i2 obj].
  destruct (Z.ltb_spec (Z.of_nat (length (literal text))) 0); [lia|].
  cbn [Z.eqb Pos.eqb negb].
  apply mjson_unescape_ok; [|exact Hn|exact Hcap].
  unfold literal. cbn [length app]. rewrite length_app. cbn [length].
  change (sfrom (CH_DQUOTE :: ?l) (0 + 1)) with l.
  replace (Z.of_nat (S (length (escaped text) + 1)) - 1 - 0 + 1 - 2)
    with (Z.of_nat (length (escaped text))) by lia.
  rewrite <- app_assoc.
  rewrite span_bytes_take by (rewrite length_app; lia).
  rewrite Nat2Z.id, take_app_length. apply escaped_decoded. exact Hb.
Qed.

Lemma mjson_find_string_printed_witness :
  mjson_find_string (literal (bytes "a/b") ++ []) 6 (bytes "$") [7; 7; 7; 7; 7] 4
  = Val (Z.of_nat (length (bytes "a/b")),
         bytes "a/b" ++ 0 :: drop (S (length (bytes "a/b"))) [7; 7; 7; 7; 7]).
Proof.
  apply (mjson_find_string_printed (bytes "a/b") [] [7; 7; 7; 7; 7] 6 4).
  - repeat constructor; unfold is_byte; vm_compute; intuition discriminate.
  - repeat constructor; vm_compute; discriminate.
  - vm_compute. discriminate.
  - vm_compute. reflexivity.
  - vm_compute. discriminate.
Defined.

(* ------------------------------------------------------------------ *)
(** ** Printing an integer: what is printed *)

Lemma digit_at (d : Z) :
  0 <= d <= 9 -> take 1 (sfrom (bytes "0123456789") d) = [48 + d].
Proof.
  intros Hd.
  assert (d = 0 \/ d = 1 \/ d = 2 \/ d = 3 \/ d = 4 \/ d = 5 \/ d = 6 \/ d = 7 \/ d = 8 \/ d = 9)
    as H by lia.
  repeat (destruct H as [-> | H]; [reflexivity|]). subst d. reflexivity.
Qed.

Lemma digits_of_S (fuel : nat) (n : Z) :
  digits_of (S fuel) n
  = (if n <? 10 then [] else digits_of fuel (n / 10)) ++ [48 + n mod 10].
Proof. reflexivity. Qed.

Lemma digits_of_small (fuel : nat) (n : Z) : n < 10 -> digits_of (S fuel) n = [48 + n mod 10].
Proof. intros H. rewrite digits_of_S. destruct (Z.ltb_spec n 10); [reflexivity | lia]. Qed.

Lemma digits_of_big (fuel : nat) (n : Z) :
  10 <= n -> digits_of (S fuel) n = digits_of fuel (n / 10) ++ [48 + n mod 10].
Proof. intros H. rewrite digits_of_S. destruct (Z.ltb_spec n 10); [lia | reflexivity]. Qed.

Lemma digits_of_more (f : nat) : forall k n,
  0 <= n < 10 ^ Z.of_nat (S f) -> digits_of (S f + k) n = digits_of (S f) n.
Proof.
  induction f as [|f IH]; intros k n Hn.
  - change (10 ^ Z.of_nat 1) with 10 in Hn. cbn [Nat.add].
    rewrite !digits_of_small by lia. reflexivity.
  - destruct (Z.lt_ge_cases n 10) as [Hs | Hb].
    + cbn [Nat.add]. rewrite !digits_of_small by lia. reflexivity.
    + cbn [Nat.add]. rewrite (digits_of_big (S (f + k)) n), (digits_of_big (S f) n) by lia.
      f_equal. apply (IH k). split; [apply Z.div_pos; lia|].
      apply Z.div_lt_upper_bound; [lia|].
      replace (Z.of_nat (S (S f))) with (Z.of_nat (S f) + 1) in Hn by lia.
      rewrite Z.pow_add_r, Z.pow_1_r in Hn by lia. lia.
Qed.

(** The digits are those of the number: read as a decimal number they
    give it back. *)
Lemma digits_of_value (f : nat) : forall n,
  0 <= n < 10 ^ Z.of_nat (S f) -> digits_val 10 (digits_of (S f) n) = n.
Proof.
  assert (Hd : forall d, 0 <= d <= 9 -> xdigit_val (48 + d) = d).
  { intros d Hd. unfold xdigit_val, isdigit.
    destruct (Z.leb_spec 48 (48 + d)); [|lia].
    destruct (Z.leb_spec (48 + d) 57); [|lia]. cbn [andb]. lia. }
  unfold digits_val.
  induction f as [|f IH]; intros n Hn.
  - change (10 ^ Z.of_nat 1) with 10 in Hn. rewrite digits_of_small by lia.
    cbn [fold_left]. rewrite Hd by (pose proof (Z.mod_pos_bound n 10); lia).
    rewrite Z.mod_small; lia.
  - destruct (Z.lt_ge_cases n 10) as [Hs | Hb].
    + rewrite digits_of_small by lia. cbn [fold_left].
      rewrite Hd by (pose proof (Z.mod_pos_bound n 10); lia). rewrite Z.mod_small; lia.
    + rewrite digits_of_big by lia. rewrite fold_left_app. cbn [fold_left].
      rewrite IH.
      * rewrite Hd by (pose proof (Z.mod_pos_bound n 10); lia).
        pose proof (Z.div_mod n 10). lia.
      * split; [apply Z.div_pos; lia|]. apply Z.div_lt_upper_bound; [lia|].
        replace (Z.of_nat (S (S f))) with (Z.of_nat (S f) + 1) in Hn by lia.
        rewrite Z.pow_add_r, Z.pow_1_r in Hn by lia. lia.
Qed.

Lemma digits_of_two (fuel : nat) (n : Z) :
  10 <= n -> exists a b r, digits_of (S (S fuel)) n = a :: b :: r.
Proof.
  intros Hn. rewrite digits_of_big by lia. rewrite digits_of_S.
  destruct (if n / 10 <? 10 then [] else digits_of fuel (n / 10 / 10)) as [|a [|b r]];
    cbn [app]; eauto.
Qed.

(** What [print_int_rec] prints for [n >= 0]: the digits of [n], without
    the first one when they start with 1 and 0. *)
Lemma print_digits (k : nat) : forall n out,
  0 <= n <= 10 * 10 ^ Z.of_nat k ->
  let ds := digits_of (S (S k)) n in
  let t := if starts_10 ds then tl ds else ds in
  print_int_rec (S k) n collect out = Val (Z.of_nat (length t), out ++ t).
Proof.
  assert (Hlow : forall f n out, 0 <= n <= 10 ->
            let ds := digits_of (S (S f)) n in
            let t := if starts_10 ds then tl ds else ds in
            print_int_rec (S f) n collect out = Val (Z.of_nat (length t), out ++ t)).
  { intros f n out Hn. cbv zeta. rewrite print_int_rec_S.
    destruct (Z.ltb_spec n 0); [lia|]. destruct (Z.gtb_spec n 10); [lia|].
    cbn [mbind res_bind]. rewrite collect_eq. cbn [mbind res_bind].
    change (Z.to_nat 1) with 1%nat.
    rewrite Z.rem_mod_nonneg by lia.
    rewrite digit_at by (pose proof (Z.mod_pos_bound n 10); lia).
    destruct (Z.eq_dec n 10) as [-> | Hne].
    - reflexivity.
    - rewrite digits_of_small by lia. reflexivity. }
  induction k as [|k IH]; intros n out Hn.
  - apply Hlow. cbn in Hn. lia.
  - destruct (Z.le_gt_cases n 10) as [Hle | Hgt]; [apply Hlow; lia|].
    cbv zeta. rewrite print_int_rec_S.
    destruct (Z.ltb_spec n 0); [lia|]. destruct (Z.gtb_spec n 10); [|lia].
    rewrite Z.quot_div_nonneg by lia.
    assert (Hq : 0 <= n / 10 <= 10 * 10 ^ Z.of_nat k).
    { split; [apply Z.div_pos; lia|]. apply Z.div_le_upper_bound; [lia|].
      replace (Z.of_nat (S k)) with (Z.of_nat k + 1) in Hn by lia.
      rewrite Z.pow_add_r, Z.pow_1_r in Hn by lia. lia. }
    rewrite (IH (n / 10) out Hq). cbn [mbind res_bind].
    rewrite collect_eq. cbn [mbind res_bind]. change (Z.to_nat 1) with 1%nat.
    rewrite Z.rem_mod_nonneg by lia.
    rewrite digit_at by (pose proof (Z.mod_pos_bound n 10); lia).
    rewrite (digits_of_big (S (S k)) n) by lia.
    set (ds' := digits_of (S (S k)) (n / 10)).
    assert (Hrel : (if starts_10 (ds' ++ [48 + n mod 10]) then tl (ds' ++ [48 + n mod 10])
                    else ds' ++ [48 + n mod 10])
                   = (if starts_10 ds' then tl ds' else ds') ++ [48 + n mod 10]).
    { destruct (Z.lt_ge_cases (n / 10) 10) as [Hs | Hb].
      - unfold ds'. rewrite digits_of_small by lia. cbn [app starts_10].
        assert (Hn10 : n = 10 * (n / 10) + n mod 10) by (apply Z.div_mod; lia).
        pose proof (Z.mod_pos_bound n 10 ltac:(lia)).
        pose proof (Z.mod_pos_bound (n / 10) 10 ltac:(lia)).
        rewrite (Z.mod_small (n / 10)) by lia.
        destruct (Z.eqb_spec (48 + n / 10) 49); [|reflexivity].
        destruct (Z.eqb_spec (48 + n mod 10) 48); [lia | reflexivity].
      - destruct (digits_of_two k (n / 10) Hb) as (a & b & r & E). fold ds' in E.
        rewrite E. cbn [app starts_10 tl]. destruct ((a =? 49) && (b =? 48)); reflexivity. }
    rewrite Hrel, length_app. cbn [length]. rewrite <- app_assoc.
    do 2 f_equal. lia.
Qed.

Lemma print_int_text (n : Z) (out : list Z) :
  INT_MIN < n <= INT_MAX ->
  let ds := digits_of 12 (Z.abs n) in
  let body := if starts_10 ds then tl ds else ds in
  let t := if n <? 0 then CH_MINUS :: body else body in
  mjson_print_int n collect out = Val (Z.of_nat (length t), out ++ t)
  /\ digits_val 10 ds = Z.abs n
  /\ (starts_10 ds = false -> t = decimal n).
Proof.
  unfold INT_MIN, INT_MAX. intros Hn. cbv zeta. split; [|split].
  - unfold mjson_print_int. destruct (Z.ltb_spec n 0) as [Hneg | Hpos].
    + rewrite print_int_rec_S. destruct (Z.ltb_spec n 0); [|lia].
      rewrite collect_eq. cbn [mbind res_bind].
      destruct (Z.eqb_spec n INT_MIN); [unfold INT_MIN in *; lia|].
      pose proof (print_digits 10 (- n) (out ++ take (Z.to_nat 1) (bytes "-"))) as Hp.
      cbv zeta in Hp. rewrite Hp by (change (10 * 10 ^ Z.of_nat 10) with 100000000000; lia).
      cbn [mbind res_bind]. rewrite Z.abs_neq by lia.
      change (take (Z.to_nat 1) (bytes "-")) with [CH_MINUS].
      rewrite <- app_assoc. cbn [app length]. do 2 f_equal. lia.
    + pose proof (print_digits 11 n out) as Hp. cbv zeta in Hp.
      rewrite Hp by (change (10 * 10 ^ Z.of_nat 11) with 1000000000000; lia).
      rewrite Z.abs_eq by lia.
      assert (E : digits_of 13 n = digits_of 12 n).
      { apply (digits_of_more 11 1 n).
        change (10 ^ Z.of_nat 12) with 1000000000000. lia. }
      rewrite E. reflexivity.
  - apply digits_of_value. change (10 ^ Z.of_nat 12) with 1000000000000. lia.
  - intros Hs. rewrite Hs. unfold decimal.
    destruct (Z.ltb_spec n 0); [rewrite Z.abs_neq by lia | rewrite Z.abs_eq by lia]; reflexivity.
Qed.

(** What [mjson_print_int] prints, with a sink that accepts everything,
    for every [int] but [INT_MIN]: a minus sign when [n < 0], then the
    decimal digits of the absolute value, except that the leading digit
    is dropped when these digits start with 1 and 0 (10, 100, 1024,
    ...); the returned number is the count of bytes printed.  So the
    decimal representation is printed exactly when it does not start
    with the digits 1 and 0. *)
Theorem mjson_print_int_collect (n : Z) (out : list Z) :
  INT_MIN < n <= INT_MAX ->
  let ds := digits_of 12 (Z.abs n) in
  let body := if starts_10 ds then tl ds else ds in
  let t := if n <? 0 then CH_MINUS :: body else body in
  mjson_print_int n collect out = Val (Z.of_nat (length t), out ++ t)
  /\ digits_val 10 ds = Z.abs n
  /\ (starts_10 ds = false -> t = decimal n).
Proof. exact (print_int_text n out). Qed.

Lemma mjson_print_int_collect_witness :
  mjson_print_int (-2048) collect [] = Val (5, bytes "-2048")
  /\ digits_val 10 (bytes "2048") = 2048
  /\ (false = false -> bytes "-2048" = decimal (-2048)).
Proof.
  exact (mjson_print_int_collect (-2048) [] ltac:(unfold INT_MIN, INT_MAX; lia)).
Defined.

(* ------------------------------------------------------------------ *)
(** ** Tokenizer: the events a callback is given *)

Lemma nesting_get_val (nesting : list Z) (k top : Z) :
  nesting_get nesting k = Val top -> 0 <= k.
Proof.
  unfold nesting_get. destruct (Z.leb_spec 0 k); cbn [andb]; [lia | discriminate].
Qed.

Lemma is_ws_of_bool (c : Z) :
  (c =? CH_SPACE) || (c =? CH_TAB) || (c =? CH_LF) || (c =? CH_CR) = true -> is_ws c.
Proof.
  unfold is_ws. intros H.
  repeat (apply orb_prop in H; destruct H as [H | H]);
    apply Z.eqb_eq in H; tauto.
Qed.

Ltac bool_facts :=
  repeat match goal with
         | H : (_ && _) = true |- _ => apply andb_prop in H; destruct H
         | H : (_ || _) = false |- _ => apply orb_false_elim in H; destruct H
         | H : negb _ = true |- _ => apply negb_true_iff in H
         | H : negb _ = false |- _ => apply negb_false_iff in H
         | H : (_ =? _) = true |- _ => apply Z.eqb_eq in H
         | H : (_ =? _) = false |- _ => apply Z.eqb_neq in H
         | H : (_ <? _) = true |- _ => apply Z.ltb_lt in H
         | H : (_ <? _) = false |- _ => apply Z.ltb_ge in H
         | H : (_ <=? _) = true |- _ => apply Z.leb_le in H
         | H : (_ <=? _) = false |- _ => apply Z.leb_gt in H
         | H : (_ >=? _) = true |- _ => rewrite Z.geb_leb in H
         | H : (_ >=? _) = false |- _ => rewrite Z.geb_leb in H
         end.

(** A string or key token starts and ends with a double quote. *)
Lemma string_event (s : list Z) (len i n ev : Z) :
  0 <= i -> sget s i = CH_DQUOTE ->
  n = mjson_pass_string (sfrom s (i + 1)) (len - i - 1) -> 0 <= n ->
  ev = MJSON_TOK_STRING \/ ev = MJSON_TOK_KEY ->
  event_shape s ev i (i + (n + 1) - i + 1).
Proof.
  intros Hi Hq -> Hn Hev.
  destruct (mjson_pass_string_sound _ _ Hn) as (Hr & Hend & _).
  rewrite sget_sfrom in Hend by lia.
  unfold event_shape. do 5 right. split; [exact Hev|]. split; [exact Hq|]. split; [|lia].
  rewrite <- Hend. f_equal. lia.
Qed.

Lemma number_event (s : list Z) (i : Z) :
  sget s i = CH_MINUS \/ 48 <= sget s i <= 57 ->
  event_shape s MJSON_TOK_NUMBER i (i + (strtod_end (sfrom s i) - 1) - i + 1).
Proof.
  intros Hc. pose proof (strtod_end_le (sfrom s i)).
  unfold event_shape. do 4 right. left. split; [reflexivity|]. split; [exact Hc|].
  split; lia.
Qed.

Lemma structural_event (s : list Z) (i : Z) :
  In (sget s i) [CH_LBRACE; CH_LBRACKET; CH_RBRACE; CH_RBRACKET; CH_COMMA; CH_COLON] ->
  event_shape s (sget s i) i (i - i + 1).
Proof. intros H. left. split; [exact H|]. split; [reflexivity | lia]. Qed.

Lemma event_shape_nonneg (s : list Z) (ev off n : Z) : event_shape s ev off n -> 0 <= n.
Proof. unfold event_shape. intros H. repeat destruct H as [H | H]; lia. Qed.

Section TokenizerEvents.
Context {U : Type}.
Variable s : list Z.
Variable len : Z.
Variable f : mjson_cb_t U.
(** [P i depth ud]: what holds of the user data while the scan is at
    byte [i] and depth [depth]; [Q r ud]: what holds when the scan
    ends with success and returns [r]. *)
Variable P : Z -> Z -> U -> Prop.
Variable Q : Z -> U -> Prop.
Hypothesis P_skip : forall i dp ud,
  0 <= i -> is_ws (sget s i) -> P i dp ud -> P (i + 1) dp ud.
Hypothesis cb_run : forall ev off n dp ud ud',
  0 <= off -> 0 <= dp -> event_shape s ev off n -> 1 <= dp + depth_change ev ->
  P off dp ud -> f ev s off n ud = Val ud' -> P (off + n) (dp + depth_change ev) ud'.
(** The scan ends with success at the event that leaves depth 0: a
    scalar at depth 0, or the closing character of the outermost
    container. *)
Hypothesis cb_stop : forall ev off n dp ud ud',
  0 <= off -> 0 <= dp -> event_shape s ev off n -> dp + depth_change ev = 0 ->
  depth_change ev = -1 \/ MJSON_TOK_IS_VALUE ev = true ->
  P off dp ud -> f ev s off n ud = Val ud' -> Q (off + n) ud'.

Lemma MJSONCALL_run ev start i dp dp' ud ud' :
  0 <= start -> 0 <= dp -> P start dp ud ->
  MJSONCALL s (Some f) ev start i ud = Val ud' ->
  event_shape s ev start (i - start + 1) ->
  dp' = dp + depth_change ev -> 1 <= dp' ->
  P (i + 1) dp' ud'.
Proof.
  intros Hs Hd HP Hc Hsh -> Hdp. unfold MJSONCALL in Hc.
  replace (i + 1) with (start + (i - start + 1)) by lia.
  apply (cb_run ev start (i - start + 1) dp ud ud'); assumption.
Qed.

Lemma MJSONCALL_stop ev start i dp ud ud' :
  0 <= start -> 0 <= dp -> P start dp ud ->
  MJSONCALL s (Some f) ev start i ud = Val ud' ->
  event_shape s ev start (i - start + 1) ->
  dp + depth_change ev = 0 ->
  depth_change ev = -1 \/ MJSON_TOK_IS_VALUE ev = true ->
  0 <= i + 1 /\ Q (i + 1) ud'.
Proof.
  intros Hs Hd HP Hc Hsh Hdp Hkind. unfold MJSONCALL in Hc.
  pose proof (event_shape_nonneg _ _ _ _ Hsh).
  split; [lia|].
  replace (i + 1) with (start + (i - start + 1)) by lia.
  apply (cb_stop ev start (i - start + 1) dp ud ud'); assumption.
Qed.

Lemma mjson_body_events st :
  0 <= sc_i st -> 0 <= sc_depth st ->
  (sc_expecting st <> S_VALUE -> 1 <= sc_depth st) ->
  P (sc_i st) (sc_depth st) (sc_ud st) ->
  match mjson_body s len (Some f) st with
  | Continue st' =>
      0 <= sc_i st' + 1 /\ 0 <= sc_depth st'
      /\ (sc_expecting st' <> S_VALUE -> 1 <= sc_depth st')
      /\ P (sc_i st' + 1) (sc_depth st') (sc_ud st')
  | Stop (Val (r, ud')) => (0 <= r /\ Q r ud') \/ (r < 0 /\ ud' = sc_ud st)
  | Stop _ => True
  end.
Proof.
  destruct st as [i depth nesting expecting ud].
  cbn [sc_i sc_depth sc_nesting sc_expecting sc_ud]. intros Hi Hd He HP.
  unfold mjson_body, MJSONEOO, and_then.
  cbn [sc_i sc_depth sc_nesting sc_expecting sc_ud].
  repeat case_match; subst; simplify_eq;
    cbn [sc_i sc_depth sc_nesting sc_expecting sc_ud]; try exact I.
  all: try (right; split; [unfold MJSON_ERROR_INVALID_INPUT, MJSON_ERROR_TOO_DEEP; lia
                           | reflexivity]).
  1: { repeat split; try lia; try exact He.
       apply P_skip; [lia | apply is_ws_of_bool; assumption | exact HP]. }
  all: pose proof (strtod_end_le (sfrom s i)).
  all: bool_facts.
  all: repeat match goal with
              | H : nesting_get _ _ = Val _ |- _ => apply nesting_get_val in H
              | H : (_ || _) = true |- _ => apply orb_prop in H; destruct H
              end.
  all: bool_facts.
  all: match goal with
       | H : MJSONCALL _ _ ?ev ?st ?i' ?ud = Val ?a |- _ /\ _ /\ _ /\ P _ ?dp' _ =>
           refine (conj _ (conj _ (conj _
                     (MJSONCALL_run ev st i' depth dp' ud a Hi Hd HP H _ _ _))))
       | H : MJSONCALL _ _ ?ev ?st ?i' ?ud = Val ?a |- _ \/ _ =>
           left; refine (MJSONCALL_stop ev st i' depth ud a Hi Hd HP H _ _ _)
       end.
  all: try (assert (1 <= depth) by (apply He; discriminate)).
  all: try lia.
  all: try (intros _; lia).
  all: try (right; reflexivity).
  all: try (left; unfold depth_change; repeat case_match; lia).
  all: try (unfold depth_change, MJSON_TOK_TRUE, MJSON_TOK_FALSE, MJSON_TOK_NULL,
              MJSON_TOK_NUMBER, MJSON_TOK_STRING, MJSON_TOK_KEY;
            repeat case_match; lia).
  all: try (apply number_event; lia).
  all: try (eapply string_event; [lia | assumption | reflexivity | lia | tauto]).
  all: try (apply structural_event; cbn [In]; lia).
  all: try (unfold event_shape; right; left; split; [reflexivity|]; split; [assumption | lia]).
  all: try (unfold event_shape; right; right; left; split; [reflexivity|];
            split; [assumption | lia]).
  all: try (unfold event_shape; right; right; right; left; split; [reflexivity|];
            split; [assumption | lia]).
Qed.

Lemma mjson_loop_events (fuel : nat) : forall st r ud',
  0 <= sc_i st -> 0 <= sc_depth st ->
  (sc_expecting st <> S_VALUE -> 1 <= sc_depth st) ->
  P (sc_i st) (sc_depth st) (sc_ud st) ->
  mjson_loop s len (Some f) fuel st = Val (r, ud') ->
  (0 <= r /\ Q r ud') \/ (r < 0 /\ exists k dp, 0 <= k /\ 0 <= dp /\ P k dp ud').
Proof.
  induction fuel as [|fuel IH]; intros st r ud' Hi Hd He HP Hrun; [discriminate|].
  cbn [mjson_loop] in Hrun.
  destruct (sc_i st <? len).
  - pose proof (mjson_body_events st Hi Hd He HP) as Hb.
    destruct (mjson_body s len (Some f) st) as [st' | [[r1 ud1] | u |]];
      [| |discriminate|discriminate].
    + destruct Hb as (Hi' & Hd' & He' & HP').
      eapply IH; [| | | |exact Hrun]; cbn [sc_i sc_depth sc_expecting sc_ud]; assumption.
    + injection Hrun as <- <-. destruct Hb as [Hb | [Hr ->]]; [left; exact Hb|].
      right. split; [exact Hr|]. exists (sc_i st), (sc_depth st). auto.
  - injection Hrun as <- <-. right. split; [unfold MJSON_ERROR_INVALID_INPUT; lia|].
    exists (sc_i st), (sc_depth st). auto.
Qed.

(** What a callback keeps from event to event, the scan keeps: started
    with [P 0 0 ud], a scan that returns [r >= 0] ends in [Q r]. *)
Lemma mjson_events ud r ud' :
  P 0 0 ud -> mjson s len (Some f) ud = Val (r, ud') ->
  (0 <= r /\ Q r ud') \/ (r < 0 /\ exists k dp, 0 <= k /\ 0 <= dp /\ P k dp ud').
Proof.
  intros HP. apply mjson_loop_events; cbn [mjson_init sc_i sc_depth sc_expecting sc_ud];
    try lia; [congruence | exact HP].
Qed.
End TokenizerEvents.

(* ------------------------------------------------------------------ *)
(** ** Tokenizer: the events tile the input *)








(* ------------------------------------------------------------------ *)
(** ** Path resolver: what is stored for a found token *)

Lemma found_shape_tok (s : list Z) (t p n : Z) : found_shape s t p n -> t <> MJSON_TOK_INVALID.
Proof.
  unfold found_shape, MJSON_TOK_IS_VALUE, MJSON_TOK_INVALID, MJSON_TOK_OBJECT, MJSON_TOK_ARRAY.
  intros [[H _] | [H _]]; lia.
Qed.

Lemma find_inv_mono (s : list Z) (tp tl : dest) (i j : Z) (d : msjon_find_data) :
  i <= j -> find_inv s tp tl i d -> find_inv s tp tl j d.
Proof.
  intros Hij [Ho Hf]. split.
  - destruct Ho as [Ho | [Ho1 Ho2]]; [left; exact Ho | right; split; [lia | exact Ho2]].
  - destruct Hf as [Hf | (p & n & H1 & H2 & H3 & H4 & H5 & H6)]; [left; exact Hf|].
    right. exists p, n. repeat split; try assumption; lia.
Qed.

Lemma mjson_find_cb_inv (s : list Z) (tp tl : dest) (ev off n : Z) (d d' : msjon_find_data) :
  0 <= off -> event_shape s ev off n -> find_inv s tp tl off d ->
  mjson_find_cb ev s off n d = Val d' -> find_inv s tp tl (off + n) d'.
Proof.
  intros Hoff Hsh Hinv Hc.
  pose proof (event_shape_nonneg _ _ _ _ Hsh) as Hn.
  unfold mjson_find_cb in Hc.
  destruct (Z.eqb_spec (tok d) MJSON_TOK_INVALID) as [Ht | Ht]; cbn [negb] in Hc.
  2: { injection Hc as <-. eapply find_inv_mono; [|exact Hinv]. lia. }
  destruct Hinv as [Ho [(_ & Hp & Hl) | (p & m & _ & _ & _ & _ & _ & Hf)]].
  2: { apply found_shape_tok in Hf. contradiction. }
  destruct d as [jp ps a1 a2 b1 b2 ob tp0 tl0 tk].
  cbn [path pos d1 d2 i1 i2 obj tokptr toklen tok] in *. subst tp0 tl0 tk.
  assert (Hev : (In ev [CH_LBRACE; CH_LBRACKET; CH_RBRACE; CH_RBRACKET; CH_COMMA; CH_COLON]
                 /\ sget s off = ev /\ n = 1)
                \/ (MJSON_TOK_IS_VALUE ev = true \/ ev = MJSON_TOK_KEY)).
  { unfold event_shape in Hsh. unfold MJSON_TOK_IS_VALUE.
    destruct Hsh as [H | [H | [H | [H | [H | H]]]]]; [left; exact H | right ..];
      destruct H as [H _]; try (rewrite H; left; reflexivity).
    destruct H as [-> | ->]; [left; reflexivity | right; reflexivity]. }
  assert (Hk : n = 1 /\ sget s off = ev \/ 10 < ev < 20 \/ ev = 1)
    by (unfold MJSON_TOK_IS_VALUE, MJSON_TOK_KEY in Hev;
        destruct Hev as [(_ & Hq1 & Hq2) | [Hq1 | Hq1]];
        [left; split; assumption | right; left; bool_facts; lia | right; right; exact Hq1]).
  clear Hev.
  unfold mbind, res_bind, set_found, set_pos, set_d1, set_d2, set_i1, set_i2, set_obj in Hc.
  cbn [path pos d1 d2 i1 i2 obj tokptr toklen tok] in Hc.
  repeat case_match; simplify_eq;
    unfold find_inv; cbn [path pos d1 d2 i1 i2 obj tokptr toklen tok].
  all: bool_facts.
  all: split;
         [ try lia
         | first
             [ left; repeat split; reflexivity
             | right; eexists _, _; split; [reflexivity|]; split; [reflexivity|] ] ].
  all: repeat match goal with
              | H : (_ || _) = true |- _ => apply orb_prop in H; destruct H
              end.
  all: bool_facts.
  all: unfold MJSON_TOK_KEY in *.
  all: try lia.
  all: split; [lia|]; split; [lia|]; split; [lia|]; unfold found_shape.
  all: try (left; split; [assumption | exact Hsh]).
  all: right; split; [unfold MJSON_TOK_OBJECT, MJSON_TOK_ARRAY; lia|];
         split; [lia|]; split; [|lia];
         replace (ob + (off - ob + 1) - 1) with off by lia; lia.
Qed.

Lemma find_scan_inv (s : list Z) (len : Z) (jp : list Z) (tp tl : dest) (r : Z)
    (d : msjon_find_data) :
  mjson s len (Some mjson_find_cb) (FindData jp 1 0 0 0 0 (-1) tp tl MJSON_TOK_INVALID)
    = Val (r, d) ->
  0 <= r -> find_inv s tp tl r d.
Proof.
  intros Hrun Hr.
  assert (Hcall : forall ev off n (dp : Z) ud ud',
             0 <= off -> event_shape s ev off n -> find_inv s tp tl off ud ->
             mjson_find_cb ev s off n ud = Val ud' -> find_inv s tp tl (off + n) ud').
  { intros ev off n _. apply mjson_find_cb_inv. }
  destruct (mjson_events s len mjson_find_cb (fun i (_ : Z) d => find_inv s tp tl i d)
              (find_inv s tp tl)) with (5 := Hrun) as [[_ H] | [H _]];
    [ | | | | exact H | lia].
  - intros i dp ud Hi _. apply find_inv_mono. lia.
  - intros ev off n dp ud ud' Ho _ Hsh _. apply (Hcall ev off n dp); assumption.
  - intros ev off n dp ud ud' Ho _ Hsh _ _. apply (Hcall ev off n dp); assumption.
  - split; [left; reflexivity | left; repeat split; reflexivity].
Qed.

Lemma find_span (s : list Z) (len : Z) (jp : list Z) (tp tl tp' tl' : dest) (t : Z) :
  Z.of_nat (length s) <= len ->
  mjson_find s len jp tp tl = Val (t, tp', tl') ->
  t <> MJSON_TOK_INVALID ->
  exists p n, tp' = store tp p /\ tl' = store tl n
              /\ 0 <= p /\ 0 <= n /\ p + n <= len /\ found_shape s t p n.
Proof.
  intros Hs Hf Ht. unfold mjson_find in Hf. rewrite path_get_0 in Hf.
  cbn [mbind res_bind] in Hf.
  destruct (negb (sget jp 0 =? CH_DOLLAR)).
  { injection Hf as <- <- <-. contradiction. }
  destruct (mjson s len (Some mjson_find_cb) _) as [[r d] | u |] eqn:Hrun;
    cbn [mbind res_bind] in Hf; try discriminate.
  destruct (Z.ltb_spec r 0).
  { injection Hf as <- <- <-. contradiction. }
  injection Hf as <- <- <-.
  assert (Hr : r <= len).
  { pose proof Hrun as Hb. unfold mjson, mjson_run in Hb.
    apply (mjson_loop_bound s len _ Hs _ _ _ _) in Hb; [exact Hb|].
    cbn [mjson_init sc_i]. lia. }
  destruct (find_scan_inv s len jp tp tl r d Hrun ltac:(lia))
    as [_ [[Hc _] | (p & n & H1 & H2 & H3 & H4 & H5 & H6)]]; [contradiction|].
  exists p, n. repeat split; try assumption; lia.
Qed.

(** When [mjson_find] returns a token other than [MJSON_TOK_INVALID],
    on a buffer that ends at [s[len]] or before, both destinations that
    are not NULL are stored (a NULL one is left alone), and what is
    stored is a span inside the buffer, [0 <= p] and [p + n <= len],
    that has the shape of the token: a scalar as the tokenizer reported
    it; an object or an array from an opening brace or bracket to the
    closing character of its kind. *)
Theorem mjson_find_span (s : list Z) (len : Z) (jp : list Z) (tp tl tp' tl' : dest) (t : Z) :
  Z.of_nat (length s) <= len ->
  mjson_find s len jp tp tl = Val (t, tp', tl') ->
  t <> MJSON_TOK_INVALID ->
  exists p n, tp' = store tp p /\ tl' = store tl n
              /\ 0 <= p /\ 0 <= n /\ p + n <= len /\ found_shape s t p n.
Proof. exact (find_span s len jp tp tl tp' tl' t). Qed.

Lemma mjson_find_span_witness :
  let s := json "{'a': [1, {'b': 'x'}]}" in
  exists p n, Some (Some 16) = store (Some None) p /\ Some (Some 3) = store (Some None) n
              /\ 0 <= p /\ 0 <= n /\ p + n <= 22 /\ found_shape s MJSON_TOK_STRING p n.
Proof.
  apply (mjson_find_span (json "{'a': [1, {'b': 'x'}]}") 22 (bytes "$.a[1].b")
           (Some None) (Some None) (Some (Some 16)) (Some (Some 3)) MJSON_TOK_STRING).
  - vm_compute. discriminate.
  - vm_compute. reflexivity.
  - discriminate.
Defined.





(* ------------------------------------------------------------------ *)
(** ** Tokenizer: the result does not depend on the callback *)

Section TokenizerCallbackFree.
Context {U V : Type}.
Variable s : list Z.
Variable len : Z.
Variable cb : option (mjson_cb_t U).
Variable v : V.

Lemma mjson_body_cb_free st :
  let st0 := Scan (sc_i st) (sc_depth st) (sc_nesting st) (sc_expecting st) v in
  match mjson_body s len cb st with
  | Continue st' =>
      mjson_body s len None st0
      = Continue (Scan (sc_i st') (sc_depth st') (sc_nesting st') (sc_expecting st') v)
  | Stop (Val (r, _)) => mjson_body s len None st0 = Stop (Val (r, v))
  | Stop _ => True
  end.
Proof.
  destruct st as [i depth nesting expecting ud]. cbv zeta.
  unfold mjson_body, MJSONEOO, and_then.
  cbn [sc_i sc_depth sc_nesting sc_expecting sc_ud MJSONCALL].
  repeat case_match; subst; simplify_eq; try exact I; reflexivity.
Qed.

Lemma mjson_loop_cb_free (fuel : nat) : forall st r ud',
  mjson_loop s len cb fuel st = Val (r, ud') ->
  mjson_loop s len None fuel
    (Scan (sc_i st) (sc_depth st) (sc_nesting st) (sc_expecting st) v) = Val (r, v).
Proof.
  induction fuel as [|fuel IH]; intros st r ud' Hrun; [discriminate|].
  cbn [mjson_loop sc_i sc_ud] in *.
  destruct (sc_i st <? len).
  - pose proof (mjson_body_cb_free st) as Hb. cbv zeta in Hb.
    destruct (mjson_body s len cb st) as [st' | [[r1 ud1] | u |]]; try discriminate.
    + rewrite Hb. cbn [sc_i sc_depth sc_nesting sc_expecting sc_ud].
      apply IH in Hrun. exact Hrun.
    + rewrite Hb. injection Hrun as <- <-. reflexivity.
  - injection Hrun as <- <-. reflexivity.
Qed.
End TokenizerCallbackFree.

Lemma mjson_cb_free {U V : Type} (s : list Z) (len : Z) (cb : option (mjson_cb_t U))
    (ud ud' : U) (r : Z) (v : V) :
  mjson s len cb ud = Val (r, ud') -> mjson s len None v = Val (r, v).
Proof.
  unfold mjson, mjson_run. intros Hrun.
  apply (mjson_loop_cb_free s len cb v) in Hrun. exact Hrun.
Qed.

(** The [int] that [mjson] returns does not depend on the callback: when
    a scan with a callback returns [r], whatever the callback does with
    the user data, the scan of the same input with no callback (NULL),
    which only validates, returns [r] too. *)
Theorem mjson_result_without_callback {U V : Type} (s : list Z) (len : Z)
    (cb : option (mjson_cb_t U)) (ud ud' : U) (r : Z) (v : V) :
  mjson s len cb ud = Val (r, ud') -> mjson s len None v = Val (r, v).
Proof. exact (mjson_cb_free s len cb ud ud' r v). Qed.

Lemma mjson_result_without_callback_witness :
  mjson (json "{'a': [1, 2]} ") 14 None tt = Val (13, tt).
Proof.
  apply (mjson_result_without_callback (json "{'a': [1, 2]} ") 14 (Some trace_cb) []
           [(CH_LBRACE, 0, 1); (MJSON_TOK_KEY, 1, 3); (CH_COLON, 4, 1); (CH_LBRACKET, 6, 1);
            (MJSON_TOK_NUMBER, 7, 1); (CH_COMMA, 8, 1); (MJSON_TOK_NUMBER, 10, 1);
            (CH_RBRACKET, 11, 1); (CH_RBRACE, 12, 1)] 13 tt).
  vm_compute. reflexivity.
Defined.

(* ------------------------------------------------------------------ *)
(** ** Path resolver: the path [$] *)

Lemma event_kind (s : list Z) (ev off n : Z) :
  event_shape s ev off n ->
  (n = 1 /\ sget s off = ev) \/ 10 < ev < 20 \/ ev = 1.
Proof.
  unfold event_shape, MJSON_TOK_TRUE, MJSON_TOK_NULL, MJSON_TOK_FALSE, MJSON_TOK_NUMBER,
    MJSON_TOK_STRING, MJSON_TOK_KEY.
  intros [H | [H | [H | [H | [H | H]]]]]; try lia.
Qed.

Lemma path_get_root : path_get (bytes "$") 1 = Val 0.
Proof. reflexivity. Qed.

Lemma root_cb_run (s : list Z) (tp tl : dest) (ev off n dp : Z) (d d' : msjon_find_data) :
  0 <= off -> 0 <= dp -> event_shape s ev off n -> 1 <= dp + depth_change ev ->
  root_inv s tp tl off dp d -> mjson_find_cb ev s off n d = Val d' ->
  root_inv s tp tl (off + n) (dp + depth_change ev) d'.
Proof.
  intros Hoff Hdp Hsh Hrun Hinv Hc.
  pose proof (event_shape_nonneg _ _ _ _ Hsh) as Hn.
  apply event_kind in Hsh.
  destruct d as [jp ps a1 a2 b1 b2 ob tp0 tl0 tk].
  destruct Hinv as (E1 & E2 & E3 & E4 & E5 & E6 & E7 & E8 & E9 & Hobj).
  cbn [path pos d1 d2 i1 i2 obj tokptr toklen tok] in *. subst.
  unfold mjson_find_cb in Hc.
  cbn [path pos d1 d2 i1 i2 obj tokptr toklen tok negb] in Hc.
  change (MJSON_TOK_INVALID =? MJSON_TOK_INVALID) with true in Hc. cbn [negb] in Hc.
  unfold set_found, set_pos, set_d1, set_d2, set_i1, set_i2, set_obj in Hc.
  cbn [path pos d1 d2 i1 i2 obj tokptr toklen tok] in Hc.
  rewrite ?path_get_root in Hc. unfold mbind, res_bind in Hc.
  unfold depth_change in *.
  repeat first
    [ progress cbn [path pos d1 d2 i1 i2 obj tokptr toklen tok andb negb] in Hc
    | rewrite path_get_root in Hc
    | progress change (0 =? 0) with true in Hc
    | case_match ];
    simplify_eq; unfold root_inv; cbn [path pos d1 d2 i1 i2 obj tokptr toklen tok].
  all: repeat match goal with
              | H : (_ || _) = true |- _ => apply orb_prop in H; destruct H
              end.
  all: bool_facts.
  all: cbn [path pos d1 d2 i1 i2 obj tokptr toklen tok] in *.
  all: repeat match goal with
              | H : path_get (bytes "$") 1 = Val _ |- _ =>
                  rewrite path_get_root in H; injection H as <-
              end.
  all: repeat match goal with
              | H : (_ && _) = false |- _ => apply andb_false_iff in H; destruct H
              end.
  all: bool_facts.
  all: unfold MJSON_TOK_KEY in *.
  all: try lia.
  all: do 9 (split; [first [reflexivity | lia]|]).
  all: right; destruct Hobj as [(Hd0 & Hob & Hws) | (Hd1 & Hob & Hws & Hop)];
         try lia; repeat split; try lia; try assumption.
Qed.

Lemma root_cb_stop (s : list Z) (tp tl : dest) (ev off n dp : Z) (d d' : msjon_find_data) :
  0 <= off -> 0 <= dp -> event_shape s ev off n -> dp + depth_change ev = 0 ->
  depth_change ev = -1 \/ MJSON_TOK_IS_VALUE ev = true ->
  root_inv s tp tl off dp d -> mjson_find_cb ev s off n d = Val d' ->
  root_found s tp tl (off + n) d'.
Proof.
  intros Hoff Hdp Hsh Hrun Hkind Hinv Hc.
  pose proof (event_shape_nonneg _ _ _ _ Hsh) as Hn.
  pose proof (event_kind _ _ _ _ Hsh) as Hk.
  assert (Hkind' : depth_change ev = -1 \/ 10 < ev < 20).
  { destruct Hkind as [Hkind | Hkind]; [left; exact Hkind | right].
    unfold MJSON_TOK_IS_VALUE in Hkind. bool_facts. lia. }
  clear Hkind.
  destruct d as [jp ps a1 a2 b1 b2 ob tp0 tl0 tk].
  destruct Hinv as (E1 & E2 & E3 & E4 & E5 & E6 & E7 & E8 & E9 & Hobj).
  cbn [path pos d1 d2 i1 i2 obj tokptr toklen tok] in *. subst.
  unfold mjson_find_cb in Hc.
  cbn [path pos d1 d2 i1 i2 obj tokptr toklen tok negb] in Hc.
  change (MJSON_TOK_INVALID =? MJSON_TOK_INVALID) with true in Hc. cbn [negb] in Hc.
  unfold set_found, set_pos, set_d1, set_d2, set_i1, set_i2, set_obj in Hc.
  cbn [path pos d1 d2 i1 i2 obj tokptr toklen tok] in Hc.
  rewrite ?path_get_root in Hc. unfold mbind, res_bind in Hc.
  unfold depth_change in *.
  repeat first
    [ progress cbn [path pos d1 d2 i1 i2 obj tokptr toklen tok andb negb] in Hc
    | rewrite path_get_root in Hc
    | progress change (0 =? 0) with true in Hc
    | case_match ];
    simplify_eq; unfold root_found; cbn [path pos d1 d2 i1 i2 obj tokptr toklen tok].
  all: repeat match goal with
              | H : (_ || _) = true |- _ => apply orb_prop in H; destruct H
              end.
  all: bool_facts.
  all: cbn [path pos d1 d2 i1 i2 obj tokptr toklen tok] in *.
  all: repeat match goal with
              | H : path_get (bytes "$") 1 = Val _ |- _ =>
                  rewrite path_get_root in H; injection H as <-
              end.
  all: repeat match goal with
              | H : (_ && _) = false |- _ => apply andb_false_iff in H; destruct H
              end.
  all: bool_facts.
  all: unfold MJSON_TOK_KEY in *.
  all: try lia.
  all: destruct Hobj as [(Hd0 & Hob & Hws) | (Hd1 & Hob & Hws & Hop)]; try lia.
  all: try (exists ob; split; [lia|]; split; [exact Hws|]; split; [reflexivity|];
            split; [f_equal; lia|];
            right; split; [unfold MJSON_TOK_OBJECT, MJSON_TOK_ARRAY; lia|];
            split; [exact Hop|]; split; [|lia];
            replace (ob + (off + n - ob) - 1) with off by lia; lia).
  all: try (exists off; split; [lia|]; split; [exact Hws|]; split; [reflexivity|];
            split; [f_equal; lia|];
            left; split; [unfold MJSON_TOK_IS_VALUE; lia|];
            replace (off + n - off) with n by lia; exact Hsh).
  all: unfold MJSON_TOK_IS_VALUE in *.
  all: repeat match goal with
              | H : (_ && _) = false |- _ => apply andb_false_iff in H; destruct H
              end.
  all: bool_facts; lia.
Qed.

Lemma find_root (s : list Z) (len : Z) (tp tl tp' tl' : dest) (t : Z) :
  mjson_find s len (bytes "$") tp tl = Val (t, tp', tl') ->
  exists r, mjson s len None tt = Val (r, tt)
    /\ ((r < 0 /\ t = MJSON_TOK_INVALID /\ tp' = tp /\ tl' = tl)
        \/ (0 <= r /\ exists p, 0 <= p /\ all_ws s 0 p
                                /\ tp' = store tp p /\ tl' = store tl (r - p)
                                /\ found_shape s t p (r - p))).
Proof.
  unfold mjson_find. change (path_get (bytes "$") 0) with (Val CH_DOLLAR : res Z).
  cbn [mbind res_bind]. change (negb (CH_DOLLAR =? CH_DOLLAR)) with false. cbv iota.
  destruct (mjson s len (Some mjson_find_cb) _) as [[r d] | u |] eqn:Hrun;
    cbn [mbind res_bind]; try discriminate.
  intros Hf. exists r. split; [exact (mjson_cb_free s len _ _ _ r tt Hrun)|].
  destruct (mjson_events s len mjson_find_cb (root_inv s tp tl) (root_found s tp tl))
    with (5 := Hrun) as [[Hr (p & Hp & Hws & Hpt & Hpl & Hsh)] | [Hr (k & dp & _ & _ & Hinv)]].
  - intros i dp ud Hi Hw (E1 & E2 & E3 & E4 & E5 & E6 & E7 & E8 & E9 & Hobj).
    do 9 (split; [assumption|]).
    destruct Hobj as [(Hd0 & Hob & Hws) | (Hd1 & Hob & Hws & Hop)].
    + left. repeat split; try assumption.
      intros j Hj. destruct (Z.eq_dec j i) as [-> | Hne]; [exact Hw | apply Hws; lia].
    + right. repeat split; try assumption; lia.
  - intros ev off n dp ud ud'. apply root_cb_run.
  - intros ev off n dp ud ud'. apply root_cb_stop.
  - do 9 (split; [first [reflexivity | cbn; lia]|]). left. repeat split.
    intros j Hj. lia.
  - right. split; [exact Hr|]. exists p.
    destruct (Z.ltb_spec r 0); [lia|]. injection Hf as <- <- <-.
    repeat split; assumption.
  - left. destruct (Z.ltb_spec r 0); [|lia]. injection Hf as <- <- <-.
    destruct Hinv as (_ & _ & _ & _ & _ & _ & E7 & E8 & _).
    repeat split; assumption.
Qed.

(** For the path [$], [mjson_find] agrees with the scan of the input:
    when the scan (as [mjson] with no callback reports it) fails, the
    token is [MJSON_TOK_INVALID] and the destinations are left as they
    were; when it consumes [r] bytes, what is found is the top-level
    value: its span starts at the first byte that is not white space and
    ends with the last byte consumed, and has the shape of the returned
    token. *)
Theorem mjson_find_root (s : list Z) (len : Z) (tp tl tp' tl' : dest) (t : Z) :
  mjson_find s len (bytes "$") tp tl = Val (t, tp', tl') ->
  exists r, mjson s len None tt = Val (r, tt)
    /\ ((r < 0 /\ t = MJSON_TOK_INVALID /\ tp' = tp /\ tl' = tl)
        \/ (0 <= r /\ exists p, 0 <= p /\ all_ws s 0 p
                                /\ tp' = store tp p /\ tl' = store tl (r - p)
                                /\ found_shape s t p (r - p))).
Proof. exact (find_root s len tp tl tp' tl' t). Qed.

Lemma mjson_find_root_witness :
  let s := json "  [1, {'a': 2}] x" in
  exists r, mjson s 17 None tt = Val (r, tt)
    /\ ((r < 0 /\ MJSON_TOK_ARRAY = MJSON_TOK_INVALID
         /\ Some (Some 2) = Some None /\ Some (Some 13) = Some None)
        \/ (0 <= r /\ exists p, 0 <= p /\ all_ws s 0 p
                                /\ Some (Some 2) = store (Some None) p
                                /\ Some (Some 13) = store (Some None) (r - p)
                                /\ found_shape s MJSON_TOK_ARRAY p (r - p))).
Proof.
  apply (mjson_find_root (json "  [1, {'a': 2}] x") 17 (Some None) (Some None)).
  vm_compute. reflexivity.
Defined.

(* ------------------------------------------------------------------ *)
(** ** The printers, for any sink that behaves like a buffer *)

Section Sink.
Context {U : Type}.
Variable fn : mjson_print_fn_t U.
(** [inv]: the states the sink is used in; [put ud a]: the state after
    the bytes [a] are sent; [cnt ud a]: the count the sink reports for
    them. *)
Variable inv : U -> Prop.
Variable put : U -> list Z -> U.
Variable cnt : U -> list Z -> Z.
Hypothesis fn_spec : forall p n ud,
  inv ud -> 0 <= n -> fn p n ud = Val (cnt ud (span_bytes p n), put ud (span_bytes p n)).
Hypothesis put_inv : forall ud a, inv ud -> inv (put ud a).
Hypothesis put_nil : forall ud, inv ud -> put ud [] = ud /\ cnt ud [] = 0.
Hypothesis put_app : forall ud a b,
  inv ud -> put (put ud a) b = put ud (a ++ b) /\ cnt ud (a ++ b) = cnt ud a + cnt (put ud a) b.

Lemma fn_one (c : Z) (ud : U) :
  inv ud -> fn [c] 1 ud = Val (cnt ud [c], put ud [c]).
Proof. intros Hi. rewrite fn_spec by (assumption || lia). reflexivity. Qed.

Lemma fn_at (s : list Z) (i : Z) (ud : U) :
  inv ud -> 0 <= i < Z.of_nat (length s) ->
  fn (sfrom s i) 1 ud = Val (cnt ud [sget s i], put ud [sget s i]).
Proof.
  intros Hi Hr. rewrite fn_spec by (assumption || lia).
  assert (E : span_bytes (sfrom s i) 1 = [sget s i]).
  { rewrite span_bytes_take by (rewrite length_sfrom; lia).
    change (Z.to_nat 1) with 1%nat. apply take_1_sfrom. lia. }
  rewrite E. reflexivity.
Qed.

Lemma print_str_loop_sink (s : list Z) (k : nat) : forall i n ud,
  inv ud -> 0 <= i -> i + Z.of_nat k <= Z.of_nat (length s) ->
  print_str_loop k s i n fn ud
  = Val (n + cnt ud (escaped (bytes_between s i (i + Z.of_nat k))),
         put ud (escaped (bytes_between s i (i + Z.of_nat k)))).
Proof.
  induction k as [|k IH]; intros i n ud Hinv Hi Hk.
  - rewrite bytes_between_nil by lia. cbn [print_str_loop escaped flat_map].
    destruct (put_nil ud Hinv) as [-> ->]. rewrite Z.add_0_r. reflexivity.
  - cbn [print_str_loop]. rewrite (bytes_between_cons s i) by lia.
    replace (i + Z.of_nat (S k)) with (i + 1 + Z.of_nat k) by lia.
    rewrite escaped_cons. unfold escape_byte at 1 2.
    destruct (mjson_esc (sget s i) 1 =? 0) eqn:E; cbn [negb].
    + rewrite fn_at by (assumption || lia). cbn [mbind res_bind].
      rewrite IH by (try apply put_inv; assumption || lia).
      destruct (put_app ud [sget s i] (escaped (bytes_between s (i + 1) (i + 1 + Z.of_nat k)))
                  Hinv) as [-> ->].
      f_equal. f_equal. lia.
    + rewrite fn_one by assumption. cbn [mbind res_bind].
      rewrite fn_one by (apply put_inv; assumption). cbn [mbind res_bind].
      rewrite IH by (try (apply put_inv, put_inv); assumption || lia).
      destruct (put_app ud [CH_BACKSLASH] [mjson_esc (sget s i) 1] Hinv) as [E1 E2].
      cbn [app] in E1, E2. rewrite E1.
      destruct (put_app ud [CH_BACKSLASH; mjson_esc (sget s i) 1]
                  (escaped (bytes_between s (i + 1) (i + 1 + Z.of_nat k))) Hinv) as [-> ->].
      rewrite E2. cbn [app]. f_equal. f_equal. lia.
Qed.

Lemma print_str_sink (text : list Z) (ud : U) :
  inv ud ->
  mjson_print_str text (Z.of_nat (length text)) fn ud
  = Val (cnt ud (literal text), put ud (literal text)).
Proof.
  intros Hinv. unfold mjson_print_str. rewrite fn_one by assumption. cbn [mbind res_bind].
  rewrite Nat2Z.id, print_str_loop_sink by (try apply put_inv; assumption || lia).
  cbn [mbind res_bind]. rewrite Z.add_0_l. fold (span_bytes text (Z.of_nat (length text))).
  rewrite span_bytes_all.
  rewrite fn_one by (apply put_inv, put_inv; assumption). cbn [mbind res_bind].
  destruct (put_app ud [CH_DQUOTE] (escaped text) Hinv) as [E1 E2]. rewrite E1.
  destruct (put_app ud ([CH_DQUOTE] ++ escaped text) [CH_DQUOTE] Hinv) as [E3 E4].
  rewrite E3. unfold literal. cbn [app] in *.
  change ((CH_DQUOTE :: escaped text) ++ [CH_DQUOTE])
    with (CH_DQUOTE :: escaped text ++ [CH_DQUOTE]).
  rewrite E4, E2. reflexivity.
Qed.

Lemma print_digits_sink (k : nat) : forall n ud,
  inv ud -> 0 <= n <= 10 * 10 ^ Z.of_nat k ->
  let ds := digits_of (S (S k)) n in
  let t := if starts_10 ds then tl ds else ds in
  print_int_rec (S k) n fn ud = Val (cnt ud t, put ud t).
Proof.
  assert (Hlow : forall f n ud, inv ud -> 0 <= n <= 10 ->
            let ds := digits_of (S (S f)) n in
            let t := if starts_10 ds then tl ds else ds in
            print_int_rec (S f) n fn ud = Val (cnt ud t, put ud t)).
  { intros f n ud Hinv Hn. cbv zeta. rewrite print_int_rec_S.
    destruct (Z.ltb_spec n 0); [lia|]. destruct (Z.gtb_spec n 10); [lia|].
    cbn [mbind res_bind]. rewrite Z.rem_mod_nonneg by lia.
    rewrite fn_spec by (assumption || lia). cbn [mbind res_bind].
    assert (E : span_bytes (sfrom (bytes "0123456789") (n mod 10)) 1 = [48 + n mod 10]).
    { pose proof (Z.mod_pos_bound n 10 ltac:(lia)).
      rewrite span_bytes_take
        by (rewrite length_sfrom by lia; change (Z.of_nat (length (bytes "0123456789"))) with 10;
            lia).
      change (Z.to_nat 1) with 1%nat. apply digit_at. lia. }
    rewrite E. rewrite Z.add_0_l.
    destruct (Z.eq_dec n 10) as [-> | Hne].
    - reflexivity.
    - rewrite digits_of_small by lia. reflexivity. }
  induction k as [|k IH]; intros n ud Hinv Hn.
  - apply Hlow; [assumption|]. cbn in Hn. lia.
  - destruct (Z.le_gt_cases n 10) as [Hle | Hgt]; [apply Hlow; [assumption | lia]|].
    cbv zeta. rewrite print_int_rec_S.
    destruct (Z.ltb_spec n 0); [lia|]. destruct (Z.gtb_spec n 10); [|lia].
    rewrite Z.quot_div_nonneg by lia.
    assert (Hq : 0 <= n / 10 <= 10 * 10 ^ Z.of_nat k).
    { split; [apply Z.div_pos; lia|]. apply Z.div_le_upper_bound; [lia|].
      replace (Z.of_nat (S k)) with (Z.of_nat k + 1) in Hn by lia.
      rewrite Z.pow_add_r, Z.pow_1_r in Hn by lia. lia. }
    rewrite (IH (n / 10) ud Hinv Hq). cbn [mbind res_bind].
    rewrite Z.rem_mod_nonneg by lia.
    rewrite fn_spec by (try apply put_inv; assumption || lia). cbn [mbind res_bind].
    assert (E : span_bytes (sfrom (bytes "0123456789") (n mod 10)) 1 = [48 + n mod 10]).
    { pose proof (Z.mod_pos_bound n 10 ltac:(lia)).
      rewrite span_bytes_take
        by (rewrite length_sfrom by lia; change (Z.of_nat (length (bytes "0123456789"))) with 10;
            lia).
      change (Z.to_nat 1) with 1%nat. apply digit_at. lia. }
    rewrite E.
    rewrite (digits_of_big (S (S k)) n) by lia.
    set (ds' := digits_of (S (S k)) (n / 10)).
    assert (Hrel : (if starts_10 (ds' ++ [48 + n mod 10]) then tl (ds' ++ [48 + n mod 10])
                    else ds' ++ [48 + n mod 10])
                   = (if starts_10 ds' then tl ds' else ds') ++ [48 + n mod 10]).
    { destruct (Z.lt_ge_cases (n / 10) 10) as [Hs | Hb].
      - unfold ds'. rewrite digits_of_small by lia. cbn [app starts_10].
        assert (Hn10 : n = 10 * (n / 10) + n mod 10) by (apply Z.div_mod; lia).
        pose proof (Z.mod_pos_bound n 10 ltac:(lia)).
        pose proof (Z.mod_pos_bound (n / 10) 10 ltac:(lia)).
        rewrite (Z.mod_small (n / 10)) by lia.
        destruct (Z.eqb_spec (48 + n / 10) 49); [|reflexivity].
        destruct (Z.eqb_spec (48 + n mod 10) 48); [lia | reflexivity].
      - destruct (digits_of_two k (n / 10) Hb) as (a & b & r & E'). fold ds' in E'.
        rewrite E'. cbn [app starts_10 tl]. destruct ((a =? 49) && (b =? 48)); reflexivity. }
    rewrite Hrel.
    destruct (put_app ud (if starts_10 ds' then tl ds' else ds') [48 + n mod 10] Hinv)
      as [-> ->]. reflexivity.
Qed.

Lemma print_int_sink (n : Z) (ud : U) :
  inv ud -> INT_MIN < n <= INT_MAX ->
  mjson_print_int n fn ud
  = Val ((if n <? 0 then cnt (put ud [CH_MINUS]) (int_body n) + 1 else cnt ud (int_body n)),
         put ud (int_text n)).
Proof.
  unfold INT_MIN, INT_MAX, int_text, int_body. intros Hinv Hn.
  unfold mjson_print_int. destruct (Z.ltb_spec n 0) as [Hneg | Hpos].
  - rewrite print_int_rec_S. destruct (Z.ltb_spec n 0); [|lia].
    rewrite fn_spec by (assumption || lia). cbn [mbind res_bind].
    change (span_bytes (bytes "-") 1) with [CH_MINUS].
    destruct (Z.eqb_spec n INT_MIN); [unfold INT_MIN in *; lia|].
    pose proof (print_digits_sink 10 (- n) (put ud [CH_MINUS])) as Hp.
    cbv zeta in Hp.
    rewrite Hp by (try apply put_inv; try assumption;
                   change (10 * 10 ^ Z.of_nat 10) with 100000000000; lia).
    cbn [mbind res_bind]. rewrite Z.abs_neq by lia.
    destruct (put_app ud [CH_MINUS]
                (if starts_10 (digits_of 12 (- n)) then tl (digits_of 12 (- n))
                 else digits_of 12 (- n)) Hinv) as [-> _].
    reflexivity.
  - pose proof (print_digits_sink 11 n ud) as Hp. cbv zeta in Hp.
    rewrite Hp by (try assumption; change (10 * 10 ^ Z.of_nat 11) with 1000000000000; lia).
    rewrite Z.abs_eq by lia.
    assert (E : digits_of 13 n = digits_of 12 n).
    { apply (digits_of_more 11 1 n).
      change (10 ^ Z.of_nat 12) with 1000000000000. lia. }
    rewrite E. reflexivity.
Qed.
End Sink.

(* ------------------------------------------------------------------ *)
(** ** Printing into a fixed buffer *)

Lemma Val_pair_inj {A B : Type} (a a' : A) (b b' : B) :
  Val (a, b) = Val (a', b') -> a = a' /\ b = b'.
Proof. intros H. injection H as -> ->. split; reflexivity. Qed.

Lemma fb_step (p : list Z) (n : Z) (fb : mjson_fixed_buf) :
  fb_inv fb -> 0 <= n ->
  mjson_fixed_buf_printer p n fb
  = Val (fb_cnt fb (span_bytes p n), fb_put fb (span_bytes p n)).
Proof.
  intros Hinv Hn. destruct (fixed_buf_write p n fb Hinv Hn) as [-> _].
  destruct Hinv as [Hlen _].
  unfold fb_cnt, fb_put, fb_room. cbv zeta. rewrite length_span_bytes.
  replace (Z.of_nat (Z.to_nat n)) with n by lia.
  rewrite take_span_bytes by lia. reflexivity.
Qed.

Lemma fb_put_inv (fb : mjson_fixed_buf) (a : list Z) : fb_inv fb -> fb_inv (fb_put fb a).
Proof.
  intros Hinv.
  destruct (fixed_buf_write a (Z.of_nat (length a)) fb Hinv ltac:(lia)) as [E Hinv'].
  rewrite fb_step in E by (assumption || lia). injection E as _ E.
  rewrite span_bytes_all in E. cbv zeta in Hinv'. rewrite <- E in Hinv'. exact Hinv'.
Qed.

Lemma fb_put_nil (fb : mjson_fixed_buf) : fb_inv fb -> fb_put fb [] = fb /\ fb_cnt fb [] = 0.
Proof.
  intros [Hlen Hmem]. unfold fb_put, fb_cnt, fb_room. cbv zeta. cbn [length].
  replace (Z.min (Z.of_nat 0) (fb_size fb - fb_len fb)) with 0 by lia.
  split; [|reflexivity]. destruct fb as [ptr size len]. cbn [fb_ptr fb_size fb_len] in *.
  rewrite Z.add_0_r. change (take (Z.to_nat 0) (@nil Z)) with (@nil Z). cbn [app].
  rewrite take_drop. reflexivity.
Qed.

Lemma fb_put_app (fb : mjson_fixed_buf) (a b : list Z) :
  fb_inv fb ->
  fb_put (fb_put fb a) b = fb_put fb (a ++ b)
  /\ fb_cnt fb (a ++ b) = fb_cnt fb a + fb_cnt (fb_put fb a) b.
Proof.
  intros Hinv.
  pose proof (fixed_buf_write_app a b (Z.of_nat (length a)) (Z.of_nat (length b)) fb Hinv
                ltac:(lia) ltac:(lia)) as E.
  rewrite !span_bytes_all in E.
  rewrite (fb_step a) in E by (assumption || lia). cbn [mbind res_bind] in E.
  rewrite (fb_step b) in E by (try apply fb_put_inv; assumption || lia).
  cbn [mbind res_bind] in E.
  replace (Z.of_nat (length a) + Z.of_nat (length b)) with (Z.of_nat (length (a ++ b))) in E
    by (rewrite length_app; lia).
  rewrite (fb_step (a ++ b)) in E by (assumption || lia).
  rewrite !span_bytes_all in E. apply Val_pair_inj in E. destruct E as [E1 E2].
  split; [exact E2 | symmetry; exact E1].
Qed.

Lemma print_str_fixed_buf (text : list Z) (fb : mjson_fixed_buf) :
  fb_inv fb ->
  mjson_print_str text (Z.of_nat (length text)) mjson_fixed_buf_printer fb
  = Val (fb_cnt fb (literal text), fb_put fb (literal text))
  /\ fb_inv (fb_put fb (literal text)).
Proof.
  intros Hinv. split; [|apply fb_put_inv; exact Hinv].
  apply (print_str_sink mjson_fixed_buf_printer fb_inv fb_put fb_cnt).
  - intros p n ud. apply fb_step.
  - intros ud a. apply fb_put_inv.
  - apply fb_put_nil.
  - apply fb_put_app.
  - exact Hinv.
Qed.

(** Printing a string into a fixed buffer that has [len <= size] and
    [size] bytes of memory never writes past the buffer: the buffer
    ends up with as much of the literal (the text [mjson_print_str]
    emits into a sink that accepts everything) as there is room for,
    appended at [len]; the returned count is the number of bytes
    written; and [len <= size] still holds. *)
Theorem mjson_print_str_fixed_buf (text : list Z) (fb : mjson_fixed_buf) :
  fb_inv fb ->
  mjson_print_str text (Z.of_nat (length text)) mjson_fixed_buf_printer fb
  = Val (fb_cnt fb (literal text), fb_put fb (literal text))
  /\ fb_inv (fb_put fb (literal text)).
Proof. exact (print_str_fixed_buf text fb). Qed.

Lemma mjson_print_str_fixed_buf_witness :
  mjson_print_str [97; CH_LF; 98] 3 mjson_fixed_buf_printer (FixedBuf [7; 7; 7; 7; 7] 5 1)
  = Val (4, FixedBuf [7; CH_DQUOTE; 97; CH_BACKSLASH; 110] 5 5)
  /\ fb_inv (FixedBuf [7; CH_DQUOTE; 97; CH_BACKSLASH; 110] 5 5).
Proof.
  apply (mjson_print_str_fixed_buf [97; CH_LF; 98] (FixedBuf [7; 7; 7; 7; 7] 5 1)).
  unfold fb_inv. cbn. lia.
Defined.

Lemma print_int_fixed_buf (n : Z) (fb : mjson_fixed_buf) :
  fb_inv fb -> INT_MIN < n <= INT_MAX ->
  exists r,
    mjson_print_int n mjson_fixed_buf_printer fb = Val (r, fb_put fb (int_text n))
    /\ fb_inv (fb_put fb (int_text n))
    /\ (0 <= n \/ 0 < fb_room fb -> r = fb_cnt fb (int_text n))
    /\ (n < 0 -> fb_room fb = 0 -> r = 1).
Proof.
  intros Hinv Hn.
  pose proof (print_int_sink mjson_fixed_buf_printer fb_inv fb_put fb_cnt
                (fun p n ud => fb_step p n ud) fb_put_inv fb_put_app n fb Hinv Hn)
    as E.
  eexists. split; [exact E|]. split; [apply fb_put_inv; exact Hinv|].
  destruct Hinv as [Hlen Hmem]. unfold int_text.
  destruct (Z.ltb_spec n 0) as [Hneg | Hpos].
  - unfold fb_cnt, fb_put, fb_room. cbv zeta. cbn [fb_len fb_size length].
    split; [intros [H | H]; [lia|] | intros _ H]; lia.
  - split; [reflexivity | lia].
Qed.

(** Printing an integer into a fixed buffer never writes past the
    buffer: the buffer ends up with as much of the text
    [mjson_print_int] emits as there is room for, and [len <= size]
    still holds.  The returned count is the number of bytes written
    when [n >= 0] or the buffer is not full; for [n < 0] and a full
    buffer it is 1, although nothing is written: the count of the sign
    is added whatever the sink reports. *)
Theorem mjson_print_int_fixed_buf (n : Z) (fb : mjson_fixed_buf) :
  fb_inv fb -> INT_MIN < n <= INT_MAX ->
  exists r,
    mjson_print_int n mjson_fixed_buf_printer fb = Val (r, fb_put fb (int_text n))
    /\ fb_inv (fb_put fb (int_text n))
    /\ (0 <= n \/ 0 < fb_room fb -> r = fb_cnt fb (int_text n))
    /\ (n < 0 -> fb_room fb = 0 -> r = 1).
Proof. exact (print_int_fixed_buf n fb). Qed.

Lemma mjson_print_int_fixed_buf_witness :
  exists r,
    mjson_print_int (-57) mjson_fixed_buf_printer (FixedBuf [7; 7] 2 2)
      = Val (r, fb_put (FixedBuf [7; 7] 2 2) (int_text (-57)))
    /\ fb_inv (fb_put (FixedBuf [7; 7] 2 2) (int_text (-57)))
    /\ (0 <= -57 \/ 0 < fb_room (FixedBuf [7; 7] 2 2)
        -> r = fb_cnt (FixedBuf [7; 7] 2 2) (int_text (-57)))
    /\ (-57 < 0 -> fb_room (FixedBuf [7; 7] 2 2) = 0 -> r = 1).
Proof.
  apply (mjson_print_int_fixed_buf (-57) (FixedBuf [7; 7] 2 2)).
  - unfold fb_inv. cbn. lia.
  - unfold INT_MIN, INT_MAX. lia.
Defined.

(* ------------------------------------------------------------------ *)
(** ** String decoding: what [mjson_unescape] leaves alone *)

Lemma buf_set_frame (to : list Z) (j v n : Z) :
  0 <= j < n -> n <= Z.of_nat (length to) ->
  exists to', buf_set to j v = Val to' /\ length to' = length to
              /\ drop (Z.to_nat n) to' = drop (Z.to_nat n) to.
Proof.
  intros Hj Hn. unfold buf_set.
  destruct (Z.leb_spec 0 j); [|lia]. destruct (Z.ltb_spec j (Z.of_nat (length to))); [|lia].
  cbn [andb]. eexists. split; [reflexivity|]. split.
  - apply length_insert.
  - apply drop_insert_lt. lia.
Qed.

Lemma unescape_loop_frame (s : list Z) (len n : Z) (fuel : nat) : forall i j to,
  (Z.to_nat (len - i) < fuel)%nat -> 0 <= j -> n <= Z.of_nat (length to) ->
  exists e to',
    unescape_loop fuel s len n i j to = Val (e, to')
    /\ length to' = length to
    /\ drop (Z.to_nat n) to' = drop (Z.to_nat n) to
    /\ match e with inl j' => j <= j' | inr r => r = -1 end.
Proof.
  induction fuel as [|fuel IH]; intros i j to Hf Hj Hcap; [lia|].
  cbn [unescape_loop].
  destruct (Z.ltb_spec i len) as [Hi | Hi]; cbn [andb];
    [|exists (inl j), to; repeat split; lia].
  destruct (Z.ltb_spec j n) as [Hjn | Hjn]; [|exists (inl j), to; repeat split; lia].
  destruct ((sget s i =? CH_BACKSLASH) && (i + 1 <? len)).
  - cbv zeta. destruct (mjson_esc (sget s (i + 1)) 0 =? 0).
    + exists (inr (-1)), to. repeat split; reflexivity.
    + destruct (buf_set_frame to j (mjson_esc (sget s (i + 1)) 0) n ltac:(lia) Hcap)
        as (to1 & -> & Hl1 & Hd1).
      cbn [mbind res_bind].
      destruct (IH (i + 1 + 1) (j + 1) to1 ltac:(lia) ltac:(lia) ltac:(lia))
        as (e & to' & -> & Hl & Hd & He).
      exists e, to'. split; [reflexivity|]. split; [congruence|]. split; [congruence|].
      destruct e; [lia | exact He].
  - destruct (buf_set_frame to j (sget s i) n ltac:(lia) Hcap) as (to1 & -> & Hl1 & Hd1).
    cbn [mbind res_bind].
    destruct (IH (i + 1) (j + 1) to1 ltac:(lia) ltac:(lia) ltac:(lia))
      as (e & to' & -> & Hl & Hd & He).
    exists e, to'. split; [reflexivity|]. split; [congruence|]. split; [congruence|].
    destruct e; [lia | exact He].
Qed.

(** [mjson_unescape] stays inside the [n] bytes it is given: with a
    destination of at least [n] bytes it always returns, either -1 or a
    length below [n], whatever the source bytes are, and the
    destination keeps its size and every byte from index [n] on. *)
Theorem mjson_unescape_safe (s : list Z) (len : Z) (to : list Z) (n : Z) :
  n <= Z.of_nat (length to) ->
  exists r to',
    mjson_unescape s len to n = Val (r, to')
    /\ (r = -1 \/ 0 <= r < n)
    /\ length to' = length to
    /\ drop (Z.to_nat n) to' = drop (Z.to_nat n) to.
Proof.
  intros Hcap. unfold mjson_unescape.
  destruct (unescape_loop_frame s len n (S (Z.to_nat len)) 0 0 to ltac:(lia) ltac:(lia) Hcap)
    as (e & to1 & -> & Hl & Hd & He).
  cbn [mbind res_bind]. destruct e as [j | r].
  - destruct (Z.geb_spec j n) as [Hge | Hlt].
    + exists (-1), to1. repeat split; try assumption. left. reflexivity.
    + destruct (Z.gtb_spec n 0); [|lia].
      destruct (buf_set_frame to1 j 0 n ltac:(lia) ltac:(lia)) as (to2 & -> & Hl2 & Hd2).
      cbn [mbind res_bind]. exists j, to2. split; [reflexivity|].
      split; [right; lia|]. split; congruence.
  - subst r. exists (-1), to1. repeat split; try assumption. left. reflexivity.
Qed.

Lemma mjson_unescape_safe_witness :
  exists r to',
    mjson_unescape (bytes "a\nbcdef") 8 [1; 2; 3; 4; 5; 6] 4 = Val (r, to')
    /\ (r = -1 \/ 0 <= r < 4)
    /\ length to' = length [1; 2; 3; 4; 5; 6]
    /\ drop (Z.to_nat 4) to' = drop (Z.to_nat 4) [1; 2; 3; 4; 5; 6].
Proof.
  apply (mjson_unescape_safe (bytes "a\nbcdef") 8 [1; 2; 3; 4; 5; 6] 4). cbn. lia.
Defined.

(* ------------------------------------------------------------------ *)
(** ** From the printer to the lookup: a member found by its key *)

Section MemberSteps.
Context {U : Type}.
Variable s : list Z.
Variable len : Z.
Variable cb : option (mjson_cb_t U).

Lemma open_brace_step fuel i d nest ud ud' :
  sget s i = CH_LBRACE -> i < len -> 0 <= d < MJSON_MAX_DEPTH ->
  MJSONCALL s cb CH_LBRACE i i ud = Val ud' ->
  mjson_loop s len cb (S fuel) (Scan i d nest S_VALUE ud)
  = mjson_loop s len cb fuel
      (Scan (i + 1) (d + 1) (<[Z.to_nat d := CH_LBRACE]> nest) S_KEY ud').
Proof.
  unfold MJSON_MAX_DEPTH. intros Hc Hi Hd Hcall. cbn [mjson_loop sc_i].
  destruct (Z.ltb_spec i len); [|lia].
  unfold mjson_body. cbn [sc_i sc_depth sc_nesting sc_expecting sc_ud].
  rewrite Hc. cbn [Z.eqb Pos.eqb orb].
  assert (Hge : (d >=? MJSON_MAX_DEPTH) = false) by (unfold MJSON_MAX_DEPTH; lia).
  rewrite Hge, Hcall. reflexivity.
Qed.

Lemma key_step fuel i d nest ud ud' n :
  sget s i = CH_DQUOTE -> i < len ->
  mjson_pass_string (sfrom s (i + 1)) (len - i - 1) = n -> 0 <= n ->
  MJSONCALL s cb MJSON_TOK_KEY i (i + (n + 1)) ud = Val ud' ->
  mjson_loop s len cb (S fuel) (Scan i d nest S_KEY ud)
  = mjson_loop s len cb fuel (Scan (i + (n + 1) + 1) d nest S_COLON ud').
Proof.
  intros Hc Hi Hp Hn Hcall. cbn [mjson_loop sc_i].
  destruct (Z.ltb_spec i len); [|lia].
  unfold mjson_body. cbn [sc_i sc_depth sc_nesting sc_expecting sc_ud].
  rewrite Hc, Hp. cbn [Z.eqb Pos.eqb orb].
  destruct (Z.ltb_spec n 0); [lia|]. rewrite Hcall. reflexivity.
Qed.

Lemma colon_step fuel i d nest ud ud' :
  sget s i = CH_COLON -> i < len ->
  MJSONCALL s cb CH_COLON i i ud = Val ud' ->
  mjson_loop s len cb (S fuel) (Scan i d nest S_COLON ud)
  = mjson_loop s len cb fuel (Scan (i + 1) d nest S_VALUE ud').
Proof.
  intros Hc Hi Hcall. cbn [mjson_loop sc_i].
  destruct (Z.ltb_spec i len); [|lia].
  unfold mjson_body. cbn [sc_i sc_depth sc_nesting sc_expecting sc_ud].
  rewrite Hc. cbn [Z.eqb Pos.eqb orb]. rewrite Hcall. reflexivity.
Qed.

Lemma string_step fuel i d nest ud ud' n :
  sget s i = CH_DQUOTE -> i < len ->
  mjson_pass_string (sfrom s (i + 1)) (len - i - 1) = n -> 0 <= n -> d <> 0 ->
  MJSONCALL s cb MJSON_TOK_STRING i (i + (n + 1)) ud = Val ud' ->
  mjson_loop s len cb (S fuel) (Scan i d nest S_VALUE ud)
  = mjson_loop s len cb fuel (Scan (i + (n + 1) + 1) d nest S_COMMA_OR_EOO ud').
Proof.
  intros Hc Hi Hp Hn Hd Hcall. cbn [mjson_loop sc_i].
  destruct (Z.ltb_spec i len); [|lia].
  unfold mjson_body. cbn [sc_i sc_depth sc_nesting sc_expecting sc_ud].
  rewrite Hc, Hp.
  cbn [Z.eqb Pos.eqb orb andb Z.leb Z.compare Pos.compare Pos.compare_cont].
  destruct (Z.ltb_spec n 0); [lia|]. destruct (Z.eqb_spec d 0); [contradiction|].
  rewrite Hcall. reflexivity.
Qed.

Lemma close_brace_last fuel i nest ud ud' :
  sget s i = CH_RBRACE -> i < len -> nest !! O = Some CH_LBRACE ->
  MJSONCALL s cb CH_RBRACE i i ud = Val ud' ->
  mjson_loop s len cb (S fuel) (Scan i 1 nest S_COMMA_OR_EOO ud) = Val (i + 1, ud').
Proof.
  intros Hc Hi Hn Hcall. cbn [mjson_loop sc_i].
  destruct (Z.ltb_spec i len); [|lia].
  unfold mjson_body, MJSONEOO, nesting_get, MJSON_MAX_DEPTH.
  cbn [sc_i sc_depth sc_nesting sc_expecting sc_ud].
  change (1 - 1) with 0. change (Z.to_nat 0) with O.
  rewrite Hc, Hn. cbn. rewrite Hcall. reflexivity.
Qed.
End MemberSteps.

(** The body of a literal at [s[i + 1]] is passed up to its closing
    quote. *)
Lemma pass_string_at (s : list Z) (i len : Z) (text rest : list Z) :
  Forall is_byte text -> Forall (fun c => c <> 0) text ->
  sfrom s (i + 1) = escaped text ++ CH_DQUOTE :: rest ->
  Z.of_nat (length (escaped text)) < len - i - 1 ->
  mjson_pass_string (sfrom s (i + 1)) (len - i - 1) = Z.of_nat (length (escaped text)).
Proof.
  intros Hb Hnz -> Hlen. unfold mjson_pass_string.
  pose proof (pass_string_escaped text Hb Hnz [] rest (len - i - 1)
                (Z.to_nat (len - i - 1))) as Hp.
  cbn [length app Nat.add] in Hp. change (Z.of_nat 0) with 0 in Hp.
  apply Hp; lia.
Qed.

Lemma path_get_in (jp : list Z) (k : Z) (b : Z) :
  0 <= k -> jp !! Z.to_nat k = Some b -> path_get jp k = Val b.
Proof.
  intros Hk Hb. unfold path_get. destruct (Z.ltb_spec k 0); [lia|]. rewrite Hb. reflexivity.
Qed.

Lemma path_get_end (jp : list Z) : path_get jp (Z.of_nat (length jp)) = Val 0.
Proof.
  unfold path_get. destruct (Z.ltb_spec (Z.of_nat (length jp)) 0); [lia|].
  rewrite Nat2Z.id, lookup_ge_None_2 by lia. rewrite Z.eqb_refl. reflexivity.
Qed.

(** [memcmp] of a key with the same bytes in the path. *)
Lemma memcmp_path_same (body : list Z) : forall s a jp b,
  0 <= b ->
  (forall j, (j < length body)%nat -> sget s (a + Z.of_nat j) = nth j body 0) ->
  (forall j, (j < length body)%nat -> jp !! (Z.to_nat b + j)%nat = Some (nth j body 0)) ->
  memcmp_path s a jp b (length body) = Val true.
Proof.
  induction body as [|c body IH]; intros s a jp b Hb Hs Hp; [reflexivity|].
  cbn [length memcmp_path].
  rewrite (path_get_in jp b c Hb)
    by (specialize (Hp O ltac:(cbn; lia)); rewrite Nat.add_0_r in Hp; exact Hp).
  cbn [mbind res_bind].
  specialize (Hs O ltac:(cbn; lia)) as Hs0. rewrite Z.add_0_r in Hs0. cbn [nth] in Hs0.
  rewrite Hs0, Z.eqb_refl.
  apply IH; [lia| |].
  - intros j Hj. specialize (Hs (S j) ltac:(cbn; lia)). cbn [nth] in Hs.
    rewrite <- Hs. f_equal. lia.
  - intros j Hj. specialize (Hp (S j) ltac:(cbn; lia)). cbn [nth] in Hp.
    rewrite <- Hp. f_equal. lia.
Qed.

Lemma sfrom_app_here (pre l : list Z) (k : Z) :
  k = Z.of_nat (length pre) -> sfrom (pre ++ l) k = l.
Proof. intros ->. unfold sfrom. rewrite Nat2Z.id. apply drop_app_length. Qed.

Lemma sget_app_at (pre l : list Z) (k j : Z) :
  k = Z.of_nat (length pre) + j -> 0 <= j -> sget (pre ++ l) k = sget l j.
Proof. intros -> Hj. apply sget_app_r. exact Hj. Qed.

Lemma member_find (key text rest : list Z) (len : Z) (tp tl : dest) :
  Forall is_byte key -> Forall (fun c => c <> 0) key ->
  Forall is_byte text -> Forall (fun c => c <> 0) text ->
  Z.of_nat (length (member key text)) <= len ->
  mjson_find (member key text ++ rest) len (member_path key) tp tl
  = Val (MJSON_TOK_STRING,
         store tp (Z.of_nat (length (escaped key)) + 4),
         store tl (Z.of_nat (length (escaped text)) + 2)).
Proof.
  intros Hbk Hzk Hbt Hzt Hlen.
  set (K := escaped key) in *. set (T := escaped text) in *.
  set (nk := Z.of_nat (length K)). set (nt := Z.of_nat (length T)).
  set (jp := member_path key).
  assert (Hs : member key text ++ rest
               = CH_LBRACE :: CH_DQUOTE :: K ++ CH_DQUOTE :: CH_COLON :: CH_DQUOTE :: T
                            ++ CH_DQUOTE :: CH_RBRACE :: rest).
  { unfold member, literal. fold K T. cbn [app]. rewrite <- !app_assoc. cbn [app].
    rewrite <- !app_assoc. reflexivity. }
  assert (Hl : Z.of_nat (length (member key text)) = nk + nt + 7).
  { unfold member, literal. fold K T.
    repeat first [rewrite length_app | progress cbn [length]]. unfold nk, nt. lia. }
  rewrite Hl in Hlen. clear Hl. rewrite Hs. clear Hs.
  set (s := CH_LBRACE :: CH_DQUOTE :: K ++ CH_DQUOTE :: CH_COLON :: CH_DQUOTE :: T
                      ++ CH_DQUOTE :: CH_RBRACE :: rest).
  (* where the bytes are *)
  assert (Hs3 : s = (CH_LBRACE :: CH_DQUOTE :: K ++ [CH_DQUOTE])
                    ++ CH_COLON :: CH_DQUOTE :: T ++ CH_DQUOTE :: CH_RBRACE :: rest).
  { unfold s. cbn [app]. rewrite <- app_assoc. reflexivity. }
  assert (Hs5 : s = (CH_LBRACE :: CH_DQUOTE :: K ++ [CH_DQUOTE; CH_COLON; CH_DQUOTE])
                    ++ T ++ CH_DQUOTE :: CH_RBRACE :: rest).
  { unfold s. cbn [app]. rewrite <- app_assoc. reflexivity. }
  assert (Hs6 : s = (CH_LBRACE :: CH_DQUOTE :: K ++ CH_DQUOTE :: CH_COLON :: CH_DQUOTE :: T
                                ++ [CH_DQUOTE])
                    ++ CH_RBRACE :: rest).
  { unfold s. cbn [app]. rewrite <- !app_assoc. cbn [app]. rewrite <- !app_assoc.
    reflexivity. }
  assert (G0 : sget s 0 = CH_LBRACE) by reflexivity.
  assert (G1 : sget s 1 = CH_DQUOTE) by reflexivity.
  assert (Gk : sfrom s (1 + 1) = K ++ CH_DQUOTE :: CH_COLON :: CH_DQUOTE :: T
                                   ++ CH_DQUOTE :: CH_RBRACE :: rest) by reflexivity.
  assert (G3 : sget s (nk + 3) = CH_COLON).
  { rewrite Hs3. erewrite (sget_app_at _ _ _ 0); [reflexivity | | lia].
    repeat first [rewrite length_app | progress cbn [length]]. unfold nk. lia. }
  assert (G4 : sget s (nk + 4) = CH_DQUOTE).
  { rewrite Hs3. erewrite (sget_app_at _ _ _ 1); [reflexivity | | lia].
    repeat first [rewrite length_app | progress cbn [length]]. unfold nk. lia. }
  assert (Gt : sfrom s (nk + 4 + 1) = T ++ CH_DQUOTE :: CH_RBRACE :: rest).
  { rewrite Hs5. apply sfrom_app_here.
    repeat first [rewrite length_app | progress cbn [length]]. unfold nk. lia. }
  assert (G6 : sget s (nk + nt + 6) = CH_RBRACE).
  { rewrite Hs6. erewrite (sget_app_at _ _ _ 0); [reflexivity | | lia].
    repeat first [rewrite length_app | progress cbn [length]]. unfold nk, nt. lia. }
  assert (Gm : memcmp_path s (1 + 1) jp (1 + 1) (length K) = Val true).
  { apply memcmp_path_same; [lia| |].
    - intros j Hj. unfold s. change (1 + 1 + Z.of_nat j) with (2 + Z.of_nat j).
      change (CH_LBRACE :: CH_DQUOTE :: K ++ ?l) with ([CH_LBRACE; CH_DQUOTE] ++ K ++ l).
      apply (has_at_here [CH_LBRACE; CH_DQUOTE] K). exact Hj.
    - intros j Hj. unfold jp, member_path. fold K.
      change (Z.to_nat (1 + 1) + j)%nat with (S (S j)). cbn [lookup list_lookup].
      destruct (lookup_lt_is_Some_2 K j Hj) as [x Hx].
      rewrite (nth_lookup_Some _ _ 0 _ Hx). exact Hx. }
  assert (Pd : path_get jp 1 = Val CH_DOT) by reflexivity.
  assert (Pe : path_get jp (nk + 2) = Val 0).
  { replace (nk + 2) with (Z.of_nat (length jp)); [apply path_get_end|].
    unfold jp, member_path. fold K. cbn [length]. unfold nk. lia. }
  (* what the callback does with the five events *)
  set (d0 := FindData jp 1 0 0 0 0 (-1) tp tl MJSON_TOK_INVALID).
  set (d1' := FindData jp 1 1 0 0 0 (-1) tp tl MJSON_TOK_INVALID).
  set (d2' := FindData jp (nk + 2) 1 1 0 0 (-1) tp tl MJSON_TOK_INVALID).
  set (d3' := FindData jp (nk + 2) 1 1 0 0 (-1) (store tp (nk + 4)) (store tl (nt + 2))
                       MJSON_TOK_STRING).
  assert (C1 : MJSONCALL s (Some mjson_find_cb) CH_LBRACE 0 0 d0 = Val d1').
  { unfold MJSONCALL, mjson_find_cb, d0.
    cbn [path pos d1 d2 i1 i2 obj tokptr toklen tok]. rewrite Pd. reflexivity. }
  assert (C2 : MJSONCALL s (Some mjson_find_cb) MJSON_TOK_KEY 1 (1 + (nk + 1)) d1' = Val d2').
  { unfold MJSONCALL, mjson_find_cb, d1'.
    cbn [path pos d1 d2 i1 i2 obj tokptr toklen tok]. rewrite Pd.
    change (negb (MJSON_TOK_INVALID =? MJSON_TOK_INVALID)) with false. cbv iota.
    change (MJSON_TOK_KEY =? CH_LBRACE) with false.
    change (MJSON_TOK_KEY =? CH_LBRACKET) with false.
    change (MJSON_TOK_KEY =? CH_COMMA) with false. cbv iota.
    change ((MJSON_TOK_KEY =? MJSON_TOK_KEY) && (1 =? 0 + 1)) with true. cbv iota.
    cbn [mbind res_bind]. change (CH_DOT =? CH_DOT) with true. cbv iota.
    replace (1 + (nk + 1) - 1 + 1 - 2) with nk by lia.
    destruct (Z.ltb_spec nk 0); [unfold nk in *; lia|].
    replace (Z.to_nat nk) with (length K) by (unfold nk; lia).
    rewrite Gm. cbn [mbind res_bind].
    unfold set_pos, set_d2. cbn [path pos d1 d2 i1 i2 obj tokptr toklen tok].
    unfold d2'. do 2 f_equal; lia. }
  assert (C3 : MJSONCALL s (Some mjson_find_cb) CH_COLON (nk + 3) (nk + 3) d2' = Val d2').
  { reflexivity. }
  assert (C4 : MJSONCALL s (Some mjson_find_cb) MJSON_TOK_STRING (nk + 4) (nk + 4 + (nt + 1)) d2'
               = Val d3').
  { unfold MJSONCALL, mjson_find_cb, d2'.
    cbn [path pos d1 d2 i1 i2 obj tokptr toklen tok].
    change (negb (MJSON_TOK_INVALID =? MJSON_TOK_INVALID)) with false. cbv iota.
    change (MJSON_TOK_STRING =? CH_LBRACE) with false.
    change (MJSON_TOK_STRING =? CH_LBRACKET) with false.
    change (MJSON_TOK_STRING =? CH_COMMA) with false. cbv iota.
    change ((MJSON_TOK_STRING =? MJSON_TOK_KEY) && (1 =? 1 + 1)) with false. cbv iota.
    cbn [mbind res_bind].
    change ((MJSON_TOK_STRING =? CH_RBRACE) || (MJSON_TOK_STRING =? CH_RBRACKET)) with false.
    change (MJSON_TOK_IS_VALUE MJSON_TOK_STRING) with true.
    change (1 =? 1) with true. cbv iota. rewrite Pe. cbn [mbind res_bind].
    change (0 =? 0) with true. cbv iota.
    unfold set_found. cbn [path pos d1 d2 i1 i2 obj tokptr toklen tok].
    unfold d3'. do 3 f_equal. lia. }
  assert (C5 : MJSONCALL s (Some mjson_find_cb) CH_RBRACE (nk + nt + 6) (nk + nt + 6) d3'
               = Val d3').
  { reflexivity. }
  (* the scan *)
  unfold mjson_find. change (path_get jp 0) with (Val CH_DOLLAR : res Z).
  cbn [mbind res_bind]. change (negb (CH_DOLLAR =? CH_DOLLAR)) with false. cbv iota.
  fold d0. unfold mjson, mjson_run, mjson_init, mjson_fuel.
  replace (S (Z.to_nat (2 * len + 1)))
    with (S (S (S (S (S (Z.to_nat (2 * len + 1) - 4))))))%nat by lia.
  rewrite (open_brace_step s len _ _ 0 0 _ d0 d1' G0 ltac:(lia)
             ltac:(unfold MJSON_MAX_DEPTH; lia) C1).
  change (0 + 1) with 1.
  rewrite (key_step s len _ _ 1 1 _ d1' d2' nk G1 ltac:(lia)
             (pass_string_at s 1 len key _ Hbk Hzk Gk ltac:(fold K nk; lia))
             ltac:(unfold nk; lia) C2).
  replace (1 + (nk + 1) + 1) with (nk + 3) by lia.
  rewrite (colon_step s len _ _ (nk + 3) 1 _ d2' d2' G3 ltac:(lia) C3).
  replace (nk + 3 + 1) with (nk + 4) by lia.
  rewrite (string_step s len _ _ (nk + 4) 1 _ d2' d3' nt G4 ltac:(lia)
             (pass_string_at s (nk + 4) len text _ Hbt Hzt Gt ltac:(fold T nt; lia))
             ltac:(unfold nt; lia) ltac:(lia) C4).
  replace (nk + 4 + (nt + 1) + 1) with (nk + nt + 6) by lia.
  erewrite close_brace_last; [|exact G6|lia|reflexivity|exact C5].
  cbn [mbind res_bind]. destruct (Z.ltb_spec (nk + nt + 6 + 1) 0); [unfold nk, nt in *; lia|].
  reflexivity.
Qed.

Lemma member_value_at (key text rest : list Z) :
  sfrom (member key text ++ rest) (Z.of_nat (length (escaped key)) + 4 + 1)
  = escaped text ++ CH_DQUOTE :: CH_RBRACE :: rest.
Proof.
  assert (Hs : member key text ++ rest
               = (CH_LBRACE :: CH_DQUOTE :: escaped key ++ [CH_DQUOTE; CH_COLON; CH_DQUOTE])
                 ++ escaped text ++ CH_DQUOTE :: CH_RBRACE :: rest).
  { unfold member, literal. cbn [app]. rewrite <- !app_assoc. cbn [app].
    rewrite <- !app_assoc. reflexivity. }
  rewrite Hs. apply sfrom_app_here.
  repeat first [rewrite length_app | progress cbn [length]]. lia.
Qed.

Lemma member_find_string (key text rest to : list Z) (len n : Z) :
  Forall is_byte key -> Forall (fun c => c <> 0) key ->
  Forall is_byte text -> Forall (fun c => c <> 0) text ->
  Z.of_nat (length (member key text)) <= len ->
  Z.of_nat (length text) < n -> n <= Z.of_nat (length to) ->
  mjson_find_string (member key text ++ rest) len (member_path key) to n
  = Val (Z.of_nat (length text), text ++ 0 :: drop (S (length text)) to).
Proof.
  intros Hbk Hzk Hbt Hzt Hlen Hn Hcap. unfold mjson_find_string.
  rewrite member_find by assumption. cbn [mbind res_bind store].
  change (negb (MJSON_TOK_STRING =? MJSON_TOK_STRING)) with false. cbv iota.
  rewrite member_value_at.
  apply mjson_unescape_ok; [|exact Hn|exact Hcap].
  replace (Z.of_nat (length (escaped text)) + 2 - 2)
    with (Z.of_nat (length (escaped text))) by lia.
  rewrite span_bytes_take by (rewrite length_app; lia).
  rewrite Nat2Z.id, take_app_length. apply escaped_decoded. exact Hbt.
Qed.

(** From the printer to the lookup: in an object with one member whose
    key and value are the literals [mjson_print_str] emits for [key]
    and [text] (bytes other than NUL), whatever follows the object,
    [mjson_find] with the path [$.] followed by the key as it stands in
    the buffer finds the value as a string token, at its offset and
    with its length, and [mjson_find_string] gives [text] back, NUL
    terminated, when the destination has room for it. *)
Theorem mjson_find_string_member (key text rest to : list Z) (len n : Z) (tp tl : dest) :
  Forall is_byte key -> Forall (fun c => c <> 0) key ->
  Forall is_byte text -> Forall (fun c => c <> 0) text ->
  Z.of_nat (length (member key text)) <= len ->
  Z.of_nat (length text) < n -> n <= Z.of_nat (length to) ->
  mjson_find (member key text ++ rest) len (member_path key) tp tl
  = Val (MJSON_TOK_STRING,
         store tp (Z.of_nat (length (escaped key)) + 4),
         store tl (Z.of_nat (length (escaped text)) + 2))
  /\ mjson_find_string (member key text ++ rest) len (member_path key) to n
     = Val (Z.of_nat (length text), text ++ 0 :: drop (S (length text)) to).
Proof.
  intros Hbk Hzk Hbt Hzt Hlen Hn Hcap. split.
  - apply member_find; assumption.
  - apply member_find_string; assumption.
Qed.

Lemma mjson_find_string_member_witness :
  let key := [107; CH_DQUOTE] in
  let text := [97; CH_LF; 98] in
  mjson_find (member key text ++ [CH_SPACE]) 15 (member_path key) (Some None) (Some None)
  = Val (MJSON_TOK_STRING, Some (Some 7), Some (Some 6))
  /\ mjson_find_string (member key text ++ [CH_SPACE]) 15 (member_path key) [9; 9; 9; 9; 9] 5
     = Val (3, [97; CH_LF; 98; 0; 9]).
Proof.
  apply (mjson_find_string_member [107; CH_DQUOTE] [97; CH_LF; 98] [CH_SPACE]
           [9; 9; 9; 9; 9] 15 5 (Some None) (Some None)).
  - repeat constructor; unfold is_byte; lia.
  - repeat constructor; lia.
  - repeat constructor; unfold is_byte; lia.
  - repeat constructor; lia.
  - vm_compute. discriminate.
  - vm_compute. reflexivity.
  - vm_compute. discriminate.
Defined.
